(** * PixieSDK: crate lifecycle, AFE fixture and configuration import

    A shallow embedding of the parts of the Pixie-16 SDK that the
    specification makes statements about:

    - [fixture.cpp]: [channel_baseline], [linear_fit], [db04::set_dac],
      the ADC swap detection of [afe_dbs::boot] and the per channel step of
      [afe_dbs::adjust_offsets];
    - [crate.cpp]: [crate::ready], [shutdown], [probe], [boot],
      [initialize_afe], [export_config];
    - [config.cpp]: the channel variable part of [import_json].

    C++ [int] and [size_t] values are [Z]; [double] is the kernel's binary64
    ([PrimFloat]), so every floating point expression of the source is
    evaluated with the rounding the hardware applies.  A call either
    returns, throws a [pixie::error::error] with a code, or leaves the
    defined behaviour of the language (out of range index, signed overflow,
    a foreign exception that ends in [std::terminate]); the three cases are
    the constructors of [outcome]. *)

From Stdlib Require Import ZArith Lia Bool String.
From Stdlib Require Import Floats.PrimFloat Floats.FloatOps Floats.SpecFloat.
From Stdlib Require Import Uint63.
From stdpp Require Import base numbers list.

Open Scope Z_scope.

(** ** Error codes and call outcomes *)

Module error.

(** Modelled from the spec: [pixie/error.hpp] is not part of the sources.
    The codes are the error kinds of section 7 of the specification, plus
    [success], which [crate.cpp] uses as the "no error" value. *)
Inductive code : Set :=
| success
| crate_not_ready
| crate_already_open
| module_not_found
| module_number_invalid
| module_slot_invalid
| module_already_open
| module_offline
| module_initialize_failure
| channel_number_invalid
| invalid_value
| config_json_error
| file_open_failure
| file_read_failure
| internal_failure
| device_hw_failure.

Definition code_eqb (a b : code) : bool :=
  match a, b with
  | success, success
  | crate_not_ready, crate_not_ready
  | crate_already_open, crate_already_open
  | module_not_found, module_not_found
  | module_number_invalid, module_number_invalid
  | module_slot_invalid, module_slot_invalid
  | module_already_open, module_already_open
  | module_offline, module_offline
  | module_initialize_failure, module_initialize_failure
  | channel_number_invalid, channel_number_invalid
  | invalid_value, invalid_value
  | config_json_error, config_json_error
  | file_open_failure, file_open_failure
  | file_read_failure, file_read_failure
  | internal_failure, internal_failure
  | device_hw_failure, device_hw_failure => true
  | _, _ => false
  end.

End error.

(** The result of a call.  [Fault] stands for everything outside the
    program's own error protocol: undefined behaviour and exceptions that
    are not [pixie::error::error]. *)
Inductive outcome (A : Type) : Type :=
| Return (a : A)
| Throw (e : error.code)
| Fault.

Arguments Return {A} a.
Arguments Throw {A} e.
Arguments Fault {A}.

#[global] Instance outcome_ret : MRet outcome := fun A a => Return a.

#[global] Instance outcome_bind : MBind outcome := fun A B f m =>
  match m with
  | Return a => f a
  | Throw e => Throw e
  | Fault => Fault
  end.

Definition returns {A} (m : outcome A) : bool :=
  match m with Return _ => true | _ => false end.

(** ** C++ arithmetic conversions *)

Module cxx.

Definition int_min : Z := - 2 ^ 31.
Definition int_max : Z := 2 ^ 31 - 1.

(** A value of type [int]; signed overflow is undefined. *)
Definition as_int (z : Z) : outcome Z :=
  if (int_min <=? z) && (z <=? int_max) then Return z else Fault.

(** [1 << n] on [int]. *)
Definition shl1 (n : Z) : outcome Z :=
  if (0 <=? n) && (n <=? 30) then Return (Z.shiftl 1 n) else Fault.

(** [int] to [double]: exact, every [int] is a binary64 number. *)
Definition double_of_int (z : Z) : float :=
  if z <? 0 then PrimFloat.opp (PrimFloat.of_uint63 (Uint63.of_Z (- z)))
  else PrimFloat.of_uint63 (Uint63.of_Z z).

(** [double] to [int]: truncation toward zero; undefined when the
    truncated value is not an [int] (also for infinities and NaN). *)
Definition int_of_double (f : float) : outcome Z :=
  match Prim2SF f with
  | S754_zero _ => Return 0
  | S754_finite s m e =>
      let mag := if 0 <=? e then Z.pos m * 2 ^ e else Z.pos m / 2 ^ (- e) in
      as_int (if s then - mag else mag)
  | S754_infinity _ | S754_nan => Fault
  end.

(** Conversion to [uint32_t] ([hw::word], [param::value_type]). *)
Definition as_uint32 (z : Z) : Z := z mod 2 ^ 32.

(** Conversion to [uint16_t] ([hw::adc_word]). *)
Definition as_uint16 (z : Z) : Z := z mod 2 ^ 16.

End cxx.

(** ** Hardware access, as a log of what reaches the device *)

Module hw.

(** Modelled from the spec: [pixie/pixie16/defs.hpp], which names the device
    registers, is not part of the sources; only the register the fixture
    code writes is listed. *)
Inductive register : Set :=
| CFG_DAC.

(** What a fixture does to its module: [module::select_port],
    [module::write_word], a write of a daughter board's [ADCCTRL] register
    through [hw::memory::fippi], and [hw::wait] (in microseconds). *)
Inductive event : Set :=
| select_port (port : Z)
| write_word (reg : register) (value : Z)
| fippi_write_adcctrl (db_number : Z) (value : Z)
| wait (microseconds : Z).

End hw.

(** ** [fixture.cpp] *)

Module fixture.
Import cxx.

(** *** [struct channel_baseline] *)

Module channel_baseline.

(** [channel_baseline::noise_bins]. *)
Definition noise_bins : Z := 30.

(** The histogram [bins] of the samples seen since [start] and the
    [baseline] that [end] derives from it. *)
Record t : Type := Build {
  channel : Z;
  adc_bits : Z;
  noise_percent : float;
  runs : Z;
  baseline : Z;
  bins : list Z
}.

(** [channel_baseline::channel_baseline(double noise_percent_)]: the
    percentage is clamped into [0, 100]. *)
Definition new (noise_percent_ : float) : t :=
  {| channel := -1;
     adc_bits := 0;
     noise_percent :=
       if PrimFloat.ltb (double_of_int 100) noise_percent_ then double_of_int 100
       else if PrimFloat.ltb noise_percent_ (double_of_int 0) then double_of_int 0
       else noise_percent_;
     runs := 0;
     baseline := -1;
     bins := [] |}.

(** The constructor's default argument is [0.5]; this is the element a
    [channel_baselines::resize] creates. *)
Definition default_noise_percent : float := 0.5%float.

Definition new_default : t := new default_noise_percent.

(** [channel_baseline::start]. *)
Definition start (channel_ adc_bits_ : Z) (self : t) : outcome t :=
  size ← shl1 adc_bits_;
  mret {| channel := channel_;
          adc_bits := adc_bits_;
          noise_percent := noise_percent self;
          runs := 0;
          baseline := -1;
          bins := replicate (Z.to_nat size) 0 |}.

(** One round of the loop of [channel_baseline::update]: the clamp
    [if (sample > bins.size()) sample = bins.size() - 1] (the assignment
    converts the [size_t] back to the 16 bit sample type) followed by
    [++bins[sample]].  Indexing outside the vector is undefined. *)
Definition update_sample (bins_ : list Z) (sample : Z) : outcome (list Z) :=
  let size := Z.of_nat (length bins_) in
  let sample := if size <? sample then as_uint16 (size - 1) else sample in
  match bins_ !! Z.to_nat sample with
  | Some n => Return (<[Z.to_nat sample := n + 1]> bins_)
  | None => Fault
  end.

Fixpoint update_bins (bins_ : list Z) (trace : list Z) : outcome (list Z) :=
  match trace with
  | [] => Return bins_
  | sample :: trace' =>
      bins' ← update_sample bins_ sample;
      update_bins bins' trace'
  end.

(** [channel_baseline::update]. *)
Definition update (trace : list Z) (self : t) : outcome t :=
  bins' ← update_bins (bins self) trace;
  mret {| channel := channel self;
          adc_bits := adc_bits self;
          noise_percent := noise_percent self;
          runs := runs self + 1;
          baseline := baseline self;
          bins := bins' |}.

(** [std::max_element]: the position of the first largest element; the
    position is moved only by a strictly larger element. *)
Fixpoint max_element_from (largest : nat) (largest_val : Z) (i : nat)
  (l : list Z) : nat :=
  match l with
  | [] => largest
  | x :: l' =>
      if largest_val <? x then max_element_from i x (S i) l'
      else max_element_from largest largest_val (S i) l'
  end.

Definition max_element (l : list Z) : nat :=
  match l with
  | [] => 0%nat
  | x :: l' => max_element_from 0 x 1 l'
  end.

(** The loop of [channel_baseline::end]: [n] rounds from bin [b], each
    adding [b * bins[b]] to [sum] and [bins[b]] to [samples]. *)
Fixpoint end_loop (bins_ : list Z) (b : Z) (n : nat) (sum samples : Z) : Z * Z :=
  match n with
  | O => (sum, samples)
  | S n' =>
      let count := default 0 (bins_ !! Z.to_nat b) in
      end_loop bins_ (b + 1) n' (sum + b * count) (samples + count)
  end.

(** [channel_baseline::end].  The loop runs over [from_bin <= b < to_bin];
    the division by [samples] is undefined for an empty window. *)
Definition end_ (self : t) : outcome t :=
  let max_bin := Z.of_nat (max_element (bins self)) in
  let from_bin := Z.max (max_bin - noise_bins) 0 in
  let to_bin := Z.min (max_bin + noise_bins) (Z.of_nat (length (bins self))) in
  let '(sum, samples) :=
    end_loop (bins self) from_bin (Z.to_nat (to_bin - from_bin)) 0 0 in
  if samples =? 0 then Fault
  else mret {| channel := channel self;
               adc_bits := adc_bits self;
               noise_percent := noise_percent self;
               runs := runs self;
               baseline := Z.quot sum samples;
               bins := bins self |}.

(** [bool channel_baseline::operator==(const channel_baseline& other)]. *)
Definition operator_eq (self other : t) : bool :=
  baseline self =? baseline other.

(** The local [range] of [operator==(const int bl)]. *)
Definition noise_range (self : t) : outcome Z :=
  if PrimFloat.ltb (double_of_int 0) (noise_percent self) then
    size ← shl1 (adc_bits self);
    int_of_double
      (PrimFloat.mul (double_of_int size)
         (PrimFloat.div (noise_percent self) (double_of_int 100)))
  else Return 1.

(** [bool channel_baseline::operator==(const int bl)]. *)
Definition operator_eq_int (self : t) (bl : Z) : outcome bool :=
  range ← noise_range self;
  mret ((bl - range <=? baseline self) && (baseline self <=? bl + range)).

(** [bool channel_baseline::operator!=(const int bl)]. *)
Definition operator_ne_int (self : t) (bl : Z) : outcome bool :=
  eq ← operator_eq_int self bl;
  mret (negb eq).

(** [bool channel_baseline::operator!=(const channel_baseline& other)]:
    [return *this != other.baseline], which resolves to the [int]
    overload. *)
Definition operator_ne (self other : t) : outcome bool :=
  operator_ne_int self (baseline other).

End channel_baseline.

(** What [analyze_channel_baselines] does for one channel with one trace:
    [start], [update], [end] on a default constructed baseline. *)
Definition analyze_channel (channel_ adc_bits_ : Z) (trace : list Z)
  : outcome channel_baseline.t :=
  bl ← channel_baseline.start channel_ adc_bits_ channel_baseline.new_default;
  bl ← channel_baseline.update trace bl;
  channel_baseline.end_ bl.

(** *** [template<typename T> struct linear_fit], at [T = int] *)

Module linear_fit.

Record t : Type := Build {
  k : float;
  c : float;
  sum_x : float;
  sum_y : float;
  sum_xy : float;
  sum_x_sq : float;
  count : Z
}.

(** [linear_fit()]. *)
Definition new : t :=
  {| k := 0; c := 0; sum_x := 0; sum_y := 0; sum_xy := 0; sum_x_sq := 0;
     count := 0 |}.

(** [void update(T x, T y)]: the products [x * y] and [x * x] are taken in
    [int] before they are added to the [double] sums. *)
Definition update (x y : Z) (self : t) : outcome t :=
  xy ← as_int (x * y);
  xx ← as_int (x * x);
  mret {| k := k self;
          c := c self;
          sum_x := PrimFloat.add (sum_x self) (double_of_int x);
          sum_y := PrimFloat.add (sum_y self) (double_of_int y);
          sum_xy := PrimFloat.add (sum_xy self) (double_of_int xy);
          sum_x_sq := PrimFloat.add (sum_x_sq self) (double_of_int xx);
          count := count self + 1 |}.

(** The [divisor] of [calc]. *)
Definition divisor (self : t) : float :=
  PrimFloat.sub (PrimFloat.mul (sum_x self) (sum_x self))
    (PrimFloat.mul (double_of_int (count self)) (sum_x_sq self)).

(** [void calc()]. *)
Definition calc (self : t) : t :=
  {| k := PrimFloat.div
            (PrimFloat.sub (PrimFloat.mul (sum_x self) (sum_y self))
               (PrimFloat.mul (double_of_int (count self)) (sum_xy self)))
            (divisor self);
     c := PrimFloat.div
            (PrimFloat.sub (PrimFloat.mul (sum_x self) (sum_xy self))
               (PrimFloat.mul (sum_y self) (sum_x_sq self)))
            (divisor self);
     sum_x := sum_x self;
     sum_y := sum_y self;
     sum_xy := sum_xy self;
     sum_x_sq := sum_x_sq self;
     count := count self |}.

(** [T y(T x)]: [(k * x) + c], converted to [int] on return. *)
Definition y (x : Z) (self : t) : outcome Z :=
  int_of_double (PrimFloat.add (PrimFloat.mul (k self) (double_of_int x)) (c self)).

End linear_fit.

(** *** [struct db] and [struct db04] *)

Module db.

Inductive adc_swap_state : Set :=
| adc_boot_state
| adc_unswapped
| adc_swapped.

(** The daughter board a channel sits on: its position [number], its
    first channel [base] and the channel's [offset] on the board. *)
Record t : Type := Build {
  number : Z;
  base : Z;
  offset : Z;
  adc_state : adc_swap_state
}.

(** [db::set("ADC_SWAP", value)]: only the first report after a boot is
    kept. *)
Definition set_adc_swap (value : bool) (self : t) : t :=
  match adc_state self with
  | adc_boot_state =>
      {| number := number self;
         base := base self;
         offset := offset self;
         adc_state := if value then adc_swapped else adc_unswapped |}
  | _ => self
  end.

(** [db::get("ADC_SWAP", value)]. *)
Definition get_adc_swap (self : t) : bool :=
  match adc_state self with
  | adc_swapped => true
  | _ => false
  end.

End db.

Module db04.

(** [db04::dac_settle_time_ms]. *)
Definition dac_settle_time_ms : Z := 250.

(** The [switch (offset)] of [db04::set_dac] that picks the DAC output. *)
Definition dac_output (offset : Z) : Z :=
  match offset with
  | 0 | 4 => 1
  | 1 | 5 => 2
  | 2 | 6 => 0
  | 3 | 7 => 3
  | _ => 0
  end.

(** [void db04::set_dac(param::value_type value)], with the accesses to
    the module it makes when it returns.  [value] is a 32 bit unsigned
    word, and so are [dac_addr], [dac_ctrl] and [dac]. *)
Definition set_dac (value : Z) (self : db.t) : outcome (list hw.event) :=
  if 65535 <? value then Throw error.invalid_value
  else
    let dac_addr := Z.lor 0x20 (Z.shiftl (if db.offset self <? 4 then 1 else 0) 1) in
    let dac_ctrl := as_uint32 (0x30 + dac_output (db.offset self)) in
    let dac :=
      Z.lor (Z.lor (as_uint32 (Z.shiftl dac_addr 24))
                   (as_uint32 (Z.shiftl dac_ctrl 16)))
            value in
    mret [hw.select_port (db.number self + 1);
          hw.write_word hw.CFG_DAC dac;
          hw.wait 6000].

End db04.

(** *** [struct afe_dbs] *)

Module afe_dbs.

(** [afe_dbs::limits::max_dbs]. *)
Definition max_dbs : Z := 4.

(** The fixture's [adcctrl] words, one per daughter board, and the channel
    fixtures of its module. *)
Record t : Type := Build {
  adcctrl : list Z;
  channels : list db.t
}.

(** The value of the local [swapped] in the first loop of
    [afe_dbs::boot]: an even channel compares with
    [bl_same[chan] == bl_moved[chan]], an odd one with
    [bl_same[chan] != bl_moved[chan]]. *)
Definition swapped (chan : Z) (bl_same bl_moved : channel_baseline.t)
  : outcome bool :=
  if Z.rem chan 2 =? 0 then
    mret (channel_baseline.operator_eq bl_same bl_moved)
  else
    channel_baseline.operator_ne bl_same bl_moved.

(** The body of that loop for channel [chan]: report the swap to the
    channel fixture and, for a swapped channel, set bit [offset / 2] of
    the board's [adcctrl] word and write the word when it changed. *)
Definition boot_channel (chan : nat) (bl_same bl_moved : channel_baseline.t)
  (self : t) : outcome (t * list hw.event) :=
  sw ← swapped (Z.of_nat chan) bl_same bl_moved;
  match channels self !! chan with
  | None => Fault
  | Some fx =>
      let self := {| adcctrl := adcctrl self;
                     channels := <[chan := db.set_adc_swap sw fx]> (channels self) |} in
      if (sw : bool) then
        let chan_db := db.number fx in
        let chan_offset := db.offset fx in
        if max_dbs <=? chan_db then Throw error.module_initialize_failure
        else if chan_db <? 0 then Fault
        else
          match adcctrl self !! Z.to_nat chan_db with
          | None => Fault
          | Some last_adcctrl =>
              bit ← shl1 (Z.quot chan_offset 2);
              let word := Z.lor last_adcctrl (as_uint32 bit) in
              mret ({| adcctrl := <[Z.to_nat chan_db := word]> (adcctrl self);
                       channels := channels self |},
                    if word =? last_adcctrl then []
                    else [hw.fippi_write_adcctrl chan_db word])
          end
      else mret (self, @nil hw.event)
  end.

(** The first loop of [afe_dbs::boot], [n] rounds from channel [chan]. *)
Fixpoint boot_swap_loop (n : nat) (chan : nat)
  (bl_same bl_moved : list channel_baseline.t) (self : t)
  : outcome (t * list hw.event) :=
  match n with
  | O => mret (self, @nil hw.event)
  | S n' =>
      match bl_same !! chan, bl_moved !! chan with
      | Some same, Some moved =>
          '(self, events) ← boot_channel chan same moved self;
          '(self, events') ← boot_swap_loop n' (S chan) bl_same bl_moved self;
          mret (self, events ++ events')
      | _, _ => Fault
      end
  end.

(** The constants of [afe_dbs::adjust_offsets]. *)
Definition dac_slope_learn_steps : Z := 200.
Definition linear_fit_samples : Z := 2.
Definition runs : Z := 10.

(** [const int adc_target = int((1 << bl.adc_bits) * (bl_percents[chan] / 100))]. *)
Definition adc_target (bl : channel_baseline.t) (bl_percent : float) : outcome Z :=
  size ← shl1 (channel_baseline.adc_bits bl);
  int_of_double
    (PrimFloat.mul (double_of_int size)
       (PrimFloat.div bl_percent (double_of_int 100))).

(** The new DAC value of a channel whose baseline is off target, computed
    from the fit [bl_fit] that already holds the new sample. *)
Definition next_dac (bl : channel_baseline.t) (target dac : Z)
  (bl_fit : linear_fit.t) : outcome (linear_fit.t * Z) :=
  if linear_fit.count bl_fit <? linear_fit_samples then
    dac ← (if channel_baseline.baseline bl <? target
           then as_int (dac - dac_slope_learn_steps)
           else as_int (dac + dac_slope_learn_steps));
    mret (bl_fit, dac)
  else
    let bl_fit := linear_fit.calc bl_fit in
    dac ← linear_fit.y target bl_fit;
    mret (bl_fit, dac).

(** The body of the channel loop of [afe_dbs::adjust_offsets] for a
    channel on a DB04 board (the fixture that has an offset DAC).  The
    result is the channel's fit, its [offsetdacs] entry, what [set_dac]
    sent to the module, and whether the channel asks for another run. *)
Definition adjust_channel (fx : db.t) (has_offset_dac : bool)
  (bl : channel_baseline.t) (bl_percent : float)
  (bl_fit : linear_fit.t) (offsetdac : Z)
  : outcome (linear_fit.t * Z * list hw.event * bool) :=
  if has_offset_dac then
    target ← adc_target bl bl_percent;
    ne ← channel_baseline.operator_ne_int bl target;
    if (ne : bool) then
      bl_fit ← linear_fit.update (channel_baseline.baseline bl) offsetdac bl_fit;
      '(bl_fit, dac) ← next_dac bl target offsetdac bl_fit;
      events ← db04.set_dac (as_uint32 dac) fx;
      mret (bl_fit, dac, events, true)
    else mret (bl_fit, offsetdac, @nil hw.event, false)
  else mret (bl_fit, offsetdac, @nil hw.event, false).

(** What one run of the outer loop works on. *)
Record run_state : Type := Build_run_state {
  bl_fits : list linear_fit.t;
  offsetdacs : list Z;
  run_again : bool;
  sent : list hw.event
}.

(** The channel loop of one run, [n] rounds from channel [chan]. *)
Fixpoint adjust_channels (n : nat) (chan : nat) (fixtures : list db.t)
  (has_offset_dacs : list bool) (baselines : list channel_baseline.t)
  (bl_percents : list float) (st : run_state) : outcome run_state :=
  match n with
  | O => mret st
  | S n' =>
      match fixtures !! chan, has_offset_dacs !! chan, baselines !! chan,
            bl_percents !! chan, bl_fits st !! chan, offsetdacs st !! chan with
      | Some fx, Some has, Some bl, Some pct, Some bl_fit, Some dac =>
          '(bl_fit, dac, events, again) ← adjust_channel fx has bl pct bl_fit dac;
          adjust_channels n' (S chan) fixtures has_offset_dacs baselines bl_percents
            {| bl_fits := <[chan := bl_fit]> (bl_fits st);
               offsetdacs := <[chan := dac]> (offsetdacs st);
               run_again := run_again st || again;
               sent := sent st ++ events |}
      | _, _, _, _, _, _ => Fault
      end
  end.

End afe_dbs.

End fixture.

(** ** [crate.cpp] *)

Module module.

(** What the crate reads of a [pixie::module::module]. *)
Record t : Type := Build {
  slot : Z;
  number : Z;
  revision : Z;
  online : bool;
  present : bool
}.

End module.

Module crate.

(** The crate's collaborators.  [module.cpp], [backplane.cpp] and the
    firmware registry are not part of the sources; the crate only relies on
    the fact that a call on a module leaves a module behind and returns,
    throws an error code, or fails in some other way.  [backplane] is the
    backplane as the crate's own calls on it determine it.  Every module is
    constructed with a reference to the backplane; what a module does with
    it is not part of the model, and no property below speaks about it. *)
Class collaborators : Type := {
  backplane : Type;
  backplane_reinit : list module.t → list module.t → backplane → backplane;
  module_close : module.t → module.t * outcome unit;
  module_probe : module.t → module.t * outcome unit;
  module_boot : bool → bool → bool → module.t → module.t * outcome unit;
  module_sync_hw : module.t → module.t * outcome unit;
  module_sync_vars : module.t → module.t * outcome unit;
  (** the configuration of one module, as [export_json] collects it, after
      the refresh of its variables from the DSP *)
  module_config : Type;
  module_export : module.t → module.t * outcome module_config;
  (** whether [std::ofstream output_json(filename)] opens *)
  file_opens : string → bool
}.

Section with_collaborators.
Context `{collaborators}.

Record t : Type := Build {
  num_modules : Z;
  revision : Z;
  the_backplane : backplane;
  modules : list module.t;
  offline : list module.t;
  ready_ : bool;
  users_ : Z
}.

(** [crate::crate()], for a given initial backplane. *)
Definition new (bp : backplane) : t :=
  {| num_modules := 0; revision := -1; the_backplane := bp;
     modules := []; offline := []; ready_ := false; users_ := 0 |}.

Definition set_modules (mods : list module.t) (self : t) : t :=
  {| num_modules := num_modules self; revision := revision self;
     the_backplane := the_backplane self; modules := mods;
     offline := offline self; ready_ := ready_ self; users_ := users_ self |}.

Definition set_ready (r : bool) (self : t) : t :=
  {| num_modules := num_modules self; revision := revision self;
     the_backplane := the_backplane self; modules := modules self;
     offline := offline self; ready_ := r; users_ := users_ self |}.

(** [backplane.reinit(modules, offline)]. *)
Definition reinit_backplane (self : t) : t :=
  {| num_modules := num_modules self; revision := revision self;
     the_backplane :=
       backplane_reinit (modules self) (offline self) (the_backplane self);
     modules := modules self;
     offline := offline self; ready_ := ready_ self; users_ := users_ self |}.

(** [void crate::ready()]. *)
Definition ready (self : t) : outcome unit :=
  if ready_ self then Return tt else Throw error.crate_not_ready.

(** The loop of [crate::shutdown]: [close] every module, and in the
    handler [catch (error& e) { first_error = e.type; }] store the code.
    The result is the modules after the calls and the final value of
    [first_error], or [None] when a [close] failed with something the
    handler does not catch. *)
Fixpoint close_all (mods : list module.t) (first_error : error.code)
  : list module.t * option error.code :=
  match mods with
  | [] => ([], Some first_error)
  | m :: rest =>
      match module_close m with
      | (m', Return _) =>
          let '(rest', r) := close_all rest first_error in (m' :: rest', r)
      | (m', Throw e) =>
          let '(rest', r) := close_all rest e in (m' :: rest', r)
      | (m', Fault) => (m' :: rest, None)
      end
  end.

(** [void crate::shutdown()]. *)
Definition shutdown (self : t) : t * outcome unit :=
  match close_all (modules self) error.success with
  | (mods', None) => (set_modules mods' self, Fault)
  | (_, Some first_error) =>
      let self := set_ready false (set_modules [] self) in
      if error.code_eqb first_error error.success then (self, Return tt)
      else (self, Throw first_error)
  end.

(** The loop of [crate::probe]: the modules after their [probe] and the
    number of them that are online. *)
Fixpoint probe_all (mods : list module.t) (online : Z)
  : list module.t * outcome Z :=
  match mods with
  | [] => ([], Return online)
  | m :: rest =>
      match module_probe m with
      | (m', Return _) =>
          let '(rest', r) :=
            probe_all rest (if module.online m' then online + 1 else online) in
          (m' :: rest', r)
      | (m', Throw e) => (m' :: rest, Throw e)
      | (m', Fault) => (m' :: rest, Fault)
      end
  end.

(** [bool crate::probe()]. *)
Definition probe (self : t) : t * outcome bool :=
  match ready self with
  | Return _ =>
      match probe_all (modules self) 0 with
      | (mods', Return online) =>
          (reinit_backplane (set_modules mods' self),
           Return (online =? num_modules self))
      | (mods', Throw e) => (set_modules mods' self, Throw e)
      | (mods', Fault) => (set_modules mods' self, Fault)
      end
  | Throw e => (self, Throw e)
  | Fault => (self, Fault)
  end.

(** [struct crate::boot_params]. *)
Record boot_params : Type := Build_boot_params {
  force : bool;
  boot_comms : bool;
  boot_fippi : bool;
  boot_dsp : bool;
  boot_modules : list Z
}.

(** [crate::boot_params::boot_params()]. *)
Definition default_boot_params : boot_params :=
  {| force := true; boot_comms := true; boot_fippi := true; boot_dsp := true;
     boot_modules := [] |}.

(** What a worker stores in its promise: a code with [set_value], or the
    foreign exception with [set_exception]. *)
Inductive promised : Set :=
| value (e : error.code)
| exception.

(** The thread loop of [boot] and [initialize_afe]: the module numbers that
    get a worker, in the order the threads are created.  [skip] is the
    [continue] test.  A module number that already has a worker is listed
    a second time only when [params.modules] repeats it: the [continue]
    test then reads a module its worker is writing, and a second
    [get_future] on its promise throws [std::future_error] while threads
    are joinable.  That case, and an index outside [modules], give
    [None]. *)
Fixpoint spawn (skip : module.t → bool) (mods : list module.t)
  (mod_nums : list Z) (spawned : list nat) : option (list nat) :=
  match mod_nums with
  | [] => Some spawned
  | mod_num :: rest =>
      match mods !! Z.to_nat mod_num with
      | None => None
      | Some m =>
          if bool_decide (Z.to_nat mod_num ∈ spawned) then None
          else if skip m then spawn skip mods rest spawned
          else spawn skip mods rest (spawned ++ [Z.to_nat mod_num])
      end
  end.

(** The body of a worker thread around the module call [work]. *)
Definition worker (work : module.t → module.t * outcome unit) (m : module.t)
  : module.t * promised :=
  match work m with
  | (m', Return _) => (m', value error.success)
  | (m', Throw e) => (m', value e)
  | (m', Fault) => (m', exception)
  end.

(** All workers.  Every worker owns a different module, so the modules
    after the workers finished do not depend on how the threads were
    scheduled; the promises are listed in thread order. *)
Fixpoint run_workers (work : module.t → module.t * outcome unit)
  (spawned : list nat) (mods : list module.t) : list module.t * list promised :=
  match spawned with
  | [] => (mods, [])
  | n :: rest =>
      match mods !! n with
      | None => run_workers work rest mods
      | Some m =>
          let '(m', p) := worker work m in
          let '(mods', ps) := run_workers work rest (<[n := m']> mods) in
          (mods', p :: ps)
      end
  end.

(** The join loop: [futures[t].get()] rethrows a stored exception, which
    leaves the loop with threads unjoined; otherwise the first code that
    is not [success] is kept in [first_error]. *)
Fixpoint join (futures : list promised) (first_error : error.code)
  : outcome error.code :=
  match futures with
  | [] => Return first_error
  | exception :: _ => Fault
  | value e :: rest =>
      join rest (if error.code_eqb first_error error.success then e
                 else first_error)
  end.

(** The module numbers [crate::boot] works on, or the
    [module_number_invalid] it throws while it checks [params.modules]. *)
Definition boot_mod_nums (params : boot_params) (self : t) : outcome (list Z) :=
  let size := Z.of_nat (length (modules self)) in
  match boot_modules params with
  | [] => Return (seqZ 0 size)
  | _ =>
      if forallb (fun mod_num => mod_num <? size) (boot_modules params)
      then Return (boot_modules params)
      else Throw error.module_number_invalid
  end.

(** The [continue] test of the thread loop of [boot]. *)
Definition boot_skip (params : boot_params) (m : module.t) : bool :=
  (module.revision m =? 0) || (negb (force params) && module.online m).

(** [void crate::boot(const crate::boot_params& params)]. *)
Definition boot (params : boot_params) (self : t) : t * outcome unit :=
  match boot_mod_nums params self with
  | Throw e => (self, Throw e)
  | Fault => (self, Fault)
  | Return mod_nums =>
      match ready self with
      | Throw e => (self, Throw e)
      | Fault => (self, Fault)
      | Return _ =>
          match spawn (boot_skip params) (modules self) mod_nums [] with
          | None => (self, Fault)
          | Some spawned =>
              let '(mods', futures) :=
                run_workers
                  (module_boot (boot_comms params) (boot_fippi params)
                     (boot_dsp params))
                  spawned (modules self) in
              let self := set_modules mods' self in
              match join futures error.success with
              | Return first_error =>
                  if error.code_eqb first_error error.success
                  then (reinit_backplane self, Return tt)
                  else (self, Throw first_error)
              | Throw e => (self, Throw e)
              | Fault => (self, Fault)
              end
          end
      end
  end.

(** [void crate::initialize_afe()]: one [sync_hw] worker per online
    module. *)
Definition initialize_afe (self : t) : t * outcome unit :=
  match ready self with
  | Throw e => (self, Throw e)
  | Fault => (self, Fault)
  | Return _ =>
      let size := Z.of_nat (length (modules self)) in
      match spawn (fun m => negb (module.online m)) (modules self)
                  (seqZ 0 size) [] with
      | None => (self, Fault)
      | Some spawned =>
          let '(mods', futures) :=
            run_workers module_sync_hw spawned (modules self) in
          let self := set_modules mods' self in
          match join futures error.success with
          | Return first_error =>
              if error.code_eqb first_error error.success
              then (self, Return tt)
              else (self, Throw first_error)
          | Throw e => (self, Throw e)
          | Fault => (self, Fault)
          end
      end
  end.

(** The module loop of [config::export_json]. *)
Fixpoint export_modules (mods : list module.t)
  : list module.t * outcome (list module_config) :=
  match mods with
  | [] => ([], Return [])
  | m :: rest =>
      match module_export m with
      | (m', Return cfg) =>
          let '(rest', r) := export_modules rest in
          (m' :: rest', cfgs ← r; mret (cfg :: cfgs))
      | (m', Throw e) => (m' :: rest, Throw e)
      | (m', Fault) => (m' :: rest, Fault)
      end
  end.

(** [config::export_json(filename, crate)]; the result is the document
    written to the file. *)
Definition export_json (filename : string) (self : t)
  : t * outcome (list module_config) :=
  match export_modules (modules self) with
  | (mods', Return config) =>
      (set_modules mods' self,
       if file_opens filename then Return config
       else Throw error.file_open_failure)
  | (mods', r) => (set_modules mods' self, r)
  end.

(** [void crate::export_config(const std::string json_file)]. *)
Definition export_config (json_file : string) (self : t)
  : t * outcome (list module_config) :=
  export_json json_file self.

End with_collaborators.

(** The collaborators [H] with, for a backplane, the record of the calls
    [backplane.reinit(modules, offline)] that the crate makes: every call
    is recorded, in order, with the two lists it is given. *)
Definition logged (H : collaborators) : collaborators :=
  {| backplane := list (list module.t * list module.t);
     backplane_reinit := λ online offline calls, calls ++ [(online, offline)];
     module_close := @module_close H;
     module_probe := @module_probe H;
     module_boot := @module_boot H;
     module_sync_hw := @module_sync_hw H;
     module_sync_vars := @module_sync_vars H;
     module_config := @module_config H;
     module_export := @module_export H;
     file_opens := @file_opens H |}.

(** The calls of [backplane.reinit] a crate has made. *)
Definition reinit_calls {H : collaborators} (self : @t (logged H))
  : list (list module.t * list module.t) :=
  the_backplane self.

End crate.

(** ** [config.cpp]: channel variables of [import_json] *)

Module config.
Import cxx.

(** An element of the value array of a channel variable, by the kind of
    JSON value it is: an integer number, a floating point number, a
    boolean, a string, [null], or one of the others (object, array,
    binary). *)
Inductive json : Set :=
| jnull
| jnumber (z : Z)
| jfloat (f : float)
| jboolean (b : bool)
| jstring
| jother.

(** The arguments of a call
    [module.write_var(var, value, channel, offset, io)]. *)
Record write_var : Set := Build_write_var {
  wv_value : Z;
  wv_channel : Z;
  wv_offset : Z;
  wv_io : bool
}.

(** [double] to [uint32_t]: truncation toward zero; undefined when the
    truncated value is not a [uint32_t]. *)
Definition uint32_of_double (f : float) : outcome Z :=
  match Prim2SF f with
  | S754_zero _ => Return 0
  | S754_finite s m e =>
      let mag := if 0 <=? e then Z.pos m * 2 ^ e else Z.pos m / 2 ^ (- e) in
      let z := if s then - mag else mag in
      if (0 <=? z) && (z <? 2 ^ 32) then Return z else Fault
  | S754_infinity _ | S754_nan => Fault
  end.

(** The conversion of the element to [param::value_type] for the call
    inside the [try] block, with the handler of the [json::exception] the
    conversion throws.  A number and a boolean convert.  For every other
    element the conversion throws, and the handler builds its message with
    [std::string(element)]: that is the string itself for a string, and
    [throw_json_error] then throws [config_json_error]; for an element
    that is not a string it throws a [json::exception] of its own, which
    leaves [import_json] as it is. *)
Definition to_value (j : json) : outcome Z :=
  match j with
  | jnumber z => Return (as_uint32 z)
  | jfloat f => uint32_of_double f
  | jboolean b => Return (if b then 1 else 0)
  | jstring => Throw error.config_json_error
  | jnull | jother => Fault
  end.

(** [el.value()[0]] on the mutable array: an empty array is first filled
    up with a [null] so that the index exists. *)
Definition index0 (value : list json) : list json * json :=
  match value with
  | [] => ([jnull], jnull)
  | j :: _ => (value, j)
  end.

(** [for (idx = vchannels; idx < num_channels; idx++)
       el.value().push_back(el.value()[0])], as [n] rounds. *)
Fixpoint extend (n : nat) (value : list json) : list json :=
  match n with
  | O => value
  | S n' => let '(value, j) := index0 value in extend n' (value ++ [j])
  end.

(** The inner loop over [v] for one channel, [n] rounds from [v]. *)
Fixpoint write_elements (n : nat) (v : Z) (value : list json) (channel vbase : Z)
  : outcome (list write_var) :=
  match n with
  | O => Return []
  | S n' =>
      match value !! Z.to_nat (vbase + v) with
      | None => Fault
      | Some j =>
          x ← to_value j;
          rest ← write_elements n' (v + 1) value channel vbase;
          mret ({| wv_value := x; wv_channel := channel; wv_offset := v;
                   wv_io := false |} :: rest)
      end
  end.

(** The loop over [channel], at most [n] rounds from [channel], with its
    three way condition. *)
Fixpoint write_channels (n : nat) (channel : Z) (desc_size num_channels vchannels : Z)
  (value : list json) : outcome (list write_var) :=
  match n with
  | O => Return []
  | S n' =>
      if (channel <? num_channels) && (channel <? vchannels)
         && (channel * desc_size <? Z.of_nat (length value))
      then
        ws ← write_elements (Z.to_nat desc_size) 0 value channel (channel * desc_size);
        rest ← write_channels n' (channel + 1) desc_size num_channels vchannels value;
        mret (ws ++ rest)
      else Return []
  end.

(** What [import_json] does with the entry [el] of [channel.input] that
    names the channel variable with descriptor size [desc_size], on a
    module with [num_channels] channels: the [write_var] calls it makes,
    in order, when it returns.  A variable that is not writeable, or whose array length is
    not a multiple of [desc_size], is left alone. *)
Definition import_channel_var (writeable : bool) (desc_size num_channels : Z)
  (value : list json) : outcome (list write_var) :=
  if writeable then
    if desc_size =? 0 then Fault
    else if negb (Z.of_nat (length value) mod desc_size =? 0) then Return []
    else
      let vchannels := Z.of_nat (length value) / desc_size in
      let value :=
        if vchannels <? num_channels
        then extend (Z.to_nat (num_channels - vchannels)) value
        else value in
      let vchannels :=
        if vchannels <? num_channels
        then Z.of_nat (length value) / desc_size
        else vchannels in
      write_channels (Z.to_nat num_channels) 0 desc_size num_channels vchannels value
  else Return [].

End config.

(** ** [fixture.cpp]: averages, traces and channel fixtures *)

(** *** [struct average] *)

Module average.

(** A running sum with the largest and the smallest value seen. *)
Record t : Type := Build {
  avg : Z;
  max : Z;
  min : Z;
  count : Z
}.

(** [average()]: [max] starts at [INT_MIN], [min] at [INT_MAX]. *)
Definition new : t :=
  {| avg := 0; max := cxx.int_min; min := cxx.int_max; count := 0 |}.

(** [void update(int val)]; the sum and the count are [int]. *)
Definition update (val : Z) (self : t) : outcome t :=
  sum ← cxx.as_int (avg self + val);
  count' ← cxx.as_int (count self + 1);
  mret {| avg := sum;
          max := Z.max (max self) val;
          min := Z.min (min self) val;
          count := count' |}.

(** [void calc()]: [if (count > 0) avg /= count]. *)
Definition calc (self : t) : t :=
  if 0 <? count self then
    {| avg := Z.quot (avg self) (count self);
       max := max self; min := min self; count := count self |}
  else self.

(** [update] for every value of a list, in order. *)
Fixpoint update_all (vals : list Z) (self : t) : outcome t :=
  match vals with
  | [] => Return self
  | val :: rest => self' ← update val self; update_all rest self'
  end.

End average.

(** *** The ADC trace of a daughter board channel *)

Module adc_trace.

(** The loop of [db::acquire_adc] that unpacks the words read from the DSP
    into the channel's trace, [n] rounds from word [w]:
    [adc_trace[w * 2] = adc_word(buffer[w] & 0xffff)] and
    [adc_trace[w * 2 + 1] = adc_word((buffer[w] >> 16) & 0xffff)]. *)
Fixpoint unpack_loop (n : nat) (w : nat) (buffer : list Z) (trace : list Z)
  : outcome (list Z) :=
  match n with
  | O => Return trace
  | S n' =>
      match buffer !! w with
      | None => Fault
      | Some word =>
          if (2 * w + 1 <? length trace)%nat then
            let lo := cxx.as_uint16 (Z.land word 0xffff) in
            let hi := cxx.as_uint16 (Z.land (Z.shiftr word 16) 0xffff) in
            unpack_loop n' (S w) buffer
              (<[(2 * w + 1)%nat := hi]> (<[(2 * w)%nat := lo]> trace))
          else Fault
      end
  end.

(** The part of [db::acquire_adc] after the control task: the channel's
    trace is resized to [size = max_adc_trace_length] when its length
    differs, and the first [size / 2] words of [buffer], which the DSP
    read has filled, are unpacked into it. *)
Definition unpack (size : nat) (buffer : list Z) (trace : list Z)
  : outcome (list Z) :=
  let trace := if bool_decide (length trace = size) then trace
               else resize size 0 trace in
  unpack_loop (size / 2) 0 buffer trace.

(** [db::read_adc(buffer, size)]: the [memcpy] of
    [min(size, adc_trace.size())] samples to the start of the caller's
    buffer, which holds at least [size] samples. *)
Definition read_adc (size : nat) (trace : list Z) (buffer : list Z) : list Z :=
  let copy_size := if (size <? length trace)%nat then size else length trace in
  take copy_size trace ++ drop copy_size buffer.

End adc_trace.

(** *** The fixture of a channel *)

Module channel_fixture.

(** [enum struct hw::module_fixture]. *)
Inductive module_fixture : Set :=
| mainboard
| DB01
| DB02
| DB04
| DB06
| DB07.

(** What [fixture::make(module_channel, config)] creates: a [db04] for a
    DB04 channel and the base class [channel], labelled "motherboard", for
    every other one. *)
Inductive t : Type :=
| motherboard
| daughter_board_04 (board : fixture.db.t).

(** [fixture::make] for a channel, with the [db] constructor:
    [number] and [base] are what the EEPROM reports for the channel,
    [offset = channel - base], and the swap state is the boot state. *)
Definition make (config_fixture : module_fixture) (channel number base : Z) : t :=
  match config_fixture with
  | DB04 =>
      daughter_board_04
        {| fixture.db.number := number;
           fixture.db.base := base;
           fixture.db.offset := channel - base;
           fixture.db.adc_state := fixture.db.adc_boot_state |}
  | _ => motherboard
  end.

(** [unsupported_op]. *)
Definition unsupported_op {A} : outcome A := Throw error.internal_failure.

(** [virtual void set_dac(param::value_type value)]. *)
Definition set_dac (value : Z) (self : t) : outcome (list hw.event) :=
  match self with
  | motherboard => unsupported_op
  | daughter_board_04 board => fixture.db04.set_dac value board
  end.

(** [virtual void get(const std::string item, bool& value)]:
    [db04::get], then [db::get], then [channel::get]. *)
Definition get_bool (item : string) (self : t) : outcome bool :=
  match self with
  | motherboard => unsupported_op
  | daughter_board_04 board =>
      if String.eqb item "HAS_OFFSET_DAC" then Return true
      else if String.eqb item "ADC_SWAP" then Return (fixture.db.get_adc_swap board)
      else unsupported_op
  end.

(** [virtual void get(const std::string item, int& value)]. *)
Definition get_int (item : string) (self : t) : outcome Z :=
  match self with
  | motherboard => unsupported_op
  | daughter_board_04 board =>
      if String.eqb item "DAC_SETTLE_PERIOD" then Return fixture.db04.dac_settle_time_ms
      else if String.eqb item "DB_NUMBER" then Return (fixture.db.number board)
      else if String.eqb item "DB_OFFSET" then Return (fixture.db.offset board)
      else if String.eqb item "DAC_SETTLE_PERIOD" then Return 0
      else unsupported_op
  end.

(** [virtual void get(const std::string item, double& value)]. *)
Definition get_double (item : string) (self : t) : outcome float :=
  unsupported_op.

(** [virtual void set(const std::string item, bool value)]. *)
Definition set_bool (item : string) (value : bool) (self : t) : outcome t :=
  match self with
  | motherboard => unsupported_op
  | daughter_board_04 board =>
      if String.eqb item "ADC_SWAP"
      then Return (daughter_board_04 (fixture.db.set_adc_swap value board))
      else unsupported_op
  end.

(** The channel loop of [wait_dac_settle_period]: the largest
    [DAC_SETTLE_PERIOD] of the channels. *)
Fixpoint settle_period (channels : list t) (settle_period_ : Z) : outcome Z :=
  match channels with
  | [] => Return settle_period_
  | channel :: rest =>
      channel_settle_period ← get_int "DAC_SETTLE_PERIOD" channel;
      settle_period rest (Z.max settle_period_ channel_settle_period)
  end.

(** [wait_dac_settle_period]: the wait is in microseconds. *)
Definition wait_dac_settle_period (channels : list t) : outcome (list hw.event) :=
  period ← settle_period channels 0;
  mret (if 0 <? period then [hw.wait (period * 1000)] else []).

(** [afe_dbs::set_dacs], from channel [number] on: for every channel, in
    order, [module_.read_var(param::channel_var::OffsetDAC, channel.number)]
    and then [set_dac] of the channel's fixture with the value read.
    [read_var] is the outcome of that read for a channel number; a channel's
    number is its position in [module_.channels]. *)
Fixpoint set_dacs (read_var : Z → outcome Z) (number : Z) (channels : list t)
  : outcome (list hw.event) :=
  match channels with
  | [] => Return []
  | channel :: rest =>
      dac_offset ← read_var number;
      events ← set_dac dac_offset channel;
      events' ← set_dacs read_var (number + 1) rest;
      mret (events ++ events')
  end.

End channel_fixture.

(** ** [fixture.cpp]: the baselines of a module *)

Module channel_baselines.
Import fixture.

(** [analyze_channel_baselines] works on a module whose channel [number]
    is its position in [mod.channels].  [adc_bits] lists
    [channel.fixture->config.adc_bits] by channel.  The calls on the module
    are given by their outcomes: [get_traces] for [mod.get_traces()], and
    [read_adc number] for [mod.read_adc(number, trace, false)], which
    delivers the trace of the channel or fails. *)

(** The first loop, after [baselines.resize(mod.num_channels)] on the
    caller's empty vector: [start] on a default constructed baseline. *)
Fixpoint start_all (number : Z) (adc_bits : list Z)
  : outcome (list channel_baseline.t) :=
  match adc_bits with
  | [] => Return []
  | bits :: rest =>
      bl ← channel_baseline.start number bits channel_baseline.new_default;
      bls ← start_all (number + 1) rest;
      mret (bl :: bls)
  end.

(** The channel loop of the one trace that is taken: the read of the
    channel's trace and the [update] with it. *)
Fixpoint update_all (read_adc : Z → outcome (list Z)) (number : Z)
  (baselines : list channel_baseline.t) : outcome (list channel_baseline.t) :=
  match baselines with
  | [] => Return []
  | bl :: rest =>
      trace ← read_adc number;
      bl ← channel_baseline.update trace bl;
      bls ← update_all read_adc (number + 1) rest;
      mret (bl :: bls)
  end.

(** The last loop: [bl.end()]. *)
Fixpoint end_all (baselines : list channel_baseline.t)
  : outcome (list channel_baseline.t) :=
  match baselines with
  | [] => Return []
  | bl :: rest =>
      bl ← channel_baseline.end_ bl;
      bls ← end_all rest;
      mret (bl :: bls)
  end.

(** [analyze_channel_baselines(mod, baselines, 1)]. *)
Definition analyze (adc_bits : list Z) (get_traces : outcome unit)
  (read_adc : Z → outcome (list Z)) : outcome (list channel_baseline.t) :=
  baselines ← start_all 0 adc_bits;
  get_traces ≫= λ _,
  baselines ← update_all read_adc 0 baselines;
  end_all baselines.

End channel_baselines.

(** ** [fixture.cpp]: ADC swap verification and offset adjustment runs *)

Module afe_dbs_boot.
Import fixture.

(** [afe_dbs::adc_swap_verify]. *)
Definition adc_swap_verify : bool := true.

(** The verification loop of [afe_dbs::boot], [n] rounds from channel
    [chan]: the test of a channel is the one that set [swapped] in the
    first loop, with [bl_verify] in the place of [bl_moved]. *)
Fixpoint verify_loop (n : nat) (chan : nat)
  (bl_same bl_verify : list channel_baseline.t) (failed : bool) : outcome bool :=
  match n with
  | O => mret failed
  | S n' =>
      match bl_same !! chan, bl_verify !! chan with
      | Some same, Some verify =>
          still_swapped ← afe_dbs.swapped (Z.of_nat chan) same verify;
          verify_loop n' (S chan) bl_same bl_verify (failed || still_swapped)
      | _, _ => Fault
      end
  end.

(** [afe_dbs::boot] from the swap loop on.  [bl_same] and [bl_moved] are
    the baselines with all offsets at the low rail and with the even
    channels moved to the high rail; [analyzed] is the measurement taken
    for the verification after the given ADC control writes;
    [zero_offsets] stands for [set_channel_voffset(module_, 0, 1)]. *)
Definition swap_and_verify (num_channels : nat)
  (bl_same bl_moved : list channel_baseline.t)
  (analyzed : list hw.event → outcome (list channel_baseline.t))
  (zero_offsets : outcome (list hw.event))
  (self : afe_dbs.t) : outcome (afe_dbs.t * list hw.event) :=
  '(self, events) ← afe_dbs.boot_swap_loop num_channels 0 bl_same bl_moved self;
  failed ← (if adc_swap_verify then
              bl_verify ← analyzed events;
              verify_loop num_channels 0 bl_same bl_verify false
            else mret false);
  events' ← zero_offsets;
  if (failed : bool) then Throw error.module_initialize_failure
  else mret (self, events ++ events').

End afe_dbs_boot.

Module adjust_offsets.
Import fixture.

Section with_module.

(** The outcomes of [mod.get_traces()] and of the read of a channel's
    trace in run [run], after the given DAC accesses were made. *)
Variable get_traces : Z → list hw.event → outcome unit.
Variable read_adc : Z → list hw.event → Z → outcome (list Z).
(** [channel.fixture->config.adc_bits], by channel. *)
Variable adc_bits : list Z.
(** The boards of the module's channels.  The loop is reached when every
    channel has answered [HAS_OFFSET_DAC], which the base fixture does not:
    all channels are DB04 channels. *)
Variable boards : list db.t.
(** [channel.baseline_percent()], by channel. *)
Variable bl_percents : list float.

(** The channel fixtures of the module. *)
Definition channels : list channel_fixture.t :=
  channel_fixture.daughter_board_04 <$> boards.

Definition clear_run_again (st : afe_dbs.run_state) : afe_dbs.run_state :=
  {| afe_dbs.bl_fits := afe_dbs.bl_fits st;
     afe_dbs.offsetdacs := afe_dbs.offsetdacs st;
     afe_dbs.run_again := false;
     afe_dbs.sent := afe_dbs.sent st |}.

Definition send (events : list hw.event) (st : afe_dbs.run_state)
  : afe_dbs.run_state :=
  {| afe_dbs.bl_fits := afe_dbs.bl_fits st;
     afe_dbs.offsetdacs := afe_dbs.offsetdacs st;
     afe_dbs.run_again := afe_dbs.run_again st;
     afe_dbs.sent := afe_dbs.sent st ++ events |}.

(** The loop [for (int run = 0; run_again && run < runs; ++run)], with
    [n = runs - run] rounds left; [has] is [has_offset_dacs].  The result
    holds the value of [run] after the loop. *)
Fixpoint run_loop (n : nat) (run : Z) (has : list bool)
  (st : afe_dbs.run_state) : outcome (afe_dbs.run_state * Z) :=
  match n with
  | O => mret (st, run)
  | S n' =>
      if afe_dbs.run_again st then
        baselines ←
          channel_baselines.analyze adc_bits (get_traces run (afe_dbs.sent st))
            (read_adc run (afe_dbs.sent st));
        st ← afe_dbs.adjust_channels (length boards) 0 boards has baselines
               bl_percents (clear_run_again st);
        events ← (if afe_dbs.run_again st
                  then channel_fixture.wait_dac_settle_period channels
                  else mret []);
        run_loop n' (run + 1) has (send events st)
      else mret (st, run)
  end.

End with_module.

End adjust_offsets.

(** ** [crate.hpp] and [crate.cpp]: access to the modules of a crate *)

Module crate_modules.

Section with_collaborators.
Context `{crate.collaborators}.

(** [backplane.offline] for a module. *)
Variable backplane_offline : module.t → crate.backplane → crate.backplane.
(** [module->crate_revision]. *)
Variable crate_revision : module.t → Z.

(** [module::module& crate::operator[](T number)] at [T = int]: the
    number is converted to [size_t] and compared with [num_modules]; the
    module is then read from [modules]. *)
Definition index (number : Z) (self : crate.t) : outcome module.t :=
  let number_ := number mod 2 ^ 64 in
  if crate.num_modules self <=? number_ then Throw error.module_number_invalid
  else
    match crate.modules self !! Z.to_nat number_ with
    | Some m => Return m
    | None => Fault
    end.

(** [std::find_if] with the predicate [m->slot == slot_]. *)
Fixpoint find_slot (slot_ : Z) (mods : list module.t) : option module.t :=
  match mods with
  | [] => None
  | m :: rest => if module.slot m =? slot_ then Some m else find_slot slot_ rest
  end.

(** [module::module_ptr crate::find(T slot)]. *)
Definition find (slot_ : Z) (self : crate.t) : outcome module.t :=
  match find_slot slot_ (crate.modules self) with
  | Some m => Return m
  | None =>
      match find_slot slot_ (crate.offline self) with
      | Some m => Return m
      | None => Throw error.module_number_invalid
      end
  end.

Definition set_users (users : Z) (self : crate.t) : crate.t :=
  {| crate.num_modules := crate.num_modules self;
     crate.revision := crate.revision self;
     crate.the_backplane := crate.the_backplane self;
     crate.modules := crate.modules self;
     crate.offline := crate.offline self;
     crate.ready_ := crate.ready_ self;
     crate.users_ := users |}.

(** [enum module_handle::checks]. *)
Inductive checks : Set :=
| online
| present
| none.

(** The constructor of [module_handle]: [handle(crate_[number])], then
    [user(crate_)], then the body with [crate_.ready()] and the check.  An
    exception of the body destroys the [user] again. *)
Definition module_handle (number : Z) (check : checks) (self : crate.t)
  : crate.t * outcome module.t :=
  match index number self with
  | Throw e => (self, Throw e)
  | Fault => (self, Fault)
  | Return handle =>
      let self := set_users (crate.users_ self + 1) self in
      let released := set_users (crate.users_ self - 1) self in
      match crate.ready self with
      | Throw e => (released, Throw e)
      | Fault => (released, Fault)
      | Return _ =>
          match check with
          | online =>
              if module.online handle then (self, Return handle)
              else (released, Throw error.module_offline)
          | present =>
              if module.present handle then (self, Return handle)
              else (released, Throw error.module_offline)
          | none => (self, Return handle)
          end
      end
  end.

(** The [for] loop of [crate::move_offlines]: the first module that is
    not online, and the modules without it. *)
Fixpoint move_first (mods : list module.t) : option (module.t * list module.t) :=
  match mods with
  | [] => None
  | m :: rest =>
      if module.online m then
        match move_first rest with
        | Some (moved, rest') => Some (moved, m :: rest')
        | None => None
        end
      else Some (m, rest)
  end.

(** The loop [while (have_moved)], at most [n] rounds of it: [None] when
    the loop has not come to its end by then. *)
Fixpoint move_loop (n : nat) (self : crate.t) : option crate.t :=
  match n with
  | O => None
  | S n' =>
      match move_first (crate.modules self) with
      | Some (moved, rest) =>
          move_loop n'
            {| crate.num_modules := crate.num_modules self;
               crate.revision := crate.revision self;
               crate.the_backplane := backplane_offline moved (crate.the_backplane self);
               crate.modules := rest;
               crate.offline := crate.offline self ++ [moved];
               crate.ready_ := crate.ready_ self;
               crate.users_ := crate.users_ self |}
      | None => Some self
      end
  end.

(** [void crate::move_offlines()]. *)
Definition move_offlines (n : nat) (self : crate.t) : option crate.t :=
  self ← move_loop n self;
  Some {| crate.num_modules := Z.of_nat (length (crate.modules self));
          crate.revision := crate.revision self;
          crate.the_backplane := crate.the_backplane self;
          crate.modules := crate.modules self;
          crate.offline := crate.offline self;
          crate.ready_ := crate.ready_ self;
          crate.users_ := crate.users_ self |}.

(** One of the two loops of [crate::check_revision]. *)
Fixpoint check_revision_loop (mods : list module.t) (revision : Z) : Z :=
  match mods with
  | [] => revision
  | m :: rest =>
      if module.present m then
        if revision <? 0 then check_revision_loop rest (crate_revision m)
        else check_revision_loop rest revision
      else check_revision_loop rest revision
  end.

(** [void crate::check_revision()]: the new value of [revision]. *)
Definition check_revision (self : crate.t) : Z :=
  check_revision_loop (crate.offline self)
    (check_revision_loop (crate.modules self) (-1)).

End with_collaborators.

End crate_modules.

(** ** [config.cpp]: the array [export_json] writes for a channel variable *)

Module config_export.

(** The loop over [mod.channels] and the values of the variable in each:
    [vars] holds the values of the variable by channel. *)
Definition export_channel_var (vars : list (list Z)) : list config.json :=
  config.jnumber <$> concat vars.

End config_export.

(** ** [config.cpp]: the calls of an import that does not return *)

Module config_calls.
Import cxx config.

(** The [write_var] calls [import_json] makes for a channel variable are
    made one by one: the calls made before an element fails to convert
    have been made when the import ends.  The functions below follow the
    loops of [config.import_channel_var] and give the calls made together
    with the way the loops end. *)

(** The inner loop over [v]. *)
Fixpoint write_elements (n : nat) (v : Z) (value : list json) (channel vbase : Z)
  : list write_var * outcome unit :=
  match n with
  | O => ([], Return tt)
  | S n' =>
      match value !! Z.to_nat (vbase + v) with
      | None => ([], Fault)
      | Some j =>
          match to_value j with
          | Return x =>
              let calls := write_elements n' (v + 1) value channel vbase in
              ({| wv_value := x; wv_channel := channel; wv_offset := v;
                  wv_io := false |} :: calls.1, calls.2)
          | Throw e => ([], Throw e)
          | Fault => ([], Fault)
          end
      end
  end.

(** The loop over [channel]. *)
Fixpoint write_channels (n : nat) (channel : Z) (desc_size num_channels vchannels : Z)
  (value : list json) : list write_var * outcome unit :=
  match n with
  | O => ([], Return tt)
  | S n' =>
      if (channel <? num_channels) && (channel <? vchannels)
         && (channel * desc_size <? Z.of_nat (length value))
      then
        let calls :=
          write_elements (Z.to_nat desc_size) 0 value channel (channel * desc_size) in
        match calls.2 with
        | Return _ =>
            let calls' :=
              write_channels n' (channel + 1) desc_size num_channels vchannels value in
            (calls.1 ++ calls'.1, calls'.2)
        | _ => calls
        end
      else ([], Return tt)
  end.

(** The entry of a channel variable. *)
Definition import_channel_var (writeable : bool) (desc_size num_channels : Z)
  (value : list json) : list write_var * outcome unit :=
  if writeable then
    if desc_size =? 0 then ([], Fault)
    else if negb (Z.of_nat (length value) mod desc_size =? 0) then ([], Return tt)
    else
      let vchannels := Z.of_nat (length value) / desc_size in
      let value :=
        if vchannels <? num_channels
        then extend (Z.to_nat (num_channels - vchannels)) value
        else value in
      let vchannels :=
        if vchannels <? num_channels
        then Z.of_nat (length value) / desc_size
        else vchannels in
      write_channels (Z.to_nat num_channels) 0 desc_size num_channels vchannels value
  else ([], Return tt).

End config_calls.

(** ** [sim.cpp]: the simulated module *)

Module sim.

(** [struct module_def]; the numbers are integers, as the fields of
    [hw::config] that they are copied to. *)
Record module_def : Type := Build_module_def {
  def_device_number : Z;
  def_slot : Z;
  def_revision : Z;
  def_eeprom_format : Z;
  def_serial_num : Z;
  def_num_channels : Z;
  def_adc_bits : Z;
  def_adc_msps : Z;
  def_adc_clk_div : Z;
  def_var_defaults : string
}.

(** What [open] puts into [eeprom.configs]. *)
Record config : Type := Build_config {
  adc_bits : Z;
  adc_msps : Z;
  adc_clk_div : Z;
  fpga_clk_mhz : Z
}.

(** The state of a [sim::module] that its own methods read and write;
    [mapped] stands for [vmaddr != nullptr]. *)
Record t : Type := Build {
  mapped : bool;
  present_ : bool;
  online_ : bool;
  comms_fpga : bool;
  fippi_fpga : bool;
  dsp_online : bool;
  slot : Z;
  revision : Z;
  eeprom_format : Z;
  serial_num : Z;
  num_channels : Z;
  configs : list config;
  var_defaults : string
}.

(** The loop of [module::open] over [mod_defs]. *)
Fixpoint find_def (device_number : Z) (mod_defs : list module_def)
  : option module_def :=
  match mod_defs with
  | [] => None
  | mod_def :: rest =>
      if negb (def_num_channels mod_def =? 0)
         && (device_number =? def_device_number mod_def)
      then Some mod_def
      else find_def device_number rest
  end.

(** [void module::open(size_t device_number)]; the division is one of
    integers. *)
Definition open (mod_defs : list module_def) (device_number : Z) (self : t)
  : t * outcome unit :=
  if mapped self then (self, Throw error.module_already_open)
  else
    match find_def device_number mod_defs with
    | None => (self, Throw error.module_initialize_failure)
    | Some mod_def =>
        if def_adc_clk_div mod_def =? 0 then (self, Fault)
        else
          let config :=
            {| adc_bits := def_adc_bits mod_def;
               adc_msps := def_adc_msps mod_def;
               adc_clk_div := def_adc_clk_div mod_def;
               fpga_clk_mhz :=
                 Z.quot (def_adc_msps mod_def) (def_adc_clk_div mod_def) |} in
          ({| mapped := true;
              present_ := true;
              online_ := online_ self;
              comms_fpga := comms_fpga self;
              fippi_fpga := fippi_fpga self;
              dsp_online := dsp_online self;
              slot := def_slot mod_def;
              revision := def_revision mod_def;
              eeprom_format := def_eeprom_format mod_def;
              serial_num := def_serial_num mod_def;
              num_channels := def_num_channels mod_def;
              configs :=
                resize (Z.to_nat (def_num_channels mod_def)) config (configs self);
              var_defaults := def_var_defaults mod_def |},
           Return tt)
    end.

Definition set_flags (online comms fippi dsp : bool) (self : t) : t :=
  {| mapped := mapped self; present_ := present_ self;
     online_ := online; comms_fpga := comms; fippi_fpga := fippi;
     dsp_online := dsp;
     slot := slot self; revision := revision self;
     eeprom_format := eeprom_format self; serial_num := serial_num self;
     num_channels := num_channels self; configs := configs self;
     var_defaults := var_defaults self |}.

(** [void module::close()]. *)
Definition close (self : t) : t :=
  {| mapped := false; present_ := false;
     online_ := online_ self; comms_fpga := comms_fpga self;
     fippi_fpga := fippi_fpga self; dsp_online := dsp_online self;
     slot := slot self; revision := revision self;
     eeprom_format := eeprom_format self; serial_num := serial_num self;
     num_channels := num_channels self; configs := configs self;
     var_defaults := var_defaults self |}.

(** [void module::probe()].  [init] is the outcome of the calls that set
    up the values and channels, which belong to the base class. *)
Definition probe (init : outcome unit) (self : t) : t * outcome unit :=
  let self := set_flags false false false false self in
  match init with
  | Return _ => (set_flags true true true true self, Return tt)
  | failed => (self, failed)
  end.

(** [void module::boot(bool boot_comms, bool boot_fippi, bool boot_dsp)]. *)
Definition boot (boot_comms boot_fippi boot_dsp : bool) (init : outcome unit)
  (self : t) : t * outcome unit :=
  let comms := if boot_comms then true else comms_fpga self in
  let fippi := if boot_fippi then true else fippi_fpga self in
  let dsp := if boot_dsp then true else dsp_online self in
  let self := set_flags false comms fippi dsp self in
  match init with
  | Return _ => (set_flags (comms && fippi && dsp) comms fippi dsp self, Return tt)
  | failed => (self, failed)
  end.

End sim.

(** * Properties *)

(** ** Outcomes *)

Lemma bind_Return_inv {A B} (m : outcome A) (f : A → outcome B) (b : B) :
  m ≫= f = Return b → ∃ a, m = Return a ∧ f a = Return b.
Proof. destruct m as [a| |]; simpl; intros Hb; try discriminate. eauto. Qed.

Lemma code_eqb_eq (a b : error.code) : error.code_eqb a b = true ↔ a = b.
Proof. split; [destruct a, b; simpl; congruence | intros ->; destruct b; reflexivity]. Qed.

Lemma code_eqb_neq (a b : error.code) : error.code_eqb a b = false ↔ a ≠ b.
Proof.
  rewrite <- code_eqb_eq. destruct (error.code_eqb a b); split; congruence.
Qed.

(** ** Noise tolerant comparison of baselines *)

Import fixture.

Lemma noise_percent_new_default :
  channel_baseline.noise_percent channel_baseline.new_default
  = channel_baseline.default_noise_percent.
Proof. reflexivity. Qed.

(** The tolerance for a given ADC width, as a function of the width
    only, for the default noise percentage. *)
Definition default_range_ok (n : Z) : bool :=
  match
    cxx.int_of_double
      (PrimFloat.mul (cxx.double_of_int (Z.shiftl 1 n))
         (PrimFloat.div channel_baseline.default_noise_percent (cxx.double_of_int 100)))
  with
  | Return r => r =? 2 ^ n / 200
  | _ => false
  end.

Lemma default_range_ok_all : forallb default_range_ok (seqZ 0 31) = true.
Proof. vm_compute. reflexivity. Qed.

(** With the default 0.5 percent the tolerance is [2 ^ adc_bits / 200],
    rounded down, for every width an [int] shift allows. *)
Lemma noise_range_default (bl : channel_baseline.t) :
  channel_baseline.noise_percent bl = channel_baseline.default_noise_percent →
  0 ≤ channel_baseline.adc_bits bl ≤ 30 →
  channel_baseline.noise_range bl = Return (2 ^ channel_baseline.adc_bits bl / 200).
Proof.
  intros Hnp Hbits. unfold channel_baseline.noise_range. rewrite Hnp.
  change (PrimFloat.ltb (cxx.double_of_int 0) channel_baseline.default_noise_percent)
    with true. cbv iota.
  unfold cxx.shl1.
  replace ((0 <=? channel_baseline.adc_bits bl) && (channel_baseline.adc_bits bl <=? 30))
    with true by (symmetry; apply andb_true_iff; split; apply Z.leb_le; lia).
  simpl mbind.
  pose proof default_range_ok_all as Hall.
  rewrite forallb_forall in Hall.
  specialize (Hall (channel_baseline.adc_bits bl)).
  assert (Hin : In (channel_baseline.adc_bits bl) (seqZ 0 31)).
  { apply list_elem_of_In, elem_of_seqZ. lia. }
  specialize (Hall Hin). unfold default_range_ok in Hall.
  destruct (cxx.int_of_double _) as [r| |]; try discriminate.
  apply Z.eqb_eq in Hall. now subst.
Qed.

(** Two baselines compare equal under [operator==(const int)] exactly
    when they differ by at most [2 ^ adc_bits * 0.5 / 100]. *)
Lemma operator_eq_int_default (bl : channel_baseline.t) (x : Z) :
  channel_baseline.noise_percent bl = channel_baseline.default_noise_percent →
  0 ≤ channel_baseline.adc_bits bl ≤ 30 →
  channel_baseline.operator_eq_int bl x
  = Return (bool_decide
              (200 * Z.abs (channel_baseline.baseline bl - x)
               ≤ 2 ^ channel_baseline.adc_bits bl)).
Proof.
  intros Hnp Hbits. unfold channel_baseline.operator_eq_int.
  rewrite (noise_range_default bl Hnp Hbits). simpl. f_equal.
  set (N := 2 ^ channel_baseline.adc_bits bl).
  set (b := channel_baseline.baseline bl).
  assert (HN : 0 ≤ N) by (apply Z.pow_nonneg; lia).
  pose proof (Z.div_mod N 200 ltac:(lia)) as Hdm.
  pose proof (Z.mod_pos_bound N 200 ltac:(lia)) as Hmod.
  apply eq_true_iff_eq. rewrite andb_true_iff, !Z.leb_le, bool_decide_eq_true.
  split; intros Hr; lia.
Qed.

Lemma operator_ne_int_default (bl : channel_baseline.t) (x : Z) :
  channel_baseline.noise_percent bl = channel_baseline.default_noise_percent →
  0 ≤ channel_baseline.adc_bits bl ≤ 30 →
  channel_baseline.operator_ne_int bl x
  = Return (bool_decide
              (2 ^ channel_baseline.adc_bits bl
               < 200 * Z.abs (channel_baseline.baseline bl - x))).
Proof.
  intros Hnp Hbits. unfold channel_baseline.operator_ne_int.
  rewrite (operator_eq_int_default bl x Hnp Hbits). simpl. f_equal.
  apply eq_true_iff_eq. rewrite negb_true_iff, bool_decide_eq_false, bool_decide_eq_true.
  lia.
Qed.

(** [operator!=] on a baseline is the negated noise tolerant compare with
    the other baseline's value: it does not call itself. *)
Lemma operator_ne_unfold (a b : channel_baseline.t) :
  channel_baseline.operator_ne a b
  = (eq ← channel_baseline.operator_eq_int a (channel_baseline.baseline b);
     mret (negb eq)).
Proof. reflexivity. Qed.

(** A baseline with the default noise percentage, as [start] and [end]
    leave it, for tests of the comparisons. *)
Definition baseline_of (adc_bits_ baseline_ : Z) : channel_baseline.t :=
  {| channel_baseline.channel := 0;
     channel_baseline.adc_bits := adc_bits_;
     channel_baseline.noise_percent :=
       channel_baseline.noise_percent channel_baseline.new_default;
     channel_baseline.runs := 1;
     channel_baseline.baseline := baseline_;
     channel_baseline.bins := [] |}.

(** C8 (the code differs): for the 14 bit baselines 100 and 105, which
    are within the tolerance of 81 counts, [a == b] is false because
    [operator==] on a baseline compares the values exactly, and [a != b] is
    false as well because [operator!=] compares with the noise tolerance.
    The two operators are not negations of each other. *)
Theorem operator_ne_is_not_negated_operator_eq :
  let a := baseline_of 14 100 in
  let b := baseline_of 14 105 in
  channel_baseline.operator_eq a b = false
  ∧ channel_baseline.operator_ne a b = Return false
  ∧ channel_baseline.operator_eq_int a (channel_baseline.baseline b) = Return true.
Proof. vm_compute. auto. Qed.

(** The swap test of an even channel is the exact comparison. *)
Lemma swapped_even (chan : Z) (bl_same bl_moved : channel_baseline.t) :
  Z.rem chan 2 = 0 →
  afe_dbs.swapped chan bl_same bl_moved
  = Return (channel_baseline.baseline bl_same =? channel_baseline.baseline bl_moved).
Proof. intros Heven. unfold afe_dbs.swapped. rewrite Heven. reflexivity. Qed.

(** The swap test of an odd channel is the noise tolerant one. *)
Lemma swapped_odd (chan : Z) (bl_same bl_moved : channel_baseline.t) :
  Z.rem chan 2 ≠ 0 →
  channel_baseline.noise_percent bl_same = channel_baseline.default_noise_percent →
  0 ≤ channel_baseline.adc_bits bl_same ≤ 30 →
  afe_dbs.swapped chan bl_same bl_moved
  = Return (bool_decide
              (2 ^ channel_baseline.adc_bits bl_same
               < 200 * Z.abs (channel_baseline.baseline bl_same
                              - channel_baseline.baseline bl_moved))).
Proof.
  intros Hodd Hnp Hbits. unfold afe_dbs.swapped.
  destruct (Z.eqb_spec (Z.rem chan 2) 0) as [|_]; [contradiction|].
  unfold channel_baseline.operator_ne. now apply operator_ne_int_default.
Qed.

(** The flag a channel fixture is given in the first loop of [boot] is
    the result of the swap test of its channel. *)
Lemma boot_channel_flags_swapped (chan : nat)
  (bl_same bl_moved : channel_baseline.t) (self self' : afe_dbs.t)
  (events : list hw.event) :
  afe_dbs.boot_channel chan bl_same bl_moved self = Return (self', events) →
  ∃ fx sw,
    afe_dbs.channels self !! chan = Some fx
    ∧ afe_dbs.swapped (Z.of_nat chan) bl_same bl_moved = Return sw
    ∧ afe_dbs.channels self' !! chan = Some (db.set_adc_swap sw fx).
Proof.
  unfold afe_dbs.boot_channel. intros Hret.
  apply bind_Return_inv in Hret as (sw & Hsw & Hret).
  destruct (afe_dbs.channels self !! chan) as [fx|] eqn:Hfx; [|discriminate].
  exists fx, sw. split; [reflexivity|]. split; [assumption|].
  assert (Hlt : (chan < length (afe_dbs.channels self))%nat)
    by (eapply lookup_lt_Some; eassumption).
  destruct sw.
  - cbn [afe_dbs.adcctrl afe_dbs.channels] in Hret.
    destruct (afe_dbs.max_dbs <=? db.number fx); [discriminate|].
    destruct (db.number fx <? 0); [discriminate|].
    destruct (afe_dbs.adcctrl self !! Z.to_nat (db.number fx)); [|discriminate].
    apply bind_Return_inv in Hret as (bit & _ & Hret).
    injection Hret as <- _. cbn [afe_dbs.channels].
    now apply list_lookup_insert_eq.
  - injection Hret as <- _. cbn [afe_dbs.channels].
    now apply list_lookup_insert_eq.
Qed.

(** The 14 bit baseline that [analyze_channel] returns for a trace of four
    samples of one value. *)
Definition analyzed_flat (value : Z) : channel_baseline.t :=
  {| channel_baseline.channel := 0;
     channel_baseline.adc_bits := 14;
     channel_baseline.noise_percent :=
       channel_baseline.noise_percent channel_baseline.new_default;
     channel_baseline.runs := 1;
     channel_baseline.baseline := value;
     channel_baseline.bins := <[Z.to_nat value := 4]> (replicate (Z.to_nat 16384) 0) |}.

(** C1 (the code differs): channel 0 of a 14 bit module whose baseline is
    100 before and 105 after the even channels were moved.  The two
    baselines are equal within the noise tolerance, so the channel did not
    move and the claim flags it; the code compares the two values exactly
    and does not flag it. *)
Theorem boot_even_channel_compares_exactly :
  ∃ bl_same bl_moved,
    analyze_channel 0 14 [100; 100; 100; 100] = Return bl_same
    ∧ analyze_channel 0 14 [105; 105; 105; 105] = Return bl_moved
    ∧ channel_baseline.operator_eq_int bl_same (channel_baseline.baseline bl_moved)
      = Return true
    ∧ afe_dbs.swapped 0 bl_same bl_moved = Return false.
Proof.
  exists (analyzed_flat 100), (analyzed_flat 105).
  split; [vm_compute; reflexivity|].
  split; [vm_compute; reflexivity|].
  split.
  - rewrite operator_eq_int_default; [reflexivity|reflexivity|simpl; lia].
  - now rewrite swapped_even.
Qed.

(** ** The histogram of a trace *)

(** The bin [channel_baseline::update] counts a sample in, for a bin
    vector of length [size]. *)
Definition binned (size sample : Z) : Z :=
  if size <? sample then cxx.as_uint16 (size - 1) else sample.

(** How many samples of [trace] are counted in bin [b]. *)
Definition count_bin (size : Z) (trace : list Z) (b : Z) : Z :=
  Z.of_nat (length (filter (λ sample, binned size sample = b) trace)).

Definition Zsum (l : list Z) : Z := foldr Z.add 0 l.

(** The integer weighted mean of the bins [lo <= b < hi]. *)
Definition weighted_mean (count : Z → Z) (lo hi : Z) : Z :=
  Zsum ((λ b, b * count b) <$> seqZ lo (hi - lo))
  / Zsum (count <$> seqZ lo (hi - lo)).

(** The same over the closed range [lo <= b <= hi]. *)
Definition closed_weighted_mean (count : Z → Z) (lo hi : Z) : Z :=
  weighted_mean count lo (hi + 1).

Lemma count_bin_nonneg size trace b : 0 ≤ count_bin size trace b.
Proof. unfold count_bin. lia. Qed.

Lemma count_bin_cons size sample trace b :
  count_bin size (sample :: trace) b
  = (if bool_decide (binned size sample = b) then 1 else 0) + count_bin size trace b.
Proof.
  unfold count_bin. rewrite filter_cons.
  destruct (decide (binned size sample = b)) as [Heq|Hne].
  - rewrite bool_decide_eq_true_2 by assumption. simpl length. lia.
  - rewrite bool_decide_eq_false_2 by assumption. lia.
Qed.

Lemma update_sample_Return (bins_ bins' : list Z) (sample : Z) :
  channel_baseline.update_sample bins_ sample = Return bins' →
  let i := Z.to_nat (binned (Z.of_nat (length bins_)) sample) in
  ∃ n, bins_ !! i = Some n ∧ bins' = <[i := n + 1]> bins_.
Proof.
  unfold channel_baseline.update_sample, binned. simpl.
  destruct (bins_ !! _) as [n|] eqn:Hn; [|discriminate].
  intros [= <-]. eauto.
Qed.

(** A sample equal to the number of bins is not clamped by
    [sample > bins.size()], and [++bins[sample]] then indexes one past the
    end of the vector. *)
Lemma update_sample_at_size (bins_ : list Z) :
  channel_baseline.update_sample bins_ (Z.of_nat (length bins_)) = Fault.
Proof.
  unfold channel_baseline.update_sample.
  rewrite Z.ltb_irrefl, Nat2Z.id.
  now rewrite (lookup_ge_None_2 bins_ (length bins_)) by lia.
Qed.

(** Every other 16 bit sample is counted inside the vector: a smaller
    one in its own bin, a larger one in the top bin. *)
Lemma update_sample_in_range (bins_ : list Z) (sample : Z) :
  bins_ ≠ [] →
  0 ≤ sample < 2 ^ 16 →
  sample ≠ Z.of_nat (length bins_) →
  ∃ n, bins_ !! Z.to_nat (binned (Z.of_nat (length bins_)) sample) = Some n
       ∧ channel_baseline.update_sample bins_ sample
         = Return (<[Z.to_nat (binned (Z.of_nat (length bins_)) sample) := n + 1]> bins_)
       ∧ 0 ≤ binned (Z.of_nat (length bins_)) sample < Z.of_nat (length bins_).
Proof.
  intros Hne Hsample Hsize.
  assert (Hlen : 0 < Z.of_nat (length bins_)).
  { destruct bins_; [congruence | simpl; lia]. }
  assert (Hin : 0 ≤ binned (Z.of_nat (length bins_)) sample < Z.of_nat (length bins_)).
  { unfold binned, cxx.as_uint16.
    destruct (Z.ltb_spec (Z.of_nat (length bins_)) sample) as [Hbig|Hsmall]; [|lia].
    rewrite Z.mod_small by lia. lia. }
  destruct (lookup_lt_is_Some_2 bins_
              (Z.to_nat (binned (Z.of_nat (length bins_)) sample)) ltac:(lia))
    as [n Hn].
  exists n. split; [exact Hn|]. split; [|exact Hin].
  unfold channel_baseline.update_sample. fold (binned (Z.of_nat (length bins_)) sample).
  now rewrite Hn.
Qed.

(** C10 (the code differs): after [start] has sized the bin vector for a
    width of [adc_bits], a trace that holds the sample [2 ^ adc_bits] is
    not counted in the top bin: the sample passes the clamp unchanged, and
    the increment in [update] indexes outside the bin vector. *)
Theorem update_full_scale_sample (channel_ adc_bits_ : Z)
  (self bl : channel_baseline.t) :
  channel_baseline.start channel_ adc_bits_ self = Return bl →
  Z.of_nat (length (channel_baseline.bins bl)) = 2 ^ adc_bits_
  ∧ channel_baseline.update [2 ^ adc_bits_] bl = Fault.
Proof.
  unfold channel_baseline.start, cxx.shl1.
  destruct ((0 <=? adc_bits_) && (adc_bits_ <=? 30)) eqn:Hr; [|discriminate].
  apply andb_true_iff in Hr as [H0 _]. apply Z.leb_le in H0.
  simpl. intros [= <-]. cbn [channel_baseline.bins].
  rewrite Z.shiftl_1_l.
  assert (Hlen : Z.of_nat (length (replicate (Z.to_nat (2 ^ adc_bits_)) 0))
                 = 2 ^ adc_bits_).
  { rewrite length_replicate, Z2Nat.id; [reflexivity|]. apply Z.pow_nonneg. lia. }
  split; [exact Hlen|].
  unfold channel_baseline.update. cbn [channel_baseline.bins channel_baseline.update_bins].
  rewrite <- Hlen at 2. now rewrite update_sample_at_size.
Qed.

(** The bin vector after [start] for 14 bits. *)
Definition started_14 : channel_baseline.t :=
  {| channel_baseline.channel := 0;
     channel_baseline.adc_bits := 14;
     channel_baseline.noise_percent :=
       channel_baseline.noise_percent channel_baseline.new_default;
     channel_baseline.runs := 0;
     channel_baseline.baseline := -1;
     channel_baseline.bins := replicate (Z.to_nat 16384) 0 |}.

Lemma update_full_scale_sample_witness :
  Z.of_nat (length (channel_baseline.bins started_14)) = 16384
  ∧ channel_baseline.update [16384] started_14 = Fault.
Proof.
  apply (update_full_scale_sample 0 14 channel_baseline.new_default started_14).
  reflexivity.
Defined.

(** The histogram [update_bins] builds: every bin grows by the number of
    samples counted in it. *)
Lemma update_bins_histogram (trace : list Z) :
  ∀ bins_ bins',
    Forall (λ sample, 0 ≤ sample) trace →
    channel_baseline.update_bins bins_ trace = Return bins' →
    length bins' = length bins_
    ∧ ∀ i, bins' !! i
           = (λ n, n + count_bin (Z.of_nat (length bins_)) trace (Z.of_nat i))
             <$> bins_ !! i.
Proof.
  induction trace as [|sample trace IH]; intros bins_ bins' Hpos Hret.
  - injection Hret as <-. split; [reflexivity|]. intros i.
    destruct (bins_ !! i) as [n|]; simpl; [|reflexivity].
    unfold count_bin. simpl. f_equal. lia.
  - inversion Hpos as [|? ? Hs Hpos']; subst. rename Hpos' into Htail.
    simpl in Hret. apply bind_Return_inv in Hret as (bins1 & Hone & Hrest).
    apply update_sample_Return in Hone as (n & Hn & ->).
    apply IH in Hrest as [Hlen Hbins]; [|exact Htail].
    rewrite length_insert in Hlen, Hbins. split; [assumption|].
    intros i. rewrite Hbins, count_bin_cons.
    set (size := Z.of_nat (length bins_)) in *.
    assert (Hb : 0 ≤ binned size sample).
    { unfold binned. destruct (size <? sample); [|assumption].
      unfold cxx.as_uint16. apply Z.mod_pos_bound. lia. }
    destruct (decide (Z.to_nat (binned size sample) = i)) as [<-|Hne].
    + rewrite list_lookup_insert_eq by (eapply lookup_lt_Some; eassumption).
      rewrite Hn. simpl. rewrite Z2Nat.id by assumption.
      rewrite bool_decide_eq_true_2 by reflexivity. f_equal. lia.
    + rewrite list_lookup_insert_ne by assumption.
      rewrite bool_decide_eq_false_2 by lia.
      destruct (bins_ !! i); simpl; [f_equal; lia | reflexivity].
Qed.

(** ** [std::max_element] and the window of [end] *)

Lemma max_element_from_spec (l : list Z) :
  ∀ (p : list Z) (largest : nat) (v : Z),
    p !! largest = Some v →
    (∀ j x, p !! j = Some x → x ≤ v) →
    (∀ j x, p !! j = Some x → (j < largest)%nat → x < v) →
    let m := channel_baseline.max_element_from largest v (length p) l in
    ∃ c, (p ++ l) !! m = Some c
         ∧ (∀ j x, (p ++ l) !! j = Some x → x ≤ c)
         ∧ (∀ j x, (p ++ l) !! j = Some x → (j < m)%nat → x < c).
Proof.
  induction l as [|x l IH]; intros p largest v Hv Hmax Hfirst; simpl.
  - rewrite app_nil_r. eauto.
  - replace (p ++ x :: l) with ((p ++ [x]) ++ l) by (now rewrite <- app_assoc).
    replace (S (length p)) with (length (p ++ [x]))
      by (rewrite length_app; simpl; lia).
    destruct (Z.ltb_spec v x) as [Hlt|Hge].
    + apply IH.
      * now rewrite lookup_app_r, Nat.sub_diag by lia.
      * intros j y Hj. apply lookup_app_Some in Hj as [Hj|[_ Hj]].
        -- specialize (Hmax _ _ Hj). lia.
        -- destruct (j - length p)%nat; simpl in Hj; [|discriminate].
           injection Hj as <-. lia.
      * intros j y Hj Hlt'. rewrite lookup_app_l in Hj by assumption.
        specialize (Hmax _ _ Hj). lia.
    + apply IH.
      * rewrite lookup_app_l; [assumption|]. eapply lookup_lt_Some; eassumption.
      * intros j y Hj. apply lookup_app_Some in Hj as [Hj|[_ Hj]].
        -- eauto.
        -- destruct (j - length p)%nat; simpl in Hj; [|discriminate].
           injection Hj as <-. lia.
      * intros j y Hj Hlt'.
        assert (largest < length p)%nat by (eapply lookup_lt_Some; eassumption).
        rewrite lookup_app_l in Hj by lia. eauto.
Qed.

(** [max_element] returns the first position that holds the largest
    value. *)
Lemma max_element_spec (l : list Z) :
  l ≠ [] →
  ∃ c, l !! channel_baseline.max_element l = Some c
       ∧ (∀ j x, l !! j = Some x → x ≤ c)
       ∧ (∀ j x, l !! j = Some x → (j < channel_baseline.max_element l)%nat → x < c).
Proof.
  destruct l as [|x l]; [congruence|]. intros _. simpl.
  apply (max_element_from_spec l [x] 0%nat x).
  - reflexivity.
  - intros [|j] y Hj; simpl in Hj; [injection Hj as <-; lia | discriminate].
  - intros j y _ Hlt. lia.
Qed.

Lemma Zsum_cons (x : Z) (l : list Z) : Zsum (x :: l) = x + Zsum l.
Proof. reflexivity. Qed.

Lemma seqZ_S (b : Z) (n : nat) :
  seqZ b (Z.of_nat (S n)) = b :: seqZ (b + 1) (Z.of_nat n).
Proof.
  rewrite seqZ_cons by lia. f_equal. f_equal; lia.
Qed.

(** The loop of [end] adds up the window bin by bin. *)
Lemma end_loop_sums (bins_ : list Z) (n : nat) :
  ∀ b sum samples,
    channel_baseline.end_loop bins_ b n sum samples
    = (sum + Zsum ((λ i, i * default 0 (bins_ !! Z.to_nat i)) <$> seqZ b (Z.of_nat n)),
       samples + Zsum ((λ i, default 0 (bins_ !! Z.to_nat i)) <$> seqZ b (Z.of_nat n))).
Proof.
  induction n as [|n IH]; intros b sum samples.
  - simpl. f_equal; lia.
  - rewrite seqZ_S. simpl channel_baseline.end_loop. rewrite IH.
    rewrite !fmap_cons, !Zsum_cons. f_equal; lia.
Qed.

Lemma Zsum_ext (f g : Z → Z) (l : list Z) :
  (∀ x, x ∈ l → f x = g x) → Zsum (f <$> l) = Zsum (g <$> l).
Proof.
  induction l as [|x l IH]; intros Hfg; [reflexivity|].
  rewrite !fmap_cons, !Zsum_cons.
  rewrite Hfg by left. rewrite IH; [reflexivity|].
  intros y Hy. apply Hfg. now right.
Qed.

Lemma Zsum_nonneg (f : Z → Z) (l : list Z) :
  (∀ x, x ∈ l → 0 ≤ f x) → 0 ≤ Zsum (f <$> l).
Proof.
  induction l as [|x l IH]; intros Hf; [simpl; lia|].
  rewrite fmap_cons, Zsum_cons.
  pose proof (Hf x ltac:(left)).
  assert (0 ≤ Zsum (f <$> l)) by (apply IH; intros y Hy; apply Hf; now right).
  lia.
Qed.

Lemma Zsum_member_le (f : Z → Z) (l : list Z) (x : Z) :
  (∀ y, y ∈ l → 0 ≤ f y) → x ∈ l → f x ≤ Zsum (f <$> l).
Proof.
  induction l as [|y l IH]; intros Hf Hx; [inversion Hx|].
  rewrite fmap_cons, Zsum_cons. pose proof (Hf y ltac:(left)).
  assert (0 ≤ Zsum (f <$> l)) by (apply Zsum_nonneg; intros z Hz; apply Hf; now right).
  apply elem_of_cons in Hx as [->|Hx]; [lia|].
  assert (f x ≤ Zsum (f <$> l)) by (apply IH; [intros z Hz; apply Hf; now right|assumption]).
  lia.
Qed.

Lemma start_Return (channel_ adc_bits_ : Z) (self b0 : channel_baseline.t) :
  channel_baseline.start channel_ adc_bits_ self = Return b0 →
  0 ≤ adc_bits_ ≤ 30
  ∧ channel_baseline.adc_bits b0 = adc_bits_
  ∧ channel_baseline.noise_percent b0 = channel_baseline.noise_percent self
  ∧ channel_baseline.bins b0 = replicate (Z.to_nat (2 ^ adc_bits_)) 0.
Proof.
  unfold channel_baseline.start, cxx.shl1.
  destruct ((0 <=? adc_bits_) && (adc_bits_ <=? 30)) eqn:Hr; [|discriminate].
  apply andb_true_iff in Hr as [H0 H30]. apply Z.leb_le in H0, H30.
  simpl. intros [= <-]. simpl. rewrite Z.shiftl_1_l. auto.
Qed.

Lemma update_Return (trace : list Z) (b0 b1 : channel_baseline.t) :
  channel_baseline.update trace b0 = Return b1 →
  channel_baseline.update_bins (channel_baseline.bins b0) trace
  = Return (channel_baseline.bins b1)
  ∧ channel_baseline.adc_bits b1 = channel_baseline.adc_bits b0
  ∧ channel_baseline.noise_percent b1 = channel_baseline.noise_percent b0.
Proof.
  unfold channel_baseline.update. intros Hret.
  apply bind_Return_inv in Hret as (bins' & Hbins & Hret).
  injection Hret as <-. simpl. auto.
Qed.

(** C4 (as amended): for the histogram of a non-empty trace,
    [channel_baseline::end] returns, and the baseline it stores is the
    integer weighted mean of the bins [max(0, m-30) <= b < min(2^adc_bits,
    m+30)], where the trace was binned into [2^adc_bits] bins and [m] is
    the first bin with the largest count.  The upper bound of the window is
    exclusive. *)
Theorem end_is_weighted_mean_of_window
  (channel_ adc_bits_ : Z) (self b0 b1 : channel_baseline.t) (trace : list Z) :
  Forall (λ sample, 0 ≤ sample) trace →
  trace ≠ [] →
  channel_baseline.start channel_ adc_bits_ self = Return b0 →
  channel_baseline.update trace b0 = Return b1 →
  let size := 2 ^ adc_bits_ in
  let count := count_bin size trace in
  let m := Z.of_nat (channel_baseline.max_element (channel_baseline.bins b1)) in
  Z.of_nat (length (channel_baseline.bins b1)) = size
  ∧ (∀ b, 0 ≤ b < size → channel_baseline.bins b1 !! Z.to_nat b = Some (count b))
  ∧ 0 ≤ m < size
  ∧ (∀ b, 0 ≤ b < size → count b ≤ count m)
  ∧ (∀ b, 0 ≤ b < m → count b < count m)
  ∧ ∃ b2, channel_baseline.end_ b1 = Return b2
          ∧ channel_baseline.baseline b2
            = weighted_mean count (Z.max 0 (m - channel_baseline.noise_bins))
                (Z.min size (m + channel_baseline.noise_bins)).
Proof.
  intros Hpos Hne Hstart Hupdate size count m.
  apply start_Return in Hstart as (Hbits & _ & _ & Hbins0).
  apply update_Return in Hupdate as (Hub & _ & _).
  assert (Hsize : 0 < size) by (apply Z.pow_pos_nonneg; lia).
  pose proof (update_bins_histogram trace _ _ Hpos Hub) as [Hlen Hhist].
  rewrite Hbins0, length_replicate in Hlen.
  rewrite Hbins0, length_replicate, Z2Nat.id in Hhist by lia.
  fold size in Hlen, Hhist.
  assert (Hlen' : Z.of_nat (length (channel_baseline.bins b1)) = size) by lia.
  assert (Hlookup : ∀ b, 0 ≤ b < size →
            channel_baseline.bins b1 !! Z.to_nat b = Some (count b)).
  { intros b Hb. rewrite Hhist, lookup_replicate_2 by lia. simpl.
    rewrite Z2Nat.id by lia. reflexivity. }
  assert (Hnil : channel_baseline.bins b1 ≠ []).
  { intros Hnil. rewrite Hnil in Hlen. simpl in Hlen. lia. }
  destruct (max_element_spec _ Hnil) as (c & Hc & Hmax & Hfirst).
  fold size.
  assert (Hm : 0 ≤ m < size).
  { apply lookup_lt_Some in Hc. unfold m. lia. }
  assert (Hcm : c = count m).
  { pose proof (Hlookup m Hm) as Hl. unfold m in Hl at 1.
    rewrite Nat2Z.id in Hl. congruence. }
  assert (Hle : ∀ b, 0 ≤ b < size → count b ≤ count m).
  { intros b Hb. rewrite <- Hcm. eapply Hmax, Hlookup, Hb. }
  assert (Hlt : ∀ b, 0 ≤ b < m → count b < count m).
  { intros b Hb. rewrite <- Hcm. eapply Hfirst; [apply Hlookup; lia|]. unfold m in Hb. lia. }
  assert (Hone : 1 ≤ count m).
  { destruct trace as [|s0 trace']; [congruence|].
    simpl in Hub. apply bind_Return_inv in Hub as (bins1 & Hs0 & _).
    apply update_sample_Return in Hs0 as (n & Hn & _).
    rewrite Hbins0, length_replicate, Z2Nat.id in Hn by lia. fold size in Hn.
    apply lookup_lt_Some in Hn. rewrite length_replicate in Hn.
    inversion Hpos as [|? ? Hs0 _]; subst.
    assert (Hb0 : 0 ≤ binned size s0).
    { unfold binned. destruct (size <? s0); [|assumption].
      unfold cxx.as_uint16. apply Z.mod_pos_bound. lia. }
    assert (Hin : 0 ≤ binned size s0 < size) by lia.
    specialize (Hle _ Hin).
    assert (1 ≤ count (binned size s0)); [|lia].
    unfold count. rewrite count_bin_cons, bool_decide_eq_true_2 by reflexivity.
    pose proof (count_bin_nonneg size trace' (binned size s0)). lia. }
  split; [exact Hlen'|]. split; [exact Hlookup|]. split; [exact Hm|].
  split; [exact Hle|]. split; [exact Hlt|].
  unfold channel_baseline.end_. fold m. rewrite end_loop_sums.
  set (from_bin := Z.max (m - channel_baseline.noise_bins) 0).
  set (to_bin := Z.min (m + channel_baseline.noise_bins)
                   (Z.of_nat (length (channel_baseline.bins b1)))).
  assert (Hwin : 0 ≤ from_bin ≤ m ∧ m < to_bin ≤ size).
  { unfold from_bin, to_bin, channel_baseline.noise_bins. rewrite Hlen'. lia. }
  rewrite Z2Nat.id by lia.
  set (window := seqZ from_bin (to_bin - from_bin)).
  assert (Hmem : ∀ b, b ∈ window → 0 ≤ b < size).
  { intros b Hb. apply elem_of_seqZ in Hb. lia. }
  rewrite (Zsum_ext (λ i, i * default 0 (channel_baseline.bins b1 !! Z.to_nat i))
             (λ b, b * count b) window)
    by (intros b Hb; cbv beta; rewrite (Hlookup b (Hmem b Hb)); reflexivity).
  rewrite (Zsum_ext (λ i, default 0 (channel_baseline.bins b1 !! Z.to_nat i))
             count window)
    by (intros b Hb; cbv beta; rewrite (Hlookup b (Hmem b Hb)); reflexivity).
  rewrite !Z.add_0_l.
  assert (Hsamples : 1 ≤ Zsum (count <$> window)).
  { etransitivity; [exact Hone|]. apply Zsum_member_le.
    - intros; apply count_bin_nonneg.
    - apply elem_of_seqZ. lia. }
  destruct (Z.eqb_spec (Zsum (count <$> window)) 0) as [Hz|_]; [lia|].
  eexists. split; [reflexivity|]. simpl.
  unfold weighted_mean.
  replace (Z.max 0 (m - channel_baseline.noise_bins)) with from_bin
    by (unfold from_bin; lia).
  replace (Z.min size (m + channel_baseline.noise_bins)) with to_bin
    by (unfold to_bin; rewrite Hlen'; lia).
  fold window. apply Z.quot_div_nonneg; [|lia].
  apply Zsum_nonneg. intros b Hb. specialize (Hmem b Hb).
  assert (0 ≤ count b) by apply count_bin_nonneg. nia.
Qed.

(** A 6 bit histogram: two samples in bin 0, one in bin 30. *)
Definition start_example : channel_baseline.t :=
  {| channel_baseline.channel := 0;
     channel_baseline.adc_bits := 6;
     channel_baseline.noise_percent :=
       channel_baseline.noise_percent channel_baseline.new_default;
     channel_baseline.runs := 0;
     channel_baseline.baseline := -1;
     channel_baseline.bins := replicate 64 0 |}.

Definition histogram_example : channel_baseline.t :=
  {| channel_baseline.channel := 0;
     channel_baseline.adc_bits := 6;
     channel_baseline.noise_percent :=
       channel_baseline.noise_percent channel_baseline.new_default;
     channel_baseline.runs := 1;
     channel_baseline.baseline := -1;
     channel_baseline.bins := <[30%nat := 1]> (<[0%nat := 2]> (replicate 64 0)) |}.

Lemma end_is_weighted_mean_of_window_witness :
  ∃ b2, channel_baseline.end_ histogram_example = Return b2
        ∧ channel_baseline.baseline b2
          = weighted_mean (count_bin 64 [0; 0; 30]) 0 30.
Proof.
  destruct (end_is_weighted_mean_of_window 0 6 channel_baseline.new_default
              start_example histogram_example [0; 0; 30])
    as (_ & _ & _ & _ & _ & b2 & Hend & Hbase).
  - repeat constructor; lia.
  - discriminate.
  - reflexivity.
  - reflexivity.
  - exists b2. split; [exact Hend | exact Hbase].
Defined.

(** The claim with the closed range
    [max(0, m-30) .. min(2^adc_bits, m+30)], for one analysed trace. *)
Definition closed_window_claim (adc_bits_ : Z) (trace : list Z)
  (b : channel_baseline.t) : Prop :=
  let m := Z.of_nat (channel_baseline.max_element (channel_baseline.bins b)) in
  channel_baseline.baseline b
  = closed_weighted_mean (count_bin (2 ^ adc_bits_) trace)
      (Z.max 0 (m - channel_baseline.noise_bins))
      (Z.min (2 ^ adc_bits_) (m + channel_baseline.noise_bins)).

Definition analyzed_example : channel_baseline.t :=
  {| channel_baseline.channel := 0;
     channel_baseline.adc_bits := 6;
     channel_baseline.noise_percent :=
       channel_baseline.noise_percent channel_baseline.new_default;
     channel_baseline.runs := 1;
     channel_baseline.baseline := 0;
     channel_baseline.bins := <[30%nat := 1]> (<[0%nat := 2]> (replicate 64 0)) |}.

(** C4 (as stated): the weighted mean over the closed range is not what
    [end] computes.  For the 6 bit trace 0, 0, 30 the peak is bin 0; [end]
    leaves bin 30 out and gives 0, the closed range gives 10. *)
Lemma end_closed_window_counterexample :
  ¬ (∀ (adc_bits_ : Z) (trace : list Z) (b : channel_baseline.t),
       analyze_channel 0 adc_bits_ trace = Return b →
       closed_window_claim adc_bits_ trace b).
Proof.
  intros Hclaim.
  assert (Hb : analyze_channel 0 6 [0; 0; 30] = Return analyzed_example)
    by (vm_compute; reflexivity).
  apply Hclaim in Hb. revert Hb. vm_compute. discriminate.
Qed.

(** ** [db04::set_dac] *)

(** The DAC output of a channel offset, as the specification tabulates
    it. *)
Definition sigma (offset : Z) : option Z :=
  match offset with
  | 0 | 4 => Some 1
  | 1 | 5 => Some 2
  | 2 | 6 => Some 0
  | 3 | 7 => Some 3
  | _ => None
  end.

Lemma sigma_Some (offset s : Z) :
  sigma offset = Some s →
  0 ≤ offset ≤ 7 ∧ 0 ≤ s ≤ 3 ∧ db04.dac_output offset = s.
Proof.
  destruct offset as [|p|p]; simpl; try discriminate.
  - intros [= <-]. lia.
  - repeat (match goal with
            | q : positive |- _ => destruct q; simpl; try discriminate
            end);
      intros [= <-]; lia.
Qed.

(** C6: [set_dac] throws [invalid_value] for a value above 65535;
    otherwise it selects port [number + 1], writes the word
    [(addr << 24) | (ctrl << 16) | value] to [CFG_DAC], a word of 32 bits,
    with [addr = 0x20 | (offset < 4 ? 2 : 0)] and [ctrl = 0x30 + sigma
    offset], and then waits 6000 microseconds. *)
Theorem set_dac_command_word (self : db.t) (value s : Z) :
  0 ≤ value < 2 ^ 32 →
  sigma (db.offset self) = Some s →
  let addr := Z.lor 0x20 (if db.offset self <? 4 then 2 else 0) in
  let ctrl := 0x30 + s in
  let dac := Z.lor (Z.lor (Z.shiftl addr 24) (Z.shiftl ctrl 16)) value in
  (65535 < value → db04.set_dac value self = Throw error.invalid_value)
  ∧ (value ≤ 65535 →
     db04.set_dac value self
     = Return [hw.select_port (db.number self + 1);
               hw.write_word hw.CFG_DAC dac;
               hw.wait 6000]
     ∧ 0 ≤ dac < 2 ^ 32).
Proof.
  intros Hvalue Hsigma addr ctrl dac.
  apply sigma_Some in Hsigma as (Hoffset & Hs & Hout).
  unfold db04.set_dac. split.
  - intros Hbig. now rewrite (proj2 (Z.ltb_lt 65535 value)) by lia.
  - intros Hsmall. rewrite (proj2 (Z.ltb_ge 65535 value)) by lia.
    rewrite Hout. fold ctrl.
    assert (Hctrl : cxx.as_uint32 ctrl = ctrl).
    { unfold cxx.as_uint32, ctrl. apply Z.mod_small. lia. }
    rewrite Hctrl.
    assert (Haddr : Z.lor 32 (Z.shiftl (if db.offset self <? 4 then 1 else 0) 1) = addr).
    { unfold addr. now destruct (db.offset self <? 4). }
    rewrite Haddr.
    assert (Hhigh : 0 ≤ Z.lor (Z.shiftl addr 24) (Z.shiftl ctrl 16) < 2 ^ 32
                    ∧ cxx.as_uint32 (Z.shiftl addr 24) = Z.shiftl addr 24
                    ∧ cxx.as_uint32 (Z.shiftl ctrl 16) = Z.shiftl ctrl 16).
    { unfold addr, ctrl, cxx.as_uint32.
      assert (Hcases : s = 0 ∨ s = 1 ∨ s = 2 ∨ s = 3) by lia.
      destruct (db.offset self <? 4);
        destruct Hcases as [->|[->|[->| ->]]]; vm_compute; intuition congruence. }
    destruct Hhigh as (Hhigh & -> & ->). split; [reflexivity|].
    fold dac. unfold dac.
    set (high := Z.lor (Z.shiftl addr 24) (Z.shiftl ctrl 16)) in *.
    split; [apply Z.lor_nonneg; lia|].
    destruct (Z.eq_dec (Z.lor high value) 0) as [->|Hnz]; [lia|].
    assert (0 ≤ Z.lor high value) by (apply Z.lor_nonneg; lia).
    apply Z.log2_lt_pow2; [lia|].
    rewrite Z.log2_lor by lia.
    destruct (Z.eq_dec high 0) as [Hh0|Hh0];
      destruct (Z.eq_dec value 0) as [Hv0|Hv0]; subst; simpl Z.log2;
      try (assert (Z.log2 high < 32) by (apply Z.log2_lt_pow2; lia));
      try (assert (Z.log2 value < 32) by (apply Z.log2_lt_pow2; lia));
      try rewrite Hh0; simpl; lia.
Qed.

Lemma set_dac_command_word_witness :
  db04.set_dac 0x8000 {| db.number := 1; db.base := 8; db.offset := 5;
                         db.adc_state := db.adc_boot_state |}
  = Return [hw.select_port 2; hw.write_word hw.CFG_DAC 0x20328000; hw.wait 6000].
Proof.
  apply (set_dac_command_word
           {| db.number := 1; db.base := 8; db.offset := 5;
              db.adc_state := db.adc_boot_state |} 0x8000 2).
  - vm_compute. split; [discriminate | reflexivity].
  - reflexivity.
  - vm_compute. discriminate.
Defined.

(** ** The crate *)

Section crate_facts.
Context `{crate.collaborators}.

(** The codes the [close] calls of [shutdown] throw, in module order. *)
Definition thrown_by_close (mods : list module.t) : list error.code :=
  omap (λ m, match snd (crate.module_close m) with
             | Throw e => Some e
             | _ => None
             end) mods.

(** The handler of [shutdown] overwrites [first_error] on every failure:
    what is left after the loop is the code of the last [close] that
    threw. *)
Lemma close_all_keeps_last (mods : list module.t) :
  ∀ first_error,
    Forall (λ m, snd (crate.module_close m) ≠ Fault) mods →
    snd (crate.close_all mods first_error)
    = Some (default first_error (last (thrown_by_close mods))).
Proof.
  induction mods as [|m mods IH]; intros first_error Hok; [reflexivity|].
  inversion Hok as [|? ? Hm Hrest]; subst.
  simpl. unfold thrown_by_close. simpl.
  destruct (crate.module_close m) as [m' [[]|e|]] eqn:Hclose; simpl in *.
  - specialize (IH first_error Hrest).
    destruct (crate.close_all mods first_error) as [rest' r]. exact IH.
  - specialize (IH e Hrest).
    destruct (crate.close_all mods e) as [rest' r]. simpl in *.
    rewrite IH. fold (thrown_by_close mods).
    destruct (thrown_by_close mods) as [|e' l] eqn:Hl; [reflexivity|].
    rewrite last_cons_cons.
    destruct (last (e' :: l)) eqn:Hlast; [reflexivity|].
    apply last_None in Hlast. discriminate.
  - congruence.
Qed.

Lemma shutdown_outcome (self : crate.t) :
  Forall (λ m, snd (crate.module_close m) ≠ Fault) (crate.modules self) →
  snd (crate.shutdown self)
  = match last (thrown_by_close (crate.modules self)) with
    | Some e => if error.code_eqb e error.success then Return tt else Throw e
    | None => Return tt
    end.
Proof.
  intros Hok. unfold crate.shutdown.
  pose proof (close_all_keeps_last _ error.success Hok) as Hlast.
  destruct (crate.close_all (crate.modules self) error.success) as [mods' r].
  simpl in Hlast. subst r.
  destruct (last (thrown_by_close (crate.modules self))) as [e|]; simpl.
  - now destruct (error.code_eqb e error.success).
  - reflexivity.
Qed.

(** [probe] and [initialize_afe] start with [ready()], and so does [boot]
    once it has accepted the module numbers. *)
Lemma entrypoints_check_ready (self : crate.t) :
  crate.ready_ self = false →
  snd (crate.probe self) = Throw error.crate_not_ready
  ∧ snd (crate.initialize_afe self) = Throw error.crate_not_ready
  ∧ ∀ params mod_nums,
      crate.boot_mod_nums params self = Return mod_nums →
      snd (crate.boot params self) = Throw error.crate_not_ready.
Proof.
  intros Hready.
  unfold crate.probe, crate.initialize_afe, crate.boot, crate.ready.
  rewrite Hready. repeat split.
  intros params mod_nums ->. reflexivity.
Qed.

(** [boot] looks at the module numbers before it looks at the ready
    flag. *)
Lemma boot_checks_numbers_first (bp : crate.backplane) (params : crate.boot_params)
  (mod_num : Z) (rest : list Z) :
  0 ≤ mod_num →
  crate.boot_modules params = mod_num :: rest →
  snd (crate.boot params (crate.new bp)) = Throw error.module_number_invalid.
Proof.
  intros Hpos Hmods. unfold crate.boot, crate.boot_mod_nums.
  rewrite Hmods. cbv zeta. cbn [forallb].
  assert (Hbad : (mod_num <? Z.of_nat (length (crate.modules (crate.new bp)))) = false)
    by (apply Z.ltb_ge; simpl; lia).
  now rewrite Hbad.
Qed.

(** C7 (the code differs): [export_config] does not call [ready()].  On a
    crate that was never initialised, where [ready()] throws
    [crate_not_ready], it goes on to export the empty module list and
    returns, or fails with [file_open_failure] when the file cannot be
    opened. *)
Theorem export_config_does_not_check_ready (bp : crate.backplane)
  (json_file : string) :
  crate.ready (crate.new bp) = Throw error.crate_not_ready
  ∧ snd (crate.export_config json_file (crate.new bp))
    = (if crate.file_opens json_file then Return []
       else Throw error.file_open_failure)
  ∧ snd (crate.export_config json_file (crate.new bp))
    ≠ Throw error.crate_not_ready.
Proof.
  split; [reflexivity|].
  unfold crate.export_config, crate.export_json. simpl.
  split; [reflexivity|].
  destruct (crate.file_opens json_file); discriminate.
Qed.

(** *** Workers *)

(** The module numbers that get a worker: those of [mod_nums] whose
    module is not skipped, in order. *)
Definition targets (skip : module.t → bool) (mods : list module.t)
  (mod_nums : list Z) : list nat :=
  omap (λ mod_num,
          m ← mods !! Z.to_nat mod_num;
          if skip m then None else Some (Z.to_nat mod_num)) mod_nums.

(** The code a worker reports for the result of its module call. *)
Definition code_of (r : outcome unit) : error.code :=
  match r with
  | Throw e => e
  | _ => error.success
  end.

(** The first code of a list that is not [success]. *)
Fixpoint first_error (codes : list error.code) : option error.code :=
  match codes with
  | [] => None
  | e :: rest => if error.code_eqb e error.success then first_error rest else Some e
  end.

Lemma omap_ext_in {A B} (f g : A → option B) (l : list A) :
  (∀ x, x ∈ l → f x = g x) → omap f l = omap g l.
Proof.
  induction l as [|x l IH]; intros Hfg; [reflexivity|].
  csimpl. rewrite (Hfg x) by left. rewrite IH; [reflexivity|].
  intros y Hy. apply Hfg. now right.
Qed.

Lemma targets_elem (skip : module.t → bool) (mods : list module.t)
  (mod_nums : list Z) (n : nat) :
  n ∈ targets skip mods mod_nums → n ∈ Z.to_nat <$> mod_nums.
Proof.
  unfold targets. rewrite list_elem_of_omap, list_elem_of_fmap.
  intros (mod_num & Hin & Hsome). exists mod_num. split; [|assumption].
  destruct (mods !! Z.to_nat mod_num) as [m|]; simpl in Hsome; [|discriminate].
  destruct (skip m); congruence.
Qed.

Lemma targets_NoDup (skip : module.t → bool) (mods : list module.t)
  (mod_nums : list Z) :
  NoDup (Z.to_nat <$> mod_nums) → NoDup (targets skip mods mod_nums).
Proof.
  induction mod_nums as [|mod_num rest IH]; intros Hnd; [constructor|].
  rewrite fmap_cons in Hnd. apply NoDup_cons in Hnd as [Hnotin Hnd].
  unfold targets. simpl. fold (targets skip mods rest).
  destruct (mods !! Z.to_nat mod_num) as [m|]; simpl; [|auto].
  destruct (skip m); [auto|].
  apply NoDup_cons. split; [|auto].
  intros Hin. apply Hnotin. eapply targets_elem, Hin.
Qed.

(** The thread loop creates one worker per target, in order. *)
Lemma spawn_targets (skip : module.t → bool) (mods : list module.t)
  (mod_nums : list Z) :
  ∀ spawned,
    NoDup (Z.to_nat <$> mod_nums) →
    Forall (λ mod_num, (Z.to_nat mod_num < length mods)%nat) mod_nums →
    (∀ mod_num, mod_num ∈ mod_nums → Z.to_nat mod_num ∉ spawned) →
    crate.spawn skip mods mod_nums spawned
    = Some (spawned ++ targets skip mods mod_nums).
Proof.
  induction mod_nums as [|mod_num rest IH]; intros spawned Hnd Hrange Hfresh.
  - simpl. now rewrite app_nil_r.
  - rewrite fmap_cons in Hnd. apply NoDup_cons in Hnd as [Hnotin Hnd].
    inversion Hrange as [|? ? Hlt Hrange']; subst.
    apply lookup_lt_is_Some_2 in Hlt as [m Hm].
    unfold targets. simpl. fold (targets skip mods rest). rewrite Hm. simpl.
    rewrite bool_decide_eq_false_2 by (apply Hfresh; left).
    destruct (skip m).
    + apply IH; [assumption..|]. intros k Hk. apply Hfresh. now right.
    + rewrite IH; [now rewrite <- app_assoc|assumption..|].
      intros k Hk Hin. apply elem_of_app in Hin as [Hin|Hin].
      * eapply Hfresh; [right; exact Hk | exact Hin].
      * apply list_elem_of_singleton in Hin. apply Hnotin.
        rewrite <- Hin. now apply list_elem_of_fmap_2.
Qed.

(** Every worker runs on the module as it was before the threads
    started, and leaves its own module changed and the others alone. *)
Lemma run_workers_spec (work : module.t → module.t * outcome unit)
  (spawned : list nat) :
  ∀ mods,
    NoDup spawned →
    snd (crate.run_workers work spawned mods)
    = omap (λ n, (λ m, snd (crate.worker work m)) <$> mods !! n) spawned
    ∧ ∀ i, fst (crate.run_workers work spawned mods) !! i
           = if bool_decide (i ∈ spawned)
             then (λ m, fst (work m)) <$> mods !! i
             else mods !! i.
Proof.
  induction spawned as [|n rest IH]; intros mods Hnd.
  - split; [reflexivity|]. intros i.
    now rewrite bool_decide_eq_false_2 by apply not_elem_of_nil.
  - apply NoDup_cons in Hnd as [Hnotin Hnd].
    cbn [crate.run_workers]. csimpl.
    destruct (mods !! n) as [m|] eqn:Hm; cbn [fmap option_fmap option_map].
    + destruct (crate.worker work m) as [m' p] eqn:Hw.
      specialize (IH (<[n := m']> mods) Hnd) as [Hps Hmods].
      destruct (crate.run_workers work rest (<[n := m']> mods)) as [mods' ps].
      cbn [fst snd] in *. split.
      * rewrite Hps. f_equal. apply omap_ext_in. intros k Hk.
        rewrite list_lookup_insert_ne; [reflexivity|]. intros ->. contradiction.
      * intros i. rewrite Hmods.
        assert (Hfst : fst (work m) = m').
        { unfold crate.worker in Hw. destruct (work m) as [m1 [[]| |]];
            injection Hw as <- _; reflexivity. }
        destruct (decide (i = n)) as [->|Hne].
        -- rewrite bool_decide_eq_false_2 by assumption.
           rewrite bool_decide_eq_true_2 by left.
           rewrite list_lookup_insert_eq by (eapply lookup_lt_Some; eassumption).
           rewrite Hm. simpl. now rewrite Hfst.
        -- rewrite list_lookup_insert_ne by congruence.
           destruct (decide (i ∈ rest)) as [Hin|Hout].
           ++ rewrite !bool_decide_eq_true_2; [reflexivity|now right|assumption].
           ++ rewrite !bool_decide_eq_false_2; [reflexivity| |assumption].
              intros Hin. apply elem_of_cons in Hin as [?|?]; contradiction.
    + specialize (IH mods Hnd) as [Hps Hmods]. split; [assumption|].
      intros i. rewrite Hmods.
      destruct (decide (i = n)) as [->|Hne].
      * rewrite Hm. simpl.
        destruct (bool_decide (n ∈ rest)); rewrite bool_decide_eq_true_2 by left;
          reflexivity.
      * destruct (decide (i ∈ rest)) as [Hin|Hout].
        -- rewrite !bool_decide_eq_true_2; [reflexivity|now right|assumption].
        -- rewrite !bool_decide_eq_false_2; [reflexivity| |assumption].
           intros Hin. apply elem_of_cons in Hin as [?|?]; contradiction.
Qed.

(** The join loop keeps the first code that is not [success]. *)
Lemma join_first_error (codes : list error.code) :
  ∀ e0,
    crate.join (crate.value <$> codes) e0
    = Return (if error.code_eqb e0 error.success
              then default error.success (first_error codes)
              else e0).
Proof.
  induction codes as [|e codes IH]; intros e0; simpl.
  - now destruct (error.code_eqb e0 error.success) eqn:He0;
      [apply code_eqb_eq in He0 as ->|].
  - rewrite IH. destruct (error.code_eqb e0 error.success) eqn:He0.
    + destruct (error.code_eqb e error.success) eqn:He; [reflexivity|].
      reflexivity.
    + now rewrite He0.
Qed.

Lemma first_error_not_success (codes : list error.code) (e : error.code) :
  first_error codes = Some e → e ≠ error.success.
Proof.
  induction codes as [|e' codes IH]; simpl; [discriminate|].
  destruct (error.code_eqb e' error.success) eqn:He; [assumption|].
  intros [= <-]. now apply code_eqb_neq.
Qed.

Lemma boot_mod_nums_valid (params : crate.boot_params) (self : crate.t)
  (mod_nums : list Z) :
  crate.boot_mod_nums params self = Return mod_nums →
  NoDup (crate.boot_modules params) →
  Forall (λ mod_num, 0 ≤ mod_num) (crate.boot_modules params) →
  NoDup (Z.to_nat <$> mod_nums)
  ∧ Forall (λ mod_num, (Z.to_nat mod_num < length (crate.modules self))%nat) mod_nums.
Proof.
  unfold crate.boot_mod_nums. intros Hret Hnd Hpos.
  assert (Hall : NoDup mod_nums
                 ∧ Forall (λ n, 0 ≤ n < Z.of_nat (length (crate.modules self))) mod_nums).
  { destruct (crate.boot_modules params) as [|n l] eqn:Hm.
    - injection Hret as <-. split; [apply NoDup_seqZ|].
      apply Forall_forall. intros x Hx. apply elem_of_seqZ in Hx. lia.
    - destruct (forallb _ (n :: l)) eqn:Hf; [|discriminate].
      injection Hret as <-. split; [assumption|].
      rewrite forallb_forall in Hf. rewrite Forall_forall in Hpos.
      apply Forall_forall. intros x Hx. split; [now apply Hpos|].
      apply Z.ltb_lt, Hf, list_elem_of_In, Hx. }
  destruct Hall as [Hnd' Hrange]. rewrite Forall_forall in Hrange. split.
  - apply NoDup_fmap_2_strong; [|assumption].
    intros x y Hx Hy Heq. pose proof (Hrange x Hx). pose proof (Hrange y Hy). lia.
  - apply Forall_forall. intros x Hx. pose proof (Hrange x Hx). lia.
Qed.

Lemma promises_of_workers (work : module.t → module.t * outcome unit)
  (mods : list module.t) (workers : list nat) :
  (∀ n m, n ∈ workers → mods !! n = Some m → snd (work m) ≠ Fault) →
  omap (λ n, (λ m, snd (crate.worker work m)) <$> mods !! n) workers
  = crate.value
    <$> omap (λ n, (λ m, code_of (snd (work m))) <$> mods !! n) workers.
Proof.
  induction workers as [|n workers IH]; intros Hok; [reflexivity|].
  csimpl. rewrite IH by (intros k m Hk; apply Hok; now right).
  destruct (mods !! n) as [m|] eqn:Hm; csimpl; [|reflexivity].
  specialize (Hok n m ltac:(left) Hm). unfold crate.worker.
  destruct (work m) as [m' [[]|e|]]; simpl in *; congruence.
Qed.

(** What [boot] does with the workers' reports, for any collaborators:
    the first code other than [success] is thrown, and
    [crate.reinit_backplane] is applied only when there is none. *)
Lemma boot_outcome (params : crate.boot_params) (self : crate.t)
  (mod_nums : list Z) :
  crate.ready_ self = true →
  crate.boot_mod_nums params self = Return mod_nums →
  NoDup (crate.boot_modules params) →
  Forall (λ mod_num, 0 ≤ mod_num) (crate.boot_modules params) →
  let work := crate.module_boot (crate.boot_comms params)
                (crate.boot_fippi params) (crate.boot_dsp params) in
  let workers := targets (crate.boot_skip params) (crate.modules self) mod_nums in
  (∀ n m, n ∈ workers → crate.modules self !! n = Some m → snd (work m) ≠ Fault) →
  let codes :=
    omap (λ n, (λ m, code_of (snd (work m))) <$> crate.modules self !! n) workers in
  let self' := fst (crate.boot params self) in
  (∀ i, crate.modules self' !! i
        = if bool_decide (i ∈ workers)
          then (λ m, fst (work m)) <$> crate.modules self !! i
          else crate.modules self !! i)
  ∧ crate.offline self' = crate.offline self
  ∧ match first_error codes with
    | Some e =>
        snd (crate.boot params self) = Throw e
        ∧ crate.the_backplane self' = crate.the_backplane self
    | None =>
        snd (crate.boot params self) = Return tt
        ∧ crate.the_backplane self'
          = crate.backplane_reinit (crate.modules self') (crate.offline self')
              (crate.the_backplane self)
    end.
Proof.
  intros Hready Hnums Hnd Hpos work workers Hok codes self'.
  destruct (boot_mod_nums_valid _ _ _ Hnums Hnd Hpos) as [Hnd' Hrange].
  assert (Hspawn : crate.spawn (crate.boot_skip params) (crate.modules self) mod_nums []
                   = Some workers).
  { rewrite spawn_targets; [reflexivity|assumption..|].
    intros k _. apply not_elem_of_nil. }
  pose proof (run_workers_spec work workers (crate.modules self)
                (targets_NoDup _ _ _ Hnd')) as [Hps Hmods].
  rewrite (promises_of_workers _ _ _ Hok) in Hps. fold codes in Hps.
  unfold self', crate.boot. rewrite Hnums. unfold crate.ready. rewrite Hready.
  rewrite Hspawn. fold work.
  destruct (crate.run_workers work workers (crate.modules self)) as [mods' futures].
  cbn [fst snd] in Hps, Hmods. subst futures.
  rewrite join_first_error.
  change (error.code_eqb error.success error.success) with true. cbv iota.
  destruct (first_error codes) as [e|] eqn:Hfirst; cbn [default]; unfold id.
  - apply first_error_not_success, code_eqb_neq in Hfirst. rewrite Hfirst.
    cbn [fst snd]. auto.
  - change (error.code_eqb error.success error.success) with true.
    cbn [fst snd]. auto.
Qed.

End crate_facts.

(** A crate whose modules follow a script: [close] and [boot] of the
    module in a slot do what the script says for the slot, and a [boot]
    that returns leaves the module online.  The backplane records the slots
    of the online and offline lists it was last initialised with. *)
Definition set_online (b : bool) (m : module.t) : module.t :=
  {| module.slot := module.slot m; module.number := module.number m;
     module.revision := module.revision m; module.online := b;
     module.present := module.present m |}.

Definition scripted (close_ boot_ : Z → outcome unit) : crate.collaborators :=
  {| crate.backplane := list Z * list Z;
     crate.backplane_reinit := λ online offline _,
       (module.slot <$> online, module.slot <$> offline);
     crate.module_close := λ m, (set_online false m, close_ (module.slot m));
     crate.module_probe := λ m, (m, Return tt);
     crate.module_boot := λ _ _ _ m,
       match boot_ (module.slot m) with
       | Return _ => (set_online true m, Return tt)
       | r => (m, r)
       end;
     crate.module_sync_hw := λ m, (m, Return tt);
     crate.module_sync_vars := λ m, (m, Return tt);
     crate.module_config := Z;
     crate.module_export := λ m, (m, Return (module.slot m));
     crate.file_opens := λ _, true |}.

(** Two revision F modules in slots 2 and 5; the one in slot 5 fails. *)
Definition slot5_fails (slot : Z) : outcome unit :=
  if slot =? 5 then Throw error.module_initialize_failure else Return tt.

Definition both_fail (slot : Z) : outcome unit :=
  if slot =? 2 then Throw error.module_offline
  else Throw error.device_hw_failure.

Definition module_in_slot (slot_ number_ : Z) : module.t :=
  {| module.slot := slot_; module.number := number_; module.revision := 15;
     module.online := false; module.present := true |}.

Definition crate_example `{crate.collaborators} (bp : crate.backplane) : crate.t :=
  {| crate.num_modules := 2; crate.revision := 0; crate.the_backplane := bp;
     crate.modules := [module_in_slot 2 0; module_in_slot 5 1];
     crate.offline := []; crate.ready_ := true; crate.users_ := 0 |}.

(** C2 (as amended): [boot] creates one worker per target module, in
    order, and joins them all.  Every target module is left as its own
    [module::boot] left it.  When a worker reported a code other than
    [success], the call throws the first such code, in thread order, and
    [boot] has not called [backplane.reinit]; only when all workers
    reported [success] does it call [backplane.reinit], once, with the
    resulting online list and the offline list. *)
Theorem boot_reports_first_error (base : crate.collaborators)
  (params : crate.boot_params) (self : @crate.t (crate.logged base))
  (mod_nums : list Z) :
  crate.ready_ self = true →
  crate.boot_mod_nums params self = Return mod_nums →
  NoDup (crate.boot_modules params) →
  Forall (λ mod_num, 0 ≤ mod_num) (crate.boot_modules params) →
  let work := @crate.module_boot base (crate.boot_comms params)
                (crate.boot_fippi params) (crate.boot_dsp params) in
  let workers := targets (crate.boot_skip params) (crate.modules self) mod_nums in
  (∀ n m, n ∈ workers → crate.modules self !! n = Some m → snd (work m) ≠ Fault) →
  let codes :=
    omap (λ n, (λ m, code_of (snd (work m))) <$> crate.modules self !! n) workers in
  let self' := fst (crate.boot params self) in
  (∀ i, crate.modules self' !! i
        = if bool_decide (i ∈ workers)
          then (λ m, fst (work m)) <$> crate.modules self !! i
          else crate.modules self !! i)
  ∧ match first_error codes with
    | Some e =>
        snd (crate.boot params self) = Throw e
        ∧ crate.reinit_calls self' = crate.reinit_calls self
    | None =>
        snd (crate.boot params self) = Return tt
        ∧ crate.reinit_calls self'
          = crate.reinit_calls self ++ [(crate.modules self', crate.offline self)]
    end.
Proof.
  intros Hready Hnums Hnd Hpos work workers Hok codes self'.
  pose proof (@boot_outcome (crate.logged base) params self mod_nums
                Hready Hnums Hnd Hpos Hok) as Hboot.
  cbv zeta in Hboot. destruct Hboot as (Hmods & Hoffline & Hresult).
  split; [exact Hmods|].
  change (@crate.module_boot (crate.logged base)) with (@crate.module_boot base)
    in Hresult.
  fold work in Hresult. fold workers in Hresult. fold codes in Hresult.
  fold self' in Hresult, Hoffline.
  destruct (first_error codes) as [e|].
  - exact Hresult.
  - destruct Hresult as [Hret Hbp]. split; [exact Hret|].
    unfold crate.reinit_calls. rewrite Hbp, Hoffline. reflexivity.
Qed.

(** The crate above when no [backplane.reinit] has been made yet. *)
Definition logged_example (close_ boot_ : Z → outcome unit)
  : @crate.t (crate.logged (scripted close_ boot_)) :=
  @crate_example (crate.logged (scripted close_ boot_)) [].

Definition all_boot (slot : Z) : outcome unit := Return tt.

Lemma boot_reports_first_error_witness :
  (let result := crate.boot crate.default_boot_params
                   (logged_example both_fail slot5_fails) in
   snd result = Throw error.module_initialize_failure
   ∧ crate.reinit_calls (fst result) = [])
  ∧ (let result := crate.boot crate.default_boot_params
                     (logged_example both_fail all_boot) in
     snd result = Return tt
     ∧ crate.reinit_calls (fst result)
       = [([set_online true (module_in_slot 2 0);
            set_online true (module_in_slot 5 1)], [])]).
Proof.
  split.
  - pose proof (boot_reports_first_error (scripted both_fail slot5_fails)
                  crate.default_boot_params (logged_example both_fail slot5_fails)
                  [0; 1] eq_refl eq_refl (NoDup_nil_2) (Forall_nil_2 _)) as Hboot.
    cbv zeta in Hboot. destruct Hboot as (_ & Hresult).
    + intros n m Hn Hm.
      assert (Hcases : n = 0%nat ∨ n = 1%nat).
      { vm_compute in Hn. apply elem_of_cons in Hn as [->|Hn]; [auto|].
        apply list_elem_of_singleton in Hn as ->. auto. }
      destruct Hcases as [-> | ->]; injection Hm as <-; discriminate.
    + exact Hresult.
  - pose proof (boot_reports_first_error (scripted both_fail all_boot)
                  crate.default_boot_params (logged_example both_fail all_boot)
                  [0; 1] eq_refl eq_refl (NoDup_nil_2) (Forall_nil_2 _)) as Hboot.
    cbv zeta in Hboot. destruct Hboot as (_ & Hresult).
    + intros n m Hn Hm.
      assert (Hcases : n = 0%nat ∨ n = 1%nat).
      { vm_compute in Hn. apply elem_of_cons in Hn as [->|Hn]; [auto|].
        apply list_elem_of_singleton in Hn as ->. auto. }
      destruct Hcases as [-> | ->]; injection Hm as <-; discriminate.
    + exact Hresult.
Defined.

(** C2 (as stated): [backplane.reinit] is not called after every join.
    For the crate above the worker of slot 5 reports
    [module_initialize_failure]; [boot] throws it and returns before
    [backplane.reinit]: all workers are joined, both modules have been
    through their [boot], and no call of [backplane.reinit] has been
    made. *)
Lemma boot_error_skips_backplane_reinit :
  let result := crate.boot crate.default_boot_params
                  (logged_example both_fail slot5_fails) in
  snd result = Throw error.module_initialize_failure
  ∧ crate.modules (fst result)
    = [set_online true (module_in_slot 2 0); module_in_slot 5 1]
  ∧ crate.reinit_calls (fst result) = [].
Proof. vm_compute. repeat split. Qed.

(** C5 (the code differs): a crate of two modules whose [close] calls
    both throw, [module_offline] for slot 2 and then [device_hw_failure]
    for slot 5.  [shutdown] throws the code of the last failure, not of the
    first. *)
Theorem shutdown_throws_last_error :
  let self := @crate_example (scripted both_fail slot5_fails) ([], []) in
  @thrown_by_close (scripted both_fail slot5_fails) (crate.modules self)
  = [error.module_offline; error.device_hw_failure]
  ∧ snd (@crate.shutdown (scripted both_fail slot5_fails) self)
    = Throw error.device_hw_failure.
Proof. vm_compute. split; reflexivity. Qed.

(** ** The offset DAC loop *)

(** The [double] sum of a list of [int] values, added up in order from
    zero, as [linear_fit::update] does. *)
Definition fsum (l : list Z) : float :=
  fold_left (λ acc x, PrimFloat.add acc (cxx.double_of_int x)) l 0%float.

(** The accumulator after the pairs [(x, y)] were recorded in order. *)
Fixpoint record (pairs : list (Z * Z)) (fit : linear_fit.t) : outcome linear_fit.t :=
  match pairs with
  | [] => Return fit
  | (x, y) :: rest => fit' ← linear_fit.update x y fit; record rest fit'
  end.

Lemma update_Return_fit (x y : Z) (fit fit' : linear_fit.t) :
  linear_fit.update x y fit = Return fit' →
  linear_fit.sum_x fit' = PrimFloat.add (linear_fit.sum_x fit) (cxx.double_of_int x)
  ∧ linear_fit.sum_y fit' = PrimFloat.add (linear_fit.sum_y fit) (cxx.double_of_int y)
  ∧ linear_fit.sum_xy fit'
    = PrimFloat.add (linear_fit.sum_xy fit) (cxx.double_of_int (x * y))
  ∧ linear_fit.sum_x_sq fit'
    = PrimFloat.add (linear_fit.sum_x_sq fit) (cxx.double_of_int (x * x))
  ∧ linear_fit.count fit' = linear_fit.count fit + 1
  ∧ linear_fit.k fit' = linear_fit.k fit
  ∧ linear_fit.c fit' = linear_fit.c fit.
Proof.
  unfold linear_fit.update, cxx.as_int. intros Hret.
  destruct ((cxx.int_min <=? x * y) && (x * y <=? cxx.int_max)); [|discriminate].
  destruct ((cxx.int_min <=? x * x) && (x * x <=? cxx.int_max)); [|discriminate].
  simpl in Hret. injection Hret as <-. simpl. auto 10.
Qed.

Lemma record_app (pairs : list (Z * Z)) (x y : Z) :
  ∀ fit, record (pairs ++ [(x, y)]) fit
         = (fit' ← record pairs fit; linear_fit.update x y fit').
Proof.
  induction pairs as [|[x' y'] pairs IH]; intros fit; simpl.
  - now destruct (linear_fit.update x y fit).
  - destruct (linear_fit.update x' y' fit) as [fit'| |]; simpl; auto.
Qed.

(** The fields of the accumulator are the sums over the recorded pairs. *)
Lemma record_sums (pairs : list (Z * Z)) :
  ∀ fit fit',
    record pairs fit = Return fit' →
    linear_fit.sum_x fit'
    = fold_left (λ acc x, PrimFloat.add acc (cxx.double_of_int x))
        (fst <$> pairs) (linear_fit.sum_x fit)
    ∧ linear_fit.sum_y fit'
      = fold_left (λ acc x, PrimFloat.add acc (cxx.double_of_int x))
          (snd <$> pairs) (linear_fit.sum_y fit)
    ∧ linear_fit.sum_xy fit'
      = fold_left (λ acc x, PrimFloat.add acc (cxx.double_of_int x))
          ((λ p, fst p * snd p) <$> pairs) (linear_fit.sum_xy fit)
    ∧ linear_fit.sum_x_sq fit'
      = fold_left (λ acc x, PrimFloat.add acc (cxx.double_of_int x))
          ((λ p, fst p * fst p) <$> pairs) (linear_fit.sum_x_sq fit)
    ∧ linear_fit.count fit' = linear_fit.count fit + Z.of_nat (length pairs).
Proof.
  induction pairs as [|[x y] pairs IH]; intros fit fit' Hret.
  - injection Hret as <-. simpl. repeat split; lia.
  - simpl in Hret. apply bind_Return_inv in Hret as (fit1 & Hup & Hrest).
    apply update_Return_fit in Hup as (Hx & Hy & Hxy & Hxx & Hn & _ & _).
    apply IH in Hrest as (Hx' & Hy' & Hxy' & Hxx' & Hn').
    rewrite !fmap_cons. cbn [fold_left fst snd length].
    rewrite Hx', Hy', Hxy', Hxx', Hn', Hx, Hy, Hxy, Hxx, Hn.
    repeat split; lia.
Qed.

(** A channel of a 14 bit DB04 board, ten percent target (1638). *)
Definition db04_example : db.t :=
  {| db.number := 0; db.base := 0; db.offset := 0; db.adc_state := db.adc_boot_state |}.

(** The second run of the same channel: the first step moved the baseline
    from 3000 to 2900, and the fit through (3000, 32768) and (2900, 32968)
    has slope -2 and intercept 38768; the DAC for the target 1638 is
    35492. *)
Example adjust_channel_second_run :
  ∃ bl_fit events,
    record [(3000, 32768)] linear_fit.new = Return bl_fit
    ∧ afe_dbs.adjust_channel db04_example true (baseline_of 14 2900) 10%float
        bl_fit 32968
      = Return (linear_fit.calc
                  {| linear_fit.k := 0; linear_fit.c := 0;
                     linear_fit.sum_x := 5900; linear_fit.sum_y := 65736;
                     linear_fit.sum_xy := 193911200;
                     linear_fit.sum_x_sq := 17410000;
                     linear_fit.count := 2 |},
                35492, events, true)
    ∧ linear_fit.k (linear_fit.calc
                  {| linear_fit.k := 0; linear_fit.c := 0;
                     linear_fit.sum_x := 5900; linear_fit.sum_y := 65736;
                     linear_fit.sum_xy := 193911200;
                     linear_fit.sum_x_sq := 17410000;
                     linear_fit.count := 2 |}) = (-2)%float
    ∧ linear_fit.c (linear_fit.calc
                  {| linear_fit.k := 0; linear_fit.c := 0;
                     linear_fit.sum_x := 5900; linear_fit.sum_y := 65736;
                     linear_fit.sum_xy := 193911200;
                     linear_fit.sum_x_sq := 17410000;
                     linear_fit.count := 2 |}) = 38768%float.
Proof.
  eexists _, _. split; [vm_compute; reflexivity|].
  split; [vm_compute; reflexivity|].
  split; [vm_compute; reflexivity|].
  vm_compute. reflexivity.
Qed.

(** Two recorded pairs with the same baseline make the divisor of the
    fit zero; the conversion of the result to [int] is then undefined. *)
Example adjust_channel_zero_divisor :
  ∃ bl_fit,
    record [(3000, 32768)] linear_fit.new = Return bl_fit
    ∧ afe_dbs.adjust_channel db04_example true (baseline_of 14 3000) 10%float
        bl_fit 32968
      = Fault.
Proof.
  eexists. split; [vm_compute; reflexivity|].
  vm_compute. reflexivity.
Qed.

(** The channel loop leaves the entries of the channels it has passed
    alone. *)
Lemma adjust_channels_frame (fixtures : list db.t) (has_offset_dacs : list bool)
  (baselines : list channel_baseline.t) (bl_percents : list float) (n : nat) :
  ∀ chan st st',
    afe_dbs.adjust_channels n chan fixtures has_offset_dacs baselines bl_percents st
    = Return st' →
    ∀ j, (j < chan)%nat →
         afe_dbs.bl_fits st' !! j = afe_dbs.bl_fits st !! j
         ∧ afe_dbs.offsetdacs st' !! j = afe_dbs.offsetdacs st !! j.
Proof.
  induction n as [|n IH]; intros chan st st' Hret j Hj.
  - injection Hret as <-. auto.
  - cbn [afe_dbs.adjust_channels] in Hret.
    destruct (fixtures !! chan) as [fx|]; [|discriminate].
    destruct (has_offset_dacs !! chan) as [has|]; [|discriminate].
    destruct (baselines !! chan) as [bl|]; [|discriminate].
    destruct (bl_percents !! chan) as [pct|]; [|discriminate].
    destruct (afe_dbs.bl_fits st !! chan) as [fit|]; [|discriminate].
    destruct (afe_dbs.offsetdacs st !! chan) as [dac|]; [|discriminate].
    apply bind_Return_inv in Hret as ([[[fit' dac'] events] again] & _ & Hret).
    destruct (IH _ _ _ Hret j ltac:(lia)) as [Hf Hd].
    cbn [afe_dbs.bl_fits afe_dbs.offsetdacs] in Hf, Hd.
    rewrite list_lookup_insert_ne in Hf by lia.
    rewrite list_lookup_insert_ne in Hd by lia. auto.
Qed.

(** One run of the outer loop applies the channel step to every channel:
    the fit and the DAC value a channel has after the run are those the
    step computes from the ones it had before the run. *)
Lemma adjust_channels_each (fixtures : list db.t) (has_offset_dacs : list bool)
  (baselines : list channel_baseline.t) (bl_percents : list float) (n : nat) :
  ∀ chan st st',
    afe_dbs.adjust_channels n chan fixtures has_offset_dacs baselines bl_percents st
    = Return st' →
    ∀ i, (chan ≤ i < chan + n)%nat →
      ∃ fx has bl pct bl_fit dac bl_fit' dac' events again,
        fixtures !! i = Some fx ∧ has_offset_dacs !! i = Some has
        ∧ baselines !! i = Some bl ∧ bl_percents !! i = Some pct
        ∧ afe_dbs.bl_fits st !! i = Some bl_fit
        ∧ afe_dbs.offsetdacs st !! i = Some dac
        ∧ afe_dbs.adjust_channel fx has bl pct bl_fit dac
          = Return (bl_fit', dac', events, again)
        ∧ afe_dbs.bl_fits st' !! i = Some bl_fit'
        ∧ afe_dbs.offsetdacs st' !! i = Some dac'.
Proof.
  induction n as [|n IH]; intros chan st st' Hret i Hi; [lia|].
  cbn [afe_dbs.adjust_channels] in Hret.
  destruct (fixtures !! chan) as [fx|] eqn:Hfx; [|discriminate].
  destruct (has_offset_dacs !! chan) as [has|] eqn:Hhas; [|discriminate].
  destruct (baselines !! chan) as [bl|] eqn:Hbl; [|discriminate].
  destruct (bl_percents !! chan) as [pct|] eqn:Hpct; [|discriminate].
  destruct (afe_dbs.bl_fits st !! chan) as [fit|] eqn:Hfit; [|discriminate].
  destruct (afe_dbs.offsetdacs st !! chan) as [dac|] eqn:Hdac; [|discriminate].
  apply bind_Return_inv in Hret as ([[[fit' dac'] events] again] & Hstep & Hret).
  destruct (decide (i = chan)) as [->|Hne].
  - destruct (adjust_channels_frame _ _ _ _ _ _ _ _ Hret chan ltac:(lia)) as [Hf Hd].
    cbn [afe_dbs.bl_fits afe_dbs.offsetdacs] in Hf, Hd.
    rewrite list_lookup_insert_eq in Hf by (eapply lookup_lt_Some; eassumption).
    rewrite list_lookup_insert_eq in Hd by (eapply lookup_lt_Some; eassumption).
    exists fx, has, bl, pct, fit, dac, fit', dac', events, again. auto 10.
  - pose proof (IH _ _ _ Hret i ltac:(lia)) as Hrest.
    cbn [afe_dbs.bl_fits afe_dbs.offsetdacs] in Hrest.
    rewrite !list_lookup_insert_ne in Hrest by lia. exact Hrest.
Qed.

(** The accumulator with the sums over the recorded pairs and the given
    [k] and [c]. *)
Definition fit_of (k c : float) (recorded : list (Z * Z)) : linear_fit.t :=
  {| linear_fit.k := k;
     linear_fit.c := c;
     linear_fit.sum_x := fsum (fst <$> recorded);
     linear_fit.sum_y := fsum (snd <$> recorded);
     linear_fit.sum_xy := fsum ((λ p, fst p * snd p) <$> recorded);
     linear_fit.sum_x_sq := fsum ((λ p, fst p * fst p) <$> recorded);
     linear_fit.count := Z.of_nat (length recorded) |}.




Lemma fsum_snoc (l : list Z) (x : Z) :
  fsum (l ++ [x]) = PrimFloat.add (fsum l) (cxx.double_of_int x).
Proof. unfold fsum. now rewrite fold_left_app. Qed.

Lemma update_fit_of (k c : float) (pairs : list (Z * Z)) (x y : Z) :
  cxx.int_min ≤ x * y ≤ cxx.int_max →
  cxx.int_min ≤ x * x ≤ cxx.int_max →
  linear_fit.update x y (fit_of k c pairs) = Return (fit_of k c (pairs ++ [(x, y)])).
Proof.
  intros Hxy Hxx. unfold linear_fit.update, cxx.as_int.
  rewrite (proj2 (andb_true_iff _ _)) by (rewrite !Z.leb_le; lia).
  cbn [mbind outcome_bind].
  rewrite (proj2 (andb_true_iff _ _)) by (rewrite !Z.leb_le; lia).
  cbn [mbind outcome_bind mret outcome_ret]. f_equal.
  unfold fit_of. cbn [linear_fit.k linear_fit.c linear_fit.sum_x linear_fit.sum_y
    linear_fit.sum_xy linear_fit.sum_x_sq linear_fit.count].
  rewrite !fmap_app, length_app. cbn [fmap list_fmap fst snd length].
  rewrite !fsum_snoc. f_equal. lia.
Qed.





(** The accumulators the loop works on are of this form: the new one is
    [fit_of 0 0 []], and recording keeps the form. *)
Lemma record_fit_of (pairs : list (Z * Z)) :
  ∀ (k c : float) (before : list (Z * Z)) (fit : linear_fit.t),
    record pairs (fit_of k c before) = Return fit →
    fit = fit_of k c (before ++ pairs).
Proof.
  induction pairs as [|[x y] pairs IH]; intros k c before fit Hret.
  - injection Hret as <-. now rewrite app_nil_r.
  - cbn [record] in Hret. apply bind_Return_inv in Hret as (fit1 & Hup & Hrest).
    assert (Hfit1 : fit1 = fit_of k c (before ++ [(x, y)])).
    { unfold linear_fit.update, cxx.as_int in Hup.
      destruct ((cxx.int_min <=? x * y) && (x * y <=? cxx.int_max)) eqn:Hxy;
        [|discriminate].
      cbn [mbind outcome_bind] in Hup.
      destruct ((cxx.int_min <=? x * x) && (x * x <=? cxx.int_max)) eqn:Hxx;
        [|discriminate].
      apply andb_true_iff in Hxy as [H1 H2]. apply andb_true_iff in Hxx as [H3 H4].
      apply Z.leb_le in H1, H2, H3, H4.
      pose proof (update_fit_of k c before x y (conj H1 H2) (conj H3 H4)) as Hup'.
      unfold linear_fit.update, cxx.as_int in Hup'.
      rewrite (proj2 (andb_true_iff _ _)) in Hup' by (rewrite !Z.leb_le; lia).
      cbn [mbind outcome_bind] in Hup'.
      rewrite (proj2 (andb_true_iff _ _)) in Hup' by (rewrite !Z.leb_le; lia).
      enough (Return fit1 = Return (fit_of k c (before ++ [(x, y)])))
        by congruence.
      rewrite <- Hup, <- Hup'. reflexivity. }
    subst fit1. apply IH in Hrest. now rewrite <- app_assoc in Hrest.
Qed.







(** ** Channel variables of a configuration *)

Import config.

(** C9 (the code differs): a writable channel variable of size 2 on a
    module of 4 channels, with an array that covers one channel.  The
    extension appends one copy of element 0 for each missing channel, three
    elements and not three channels; the array then covers two channels,
    and channels 2 and 3 are not written. *)
Theorem import_channel_var_size_two_short :
  extend 3 [jnumber 7; jnumber 9]
  = [jnumber 7; jnumber 9; jnumber 7; jnumber 7; jnumber 7]
  ∧ import_channel_var true 2 4 [jnumber 7; jnumber 9]
    = Return [ {| wv_value := 7; wv_channel := 0; wv_offset := 0; wv_io := false |};
               {| wv_value := 9; wv_channel := 0; wv_offset := 1; wv_io := false |};
               {| wv_value := 7; wv_channel := 1; wv_offset := 0; wv_io := false |};
               {| wv_value := 7; wv_channel := 1; wv_offset := 1; wv_io := false |} ].
Proof. split; vm_compute; reflexivity. Qed.

(** The calls for the numbers [zs], one channel each, from channel [c]. *)
Fixpoint writes_from (c : Z) (zs : list Z) : list write_var :=
  match zs with
  | [] => []
  | z :: rest =>
      {| wv_value := cxx.as_uint32 z; wv_channel := c; wv_offset := 0;
         wv_io := false |} :: writes_from (c + 1) rest
  end.

Lemma extend_nonempty (n : nat) :
  ∀ j value, extend n (j :: value) = (j :: value) ++ replicate n j.
Proof.
  induction n as [|n IH]; intros j value; simpl.
  - now rewrite app_nil_r.
  - change (j :: value ++ [j]) with (j :: (value ++ [j])).
    rewrite IH. simpl. rewrite <- app_assoc. reflexivity.
Qed.

Lemma write_channels_size_one (num_channels : Z) (zs : list Z) (n : nat) :
  ∀ c : nat,
    write_channels n (Z.of_nat c) 1 num_channels (Z.of_nat (length zs))
      (jnumber <$> zs)
    = Return (writes_from (Z.of_nat c)
                (take (Z.to_nat (Z.min (Z.of_nat n) (num_channels - Z.of_nat c)))
                   (drop c zs))).
Proof.
  induction n as [|n IH]; intros c.
  - now replace (Z.to_nat (Z.min (Z.of_nat 0) (num_channels - Z.of_nat c)))
      with 0%nat by lia.
  - cbn [write_channels]. rewrite length_fmap.
    destruct ((Z.of_nat c <? num_channels)
              && (Z.of_nat c <? Z.of_nat (length zs))
              && (Z.of_nat c * 1 <? Z.of_nat (length zs))) eqn:Hcond.
    + apply andb_true_iff in Hcond as [Hcond _].
      apply andb_true_iff in Hcond as [Hnc Hlen].
      apply Z.ltb_lt in Hnc, Hlen.
      destruct (lookup_lt_is_Some_2 zs c ltac:(lia)) as [z Hz].
      change (Z.to_nat 1) with 1%nat. cbn [write_elements].
      replace (Z.to_nat (Z.of_nat c * 1 + 0)) with c by lia.
      rewrite list_lookup_fmap, Hz. cbn [fmap option_fmap option_map to_value].
      cbn [mbind outcome_bind mret outcome_ret].
      replace (Z.of_nat c + 1) with (Z.of_nat (S c)) by lia.
      rewrite IH. cbn [mbind outcome_bind mret outcome_ret app].
      rewrite (drop_S zs z c Hz).
      replace (Z.to_nat (Z.min (Z.of_nat (S n)) (num_channels - Z.of_nat c)))
        with (S (Z.to_nat (Z.min (Z.of_nat n) (num_channels - Z.of_nat (S c)))))
        by lia.
      cbn [take writes_from].
      replace (Z.of_nat c + 1) with (Z.of_nat (S c)) by lia. reflexivity.
    + f_equal.
      assert (Hstop : num_channels ≤ Z.of_nat c ∨ (length zs ≤ c)%nat).
      { apply andb_false_iff in Hcond as [Hcond|Hcond];
          [apply andb_false_iff in Hcond as [Hcond|Hcond]|];
          apply Z.ltb_ge in Hcond; lia. }
      destruct Hstop as [Hstop|Hstop].
      * now replace (Z.to_nat (Z.min (Z.of_nat (S n)) (num_channels - Z.of_nat c)))
          with 0%nat by lia.
      * rewrite drop_ge by assumption. now rewrite take_nil.
Qed.

(** For a channel variable of size 1 the import does what the claim says:
    an array shorter than the module is extended with copies of element 0
    to [num_channels] elements, a longer one is cut at [num_channels], and
    element [i] is written to channel [i] with [io = false]. *)
Lemma import_channel_var_size_one (num_channels : Z) (z0 : Z) (zs : list Z) :
  0 ≤ num_channels →
  import_channel_var true 1 num_channels (jnumber <$> z0 :: zs)
  = Return (writes_from 0
              (take (Z.to_nat num_channels)
                 ((z0 :: zs)
                  ++ replicate (Z.to_nat num_channels - length (z0 :: zs)) z0))).
Proof.
  intros Hnc. unfold import_channel_var.
  change (1 =? 0) with false. cbv iota.
  rewrite Z.mod_1_r. change (negb (0 =? 0)) with false. cbv iota.
  rewrite Z.div_1_r, length_fmap.
  set (len := length (z0 :: zs)).
  assert (Hvalue : (if Z.of_nat len <? num_channels
                    then extend (Z.to_nat (num_channels - Z.of_nat len))
                           (jnumber <$> z0 :: zs)
                    else jnumber <$> z0 :: zs)
                   = jnumber <$> ((z0 :: zs)
                       ++ replicate (Z.to_nat num_channels - len) z0)).
  { destruct (Z.ltb_spec (Z.of_nat len) num_channels) as [Hshort|Hlong].
    - rewrite fmap_cons, extend_nonempty, fmap_app, fmap_replicate, <- fmap_cons.
      do 2 f_equal. lia.
    - replace (Z.to_nat num_channels - len)%nat with 0%nat by lia.
      simpl replicate. now rewrite app_nil_r. }
  rewrite Hvalue. clear Hvalue.
  set (zs' := (z0 :: zs) ++ replicate (Z.to_nat num_channels - len) z0).
  assert (Hvch : (if Z.of_nat len <? num_channels
                  then Z.of_nat (length (jnumber <$> zs')) / 1
                  else Z.of_nat len)
                 = Z.of_nat (length zs')).
  { rewrite Z.div_1_r, length_fmap.
    destruct (Z.ltb_spec (Z.of_nat len) num_channels) as [Hshort|Hlong];
      [reflexivity|].
    unfold zs'. rewrite length_app, length_replicate. fold len. lia. }
  rewrite Hvch. clear Hvch.
  pose proof (write_channels_size_one num_channels zs' (Z.to_nat num_channels) 0)
    as Hloop.
  change (Z.of_nat 0) with 0 in Hloop. rewrite Hloop.
  rewrite drop_0. do 3 f_equal. lia.
Qed.

(** * Further properties *)

(** ** Comparison of a baseline with a value *)

(** X1: with the default noise percentage of 0.5, [operator==(const int)]
    accepts a value exactly when it differs from the baseline by at most
    [2 ^ adc_bits * 0.5 / 100], and [operator!=(const int)] is its
    negation. *)
Theorem baseline_equality_tolerance (bl : channel_baseline.t) (x : Z) :
  channel_baseline.noise_percent bl = channel_baseline.default_noise_percent →
  0 ≤ channel_baseline.adc_bits bl ≤ 30 →
  (channel_baseline.operator_eq_int bl x = Return true
   ↔ 200 * Z.abs (channel_baseline.baseline bl - x)
     ≤ 2 ^ channel_baseline.adc_bits bl)
  ∧ (channel_baseline.operator_ne_int bl x = Return true
     ↔ channel_baseline.operator_eq_int bl x = Return false).
Proof.
  intros Hnp Hbits.
  rewrite (operator_eq_int_default bl x Hnp Hbits).
  rewrite (operator_ne_int_default bl x Hnp Hbits).
  split.
  - split.
    + intros [= Hd]. now apply bool_decide_eq_true in Hd.
    + intros Hle. now rewrite bool_decide_eq_true_2.
  - split; intros [= Hd]; f_equal.
    + apply bool_decide_eq_true in Hd. apply bool_decide_eq_false. lia.
    + apply bool_decide_eq_false in Hd. apply bool_decide_eq_true. lia.
Qed.

Lemma baseline_equality_tolerance_witness :
  channel_baseline.operator_eq_int (baseline_of 14 100) 181 = Return true
  ↔ 200 * Z.abs (100 - 181) ≤ 2 ^ 14.
Proof.
  apply (baseline_equality_tolerance (baseline_of 14 100) 181).
  - reflexivity.
  - simpl. lia.
Defined.

(** X2: a noise percentage that is not above zero does not make the
    comparison exact: the range is then one count, for every ADC width. *)
Theorem baseline_equality_without_noise (bl : channel_baseline.t) (x : Z) :
  PrimFloat.ltb (cxx.double_of_int 0) (channel_baseline.noise_percent bl) = false →
  channel_baseline.operator_eq_int bl x
  = Return (bool_decide (Z.abs (channel_baseline.baseline bl - x) ≤ 1)).
Proof.
  intros Hnp. unfold channel_baseline.operator_eq_int, channel_baseline.noise_range.
  rewrite Hnp. simpl. f_equal.
  apply eq_true_iff_eq. rewrite andb_true_iff, !Z.leb_le, bool_decide_eq_true. lia.
Qed.

Lemma baseline_equality_without_noise_witness :
  channel_baseline.operator_eq_int (channel_baseline.new (-3)%float) 0
  = Return (bool_decide (Z.abs (-1 - 0) ≤ 1)).
Proof.
  apply (baseline_equality_without_noise (channel_baseline.new (-3)%float) 0).
  reflexivity.
Defined.

(** ** The histogram and the baseline *)

(** X3: [update] counts every sample of a trace in exactly one bin and
    leaves the number of bins alone: after it returns, each bin has grown
    by the number of samples that fall in it, a sample above the number of
    bins counting as the top bin. *)
Theorem update_counts_samples (trace : list Z) (self self' : channel_baseline.t) :
  Forall (λ sample, 0 ≤ sample) trace →
  channel_baseline.update trace self = Return self' →
  length (channel_baseline.bins self') = length (channel_baseline.bins self)
  ∧ channel_baseline.runs self' = channel_baseline.runs self + 1
  ∧ ∀ i n,
      channel_baseline.bins self !! i = Some n →
      channel_baseline.bins self' !! i
      = Some (n + count_bin (Z.of_nat (length (channel_baseline.bins self)))
                    trace (Z.of_nat i)).
Proof.
  intros Hpos Hret. unfold channel_baseline.update in Hret.
  apply bind_Return_inv in Hret as (bins' & Hbins & Hret).
  injection Hret as <-. cbn [channel_baseline.bins channel_baseline.runs].
  destruct (update_bins_histogram trace _ _ Hpos Hbins) as [Hlen Hhist].
  split; [exact Hlen|]. split; [reflexivity|].
  intros i n Hn. now rewrite Hhist, Hn.
Qed.

Lemma update_counts_samples_witness :
  ∃ self',
    channel_baseline.update [0; 0; 30] start_example = Return self'
    ∧ length (channel_baseline.bins self') = 64%nat.
Proof.
  exists histogram_example. split; [reflexivity|].
  apply (update_counts_samples [0; 0; 30] start_example histogram_example).
  - repeat constructor; lia.
  - reflexivity.
Defined.

(** X4: a 16 bit sample other than the number of bins is always counted
    inside the bin vector, so [update] returns for a trace without such a
    sample. *)
Theorem update_returns_without_full_scale (trace : list Z)
  (self : channel_baseline.t) :
  channel_baseline.bins self ≠ [] →
  Forall (λ sample, 0 ≤ sample < 2 ^ 16
                    ∧ sample ≠ Z.of_nat (length (channel_baseline.bins self)))
    trace →
  ∃ self', channel_baseline.update trace self = Return self'.
Proof.
  intros Hne Hok. unfold channel_baseline.update.
  assert (Hbins : ∀ bins_,
            bins_ ≠ [] →
            length bins_ = length (channel_baseline.bins self) →
            ∃ bins', channel_baseline.update_bins bins_ trace = Return bins').
  { clear Hne. induction trace as [|sample trace IH]; intros bins_ Hnil Hlen.
    - simpl. eauto.
    - inversion Hok as [|? ? [Hs Hsize] Hrest]; subst.
      rewrite <- Hlen in Hsize.
      destruct (update_sample_in_range bins_ sample Hnil Hs Hsize)
        as (n & _ & Hup & _).
      simpl. rewrite Hup. simpl. apply IH; [assumption| |].
      + intros Hempty. apply (f_equal length) in Hempty.
        rewrite length_insert in Hempty. destruct bins_; [congruence|discriminate].
      + now rewrite length_insert. }
  destruct (Hbins _ Hne eq_refl) as [bins' ->]. simpl. eauto.
Qed.

Lemma update_returns_without_full_scale_witness :
  ∃ self', channel_baseline.update [0; 63; 65; 65535] start_example = Return self'.
Proof.
  apply (update_returns_without_full_scale [0; 63; 65; 65535] start_example).
  - discriminate.
  - repeat constructor; simpl; lia.
Defined.

Lemma Zsum_weighted_bounds (f : Z → Z) (lo hi : Z) (l : list Z) :
  (∀ x, x ∈ l → lo ≤ x ≤ hi ∧ 0 ≤ f x) →
  lo * Zsum (f <$> l) ≤ Zsum ((λ b, b * f b) <$> l) ≤ hi * Zsum (f <$> l).
Proof.
  induction l as [|x l IH]; intros Hl.
  - simpl. lia.
  - rewrite !fmap_cons, !Zsum_cons.
    destruct (Hl x ltac:(left)) as [Hx Hf].
    assert (Hrest : ∀ y, y ∈ l → lo ≤ y ≤ hi ∧ 0 ≤ f y)
      by (intros y Hy; apply Hl; now right).
    specialize (IH Hrest). nia.
Qed.

(** X5: [end] on a histogram without samples divides by zero: it must
    not be called right after [start], or after empty traces only. *)
Theorem end_without_samples (channel_ adc_bits_ : Z)
  (self started : channel_baseline.t) :
  channel_baseline.start channel_ adc_bits_ self = Return started →
  channel_baseline.end_ started = Fault
  ∧ (bl ← channel_baseline.update [] started; channel_baseline.end_ bl) = Fault.
Proof.
  intros Hstart. apply start_Return in Hstart as (Hbits & _ & _ & Hbins).
  assert (Hend : ∀ bl, channel_baseline.bins bl = channel_baseline.bins started →
                       channel_baseline.end_ bl = Fault).
  { intros bl Hbl. unfold channel_baseline.end_. rewrite end_loop_sums.
    rewrite Hbl, Hbins.
    set (w := seqZ _ _).
    rewrite (Zsum_ext (λ i, default 0 (replicate (Z.to_nat (2 ^ adc_bits_)) 0
                                         !! Z.to_nat i)) (λ _, 0) w).
    - assert (Hzero : Zsum ((λ _ : Z, 0) <$> w) = 0).
      { clear. induction w as [|x w IH]; [reflexivity|].
        rewrite fmap_cons, Zsum_cons. lia. }
      rewrite Hzero. reflexivity.
    - intros x _. cbv beta.
      destruct (replicate (Z.to_nat (2 ^ adc_bits_)) 0 !! Z.to_nat x) as [n|] eqn:Hn;
        [|reflexivity].
      apply lookup_replicate in Hn as [-> _]. reflexivity. }
  split; [now apply Hend|].
  unfold channel_baseline.update. simpl. now apply Hend.
Qed.

Lemma end_without_samples_witness :
  channel_baseline.end_ start_example = Fault.
Proof.
  apply (end_without_samples 0 6 channel_baseline.new_default start_example).
  reflexivity.
Defined.

(** X6: the baseline [analyze_channel_baselines] computes for a channel
    is a bin of the window around the peak: with [m] the first bin with
    the largest count, [max(0, m - 30) <= baseline < min(2 ^ adc_bits,
    m + 30)].  In particular the baseline is a valid ADC value. *)
Theorem baseline_within_window (channel_ adc_bits_ : Z) (trace : list Z)
  (bl : channel_baseline.t) :
  Forall (λ sample, 0 ≤ sample) trace →
  analyze_channel channel_ adc_bits_ trace = Return bl →
  let m := Z.of_nat (channel_baseline.max_element (channel_baseline.bins bl)) in
  Z.max 0 (m - 30) ≤ channel_baseline.baseline bl < Z.min (2 ^ adc_bits_) (m + 30)
  ∧ 0 ≤ channel_baseline.baseline bl < 2 ^ adc_bits_.
Proof.
  intros Hpos Hret m. unfold analyze_channel in Hret.
  apply bind_Return_inv in Hret as (b0 & Hstart & Hret).
  apply bind_Return_inv in Hret as (b1 & Hupdate & Hend).
  apply start_Return in Hstart as (Hbits & _ & _ & Hbins0).
  apply update_Return in Hupdate as (Hub & _ & _).
  assert (Hsize : 0 < 2 ^ adc_bits_) by (apply Z.pow_pos_nonneg; lia).
  destruct (update_bins_histogram trace _ _ Hpos Hub) as [Hlen Hhist].
  rewrite Hbins0, length_replicate in Hlen.
  rewrite Hbins0, length_replicate in Hhist.
  assert (Hnonneg : ∀ i, 0 ≤ default 0 (channel_baseline.bins b1 !! Z.to_nat i)).
  { intros i. rewrite Hhist.
    destruct (replicate (Z.to_nat (2 ^ adc_bits_)) 0 !! Z.to_nat i) as [n|] eqn:Hn;
      simpl; [|lia].
    apply lookup_replicate in Hn as [-> _].
    pose proof (count_bin_nonneg (Z.of_nat (Z.to_nat (2 ^ adc_bits_))) trace
                  (Z.of_nat (Z.to_nat i))). lia. }
  unfold channel_baseline.end_ in Hend. rewrite end_loop_sums in Hend.
  set (m1 := Z.of_nat (channel_baseline.max_element (channel_baseline.bins b1))) in *.
  assert (Hm1 : 0 ≤ m1 < 2 ^ adc_bits_).
  { assert (Hnil : channel_baseline.bins b1 ≠ []).
    { intros Hnil. rewrite Hnil in Hlen. simpl in Hlen. lia. }
    destruct (max_element_spec _ Hnil) as (c & Hc & _).
    apply lookup_lt_Some in Hc. unfold m1. lia. }
  set (from_bin := Z.max (m1 - channel_baseline.noise_bins) 0) in *.
  set (to_bin := Z.min (m1 + channel_baseline.noise_bins)
                   (Z.of_nat (length (channel_baseline.bins b1)))) in *.
  assert (Hwin : 0 ≤ from_bin ≤ m1 ∧ m1 < to_bin ≤ 2 ^ adc_bits_).
  { unfold from_bin, to_bin, channel_baseline.noise_bins. rewrite Hlen. lia. }
  rewrite Z2Nat.id in Hend by lia.
  set (window := seqZ from_bin (to_bin - from_bin)) in *.
  set (cnt := λ i, default 0 (channel_baseline.bins b1 !! Z.to_nat i)) in *.
  fold (Zsum (cnt <$> window)) in Hend.
  rewrite !Z.add_0_l in Hend.
  destruct (Z.eqb_spec (Zsum (cnt <$> window)) 0) as [Hz|Hnz]; [discriminate|].
  injection Hend as <-. cbn [channel_baseline.baseline channel_baseline.bins].
  change (Zsum ((λ i, i * default 0 (channel_baseline.bins b1 !! Z.to_nat i))
                <$> window))
    with (Zsum ((λ b, b * cnt b) <$> window)).
  subst m. cbn [channel_baseline.bins]. fold m1.
  assert (Hbounds : from_bin * Zsum (cnt <$> window)
                    ≤ Zsum ((λ b, b * cnt b) <$> window)
                    ≤ (to_bin - 1) * Zsum (cnt <$> window)).
  { apply Zsum_weighted_bounds. intros x Hx.
    apply elem_of_seqZ in Hx. split; [lia|apply Hnonneg]. }
  assert (Hs : 0 < Zsum (cnt <$> window)).
  { assert (0 ≤ Zsum (cnt <$> window))
      by (apply Zsum_nonneg; intros; apply Hnonneg). lia. }
  assert (Hprod : 0 ≤ from_bin * Zsum (cnt <$> window))
    by (apply Z.mul_nonneg_nonneg; lia).
  rewrite Z.quot_div_nonneg by lia.
  assert (Hlo : from_bin ≤ Zsum ((λ b, b * cnt b) <$> window) / Zsum (cnt <$> window))
    by (apply Z.div_le_lower_bound; lia).
  assert (Hhi : Zsum ((λ b, b * cnt b) <$> window) / Zsum (cnt <$> window) ≤ to_bin - 1)
    by (apply Z.div_le_upper_bound; lia).
  unfold from_bin, to_bin, channel_baseline.noise_bins in *. rewrite Hlen in *. lia.
Qed.

Lemma baseline_within_window_witness :
  0 ≤ channel_baseline.baseline analyzed_example < 2 ^ 6.
Proof.
  apply (baseline_within_window 0 6 [0; 0; 30] analyzed_example).
  - repeat constructor; lia.
  - vm_compute. reflexivity.
Defined.

(** ** Averages *)

Lemma Zsum_bounds (lo hi : Z) (l : list Z) :
  (∀ x, x ∈ l → lo ≤ x ≤ hi) →
  Z.of_nat (length l) * lo ≤ Zsum l ≤ Z.of_nat (length l) * hi.
Proof.
  induction l as [|x l IH]; intros Hl; [simpl; lia|].
  rewrite Zsum_cons. pose proof (Hl x ltac:(left)).
  assert (∀ y, y ∈ l → lo ≤ y ≤ hi) as Hrest by (intros y Hy; apply Hl; now right).
  specialize (IH Hrest). cbn [length]. rewrite Nat2Z.inj_succ. nia.
Qed.

Lemma quot_between (s n lo hi : Z) :
  0 < n → n * lo ≤ s ≤ n * hi → lo ≤ Z.quot s n ≤ hi.
Proof.
  intros Hn Hs.
  pose proof (Z.quot_rem' s n) as Hqr.
  set (q := Z.quot s n) in *. set (r := Z.rem s n) in *.
  assert (Hr : - n < r < n).
  { destruct (Z_le_gt_dec 0 s) as [Hpos|Hneg].
    - pose proof (Z.rem_bound_pos s n Hpos Hn). unfold r. lia.
    - pose proof (Z.rem_bound_pos (- s) n ltac:(lia) Hn) as Hb.
      rewrite Z.rem_opp_l' in Hb. unfold r. lia. }
  assert (Hsign : (0 ≤ s → 0 ≤ r) ∧ (s < 0 → r ≤ 0)).
  { split; intros Hs0.
    - pose proof (Z.rem_bound_pos s n Hs0 Hn). unfold r. lia.
    - pose proof (Z.rem_bound_pos (- s) n ltac:(lia) Hn) as Hb.
      rewrite Z.rem_opp_l' in Hb. unfold r. lia. }
  destruct (Z_le_gt_dec 0 s) as [Hpos|Hneg].
  - assert (0 ≤ r) by (apply Hsign; lia).
    assert (Hq0 : 0 ≤ q) by (apply Z.quot_pos; lia).
    split.
    + destruct (Z_le_gt_dec lo q) as [|Hgt]; [assumption|].
      assert (n * (q + 1) ≤ n * lo) by (apply Z.mul_le_mono_nonneg_l; lia). lia.
    + destruct (Z_le_gt_dec q hi) as [|Hgt]; [assumption|].
      assert (n * (hi + 1) ≤ n * q) by (apply Z.mul_le_mono_nonneg_l; lia). lia.
  - assert (r ≤ 0) by (apply Hsign; lia).
    split.
    + destruct (Z_le_gt_dec lo q) as [|Hgt]; [assumption|].
      assert (n * (q + 1) ≤ n * lo) by (apply Z.mul_le_mono_nonneg_l; lia). lia.
    + destruct (Z_le_gt_dec q hi) as [|Hgt]; [assumption|].
      assert (n * (hi + 1) ≤ n * q) by (apply Z.mul_le_mono_nonneg_l; lia). lia.
Qed.

Lemma average_update_all (vals : list Z) :
  ∀ self self',
    average.update_all vals self = Return self' →
    average.avg self' = average.avg self + Zsum vals
    ∧ average.count self' = average.count self + Z.of_nat (length vals)
    ∧ average.min self' ≤ average.min self
    ∧ average.max self ≤ average.max self'
    ∧ ∀ v, v ∈ vals → average.min self' ≤ v ≤ average.max self'.
Proof.
  induction vals as [|val vals IH]; intros self self' Hret.
  - injection Hret as <-. simpl. repeat split; try lia;
      match goal with H : _ ∈ [] |- _ => inversion H end.
  - simpl in Hret. apply bind_Return_inv in Hret as (s1 & Hup & Hrest).
    unfold average.update in Hup.
    apply bind_Return_inv in Hup as (sum & Hsum & Hup).
    apply bind_Return_inv in Hup as (count' & Hcount' & Hup). injection Hup as <-.
    unfold cxx.as_int in Hsum, Hcount'.
    destruct (_ && _) in Hsum; [|discriminate]. injection Hsum as <-.
    destruct (_ && _) in Hcount'; [|discriminate]. injection Hcount' as <-.
    apply IH in Hrest as (Havg & Hcount & Hmin & Hmax & Hall).
    cbn [average.avg average.count average.min average.max] in *.
    rewrite Zsum_cons. cbn [length].
    split; [lia|]. split; [lia|]. split; [lia|]. split; [lia|].
    intros v Hv. apply elem_of_cons in Hv as [->|Hv]; [lia|auto].
Qed.

(** X7: after the values of a non-empty list were added to a fresh
    [average], [calc] leaves the truncated mean in [avg], with
    [min <= avg <= max], and [min] and [max] bound every value; on a fresh
    [average] [calc] changes nothing, it does not divide by the zero
    count. *)
Theorem average_between_min_and_max (vals : list Z) (self : average.t) :
  vals ≠ [] →
  average.update_all vals average.new = Return self →
  let a := average.calc self in
  average.avg a = Z.quot (Zsum vals) (Z.of_nat (length vals))
  ∧ average.count a = Z.of_nat (length vals)
  ∧ average.min a ≤ average.avg a ≤ average.max a
  ∧ (∀ v, v ∈ vals → average.min a ≤ v ≤ average.max a)
  ∧ average.calc average.new = average.new.
Proof.
  intros Hne Hret a.
  apply average_update_all in Hret as (Havg & Hcount & _ & _ & Hall).
  change (average.avg average.new) with 0 in Havg.
  change (average.count average.new) with 0 in Hcount.
  rewrite Z.add_0_l in Havg, Hcount.
  assert (Hlen : 0 < Z.of_nat (length vals)) by (destruct vals; [congruence|simpl; lia]).
  unfold a, average.calc. rewrite Hcount.
  rewrite (proj2 (Z.ltb_lt 0 _) Hlen).
  cbn [average.avg average.count average.min average.max]. rewrite Havg.
  split; [reflexivity|]. split; [reflexivity|]. split; [|split; [exact Hall|reflexivity]].
  apply quot_between; [assumption|]. now apply Zsum_bounds.
Qed.

Lemma average_between_min_and_max_witness :
  ∃ self,
    average.update_all [-7; 2; -2] average.new = Return self
    ∧ average.avg (average.calc self) = -2
    ∧ average.min (average.calc self) ≤ average.avg (average.calc self)
      ≤ average.max (average.calc self).
Proof.
  eexists. split; [reflexivity|].
  destruct (average_between_min_and_max [-7; 2; -2] _ ltac:(discriminate) eq_refl)
    as (Havg & _ & Hbetween & _).
  split; [exact Havg | exact Hbetween].
Defined.

(** ** Unpacking a trace *)

Lemma halves_of_word (word : Z) :
  0 ≤ word < 2 ^ 32 →
  let lo := cxx.as_uint16 (Z.land word 0xffff) in
  let hi := cxx.as_uint16 (Z.land (Z.shiftr word 16) 0xffff) in
  0 ≤ lo < 2 ^ 16 ∧ 0 ≤ hi < 2 ^ 16 ∧ word = lo + 2 ^ 16 * hi.
Proof.
  intros Hword lo hi. unfold lo, hi, cxx.as_uint16.
  change 0xffff with (Z.ones 16).
  rewrite !Z.land_ones, Z.shiftr_div_pow2 by lia.
  rewrite !Z.mod_mod by lia.
  assert (Hhi : 0 ≤ word / 2 ^ 16 < 2 ^ 16).
  { split; [apply Z.div_pos; lia|]. apply Z.div_lt_upper_bound; lia. }
  rewrite (Z.mod_small (word / 2 ^ 16)) by lia.
  pose proof (Z.mod_pos_bound word (2 ^ 16) ltac:(lia)).
  pose proof (Z.div_mod word (2 ^ 16) ltac:(lia)). lia.
Qed.

Lemma unpack_loop_spec (buffer : list Z) (n : nat) :
  ∀ (w : nat) (trace : list Z),
    (w + n ≤ length buffer)%nat →
    (2 * (w + n) ≤ length trace)%nat →
    ∃ result,
      adc_trace.unpack_loop n w buffer trace = Return result
      ∧ length result = length trace
      ∧ (∀ k word, (w ≤ k < w + n)%nat → buffer !! k = Some word →
           result !! (2 * k)%nat = Some (cxx.as_uint16 (Z.land word 0xffff))
           ∧ result !! (2 * k + 1)%nat
             = Some (cxx.as_uint16 (Z.land (Z.shiftr word 16) 0xffff)))
      ∧ (∀ j, (j < 2 * w ∨ 2 * (w + n) ≤ j)%nat → result !! j = trace !! j).
Proof.
  induction n as [|n IH]; intros w trace Hbuf Htrace.
  - exists trace. split; [reflexivity|]. split; [reflexivity|].
    split; [intros k word Hk; lia | reflexivity].
  - cbn [adc_trace.unpack_loop].
    destruct (lookup_lt_is_Some_2 buffer w ltac:(lia)) as [word Hword].
    rewrite Hword.
    destruct (Nat.ltb_spec (2 * w + 1) (length trace)) as [_|Hbad]; [|lia].
    set (trace' := <[(2 * w + 1)%nat := _]> (<[(2 * w)%nat := _]> trace)).
    assert (Hlen' : length trace' = length trace)
      by (unfold trace'; now rewrite !length_insert).
    destruct (IH (S w) trace' ltac:(lia) ltac:(lia))
      as (result & Hret & Hlen & Hin & Hout).
    exists result. split; [exact Hret|]. split; [lia|]. split.
    + intros k word' Hk Hk'.
      destruct (decide (k = w)) as [->|Hne].
      * assert (word' = word) by congruence. subst word'.
        rewrite !Hout by lia. unfold trace'. split.
        -- rewrite list_lookup_insert_ne by lia.
           now rewrite list_lookup_insert_eq by lia.
        -- now rewrite list_lookup_insert_eq by (rewrite length_insert; lia).
      * apply Hin; [lia|assumption].
    + intros j Hj. rewrite Hout by lia. unfold trace'.
      now rewrite !list_lookup_insert_ne by lia.
Qed.

(** X8: [db::acquire_adc] gives the channel a trace of
    [max_adc_trace_length] samples in which word [k] of the DSP buffer
    supplies sample [2k], its low 16 bits, and sample [2k + 1], its high 16
    bits; no bit of a 32 bit word is lost. *)
Theorem acquire_adc_unpacks_low_half_first (size : nat) (buffer trace : list Z) :
  (size / 2 ≤ length buffer)%nat →
  ∃ result,
    adc_trace.unpack size buffer trace = Return result
    ∧ length result = size
    ∧ ∀ k word,
        (k < size / 2)%nat → buffer !! k = Some word →
        ∃ lo hi,
          result !! (2 * k)%nat = Some lo
          ∧ result !! (2 * k + 1)%nat = Some hi
          ∧ lo = cxx.as_uint16 (Z.land word 0xffff)
          ∧ hi = cxx.as_uint16 (Z.land (Z.shiftr word 16) 0xffff)
          ∧ (0 ≤ word < 2 ^ 32 → word = lo + 2 ^ 16 * hi).
Proof.
  intros Hbuf. unfold adc_trace.unpack.
  set (trace0 := if bool_decide (length trace = size) then trace
                 else resize size 0 trace).
  assert (Hlen0 : length trace0 = size).
  { unfold trace0. destruct (decide (length trace = size)) as [Heq|Hne].
    - now rewrite bool_decide_eq_true_2.
    - rewrite bool_decide_eq_false_2 by assumption. apply length_resize. }
  pose proof (Nat.div_mod_eq size 2) as Hdm.
  pose proof (Nat.mod_upper_bound size 2 ltac:(lia)) as Hmod.
  destruct (unpack_loop_spec buffer (size / 2) 0 trace0 ltac:(lia) ltac:(lia))
    as (result & Hret & Hlen & Hin & _).
  exists result. split; [exact Hret|]. split; [lia|].
  intros k word Hk Hword.
  destruct (Hin k word ltac:(lia) Hword) as [Hlo Hhi].
  eexists _, _. split; [exact Hlo|]. split; [exact Hhi|].
  split; [reflexivity|]. split; [reflexivity|].
  intros Hrange. now apply halves_of_word.
Qed.

Lemma acquire_adc_unpacks_low_half_first_witness :
  ∃ result,
    adc_trace.unpack 4 [0x00020001; 0xffff8000; 7] [] = Return result
    ∧ length result = 4%nat.
Proof.
  destruct (acquire_adc_unpacks_low_half_first 4 [0x00020001; 0xffff8000; 7] [])
    as (result & Hret & Hlen & _).
  - simpl. lia.
  - exists result. split; [exact Hret | exact Hlen].
Defined.

Example acquire_adc_example :
  adc_trace.unpack 4 [0x00020001; 0xffff8000; 7] [] = Return [1; 2; 0x8000; 0xffff].
Proof. reflexivity. Qed.

(** ** The channel fixtures *)

(** X9: a channel whose configured fixture is not DB04 gets the base
    fixture, on which every operation fails with [internal_failure]:
    [set_dac], every typed [get] and [set], whatever the item. *)
Theorem other_fixtures_are_unsupported (config_fixture : channel_fixture.module_fixture)
  (channel number base value : Z) (item : string) (flag : bool) :
  config_fixture ≠ channel_fixture.DB04 →
  let fx := channel_fixture.make config_fixture channel number base in
  channel_fixture.set_dac value fx = Throw error.internal_failure
  ∧ channel_fixture.get_bool item fx = Throw error.internal_failure
  ∧ channel_fixture.get_int item fx = Throw error.internal_failure
  ∧ channel_fixture.set_bool item flag fx = Throw error.internal_failure.
Proof.
  intros Hne fx. unfold fx.
  destruct config_fixture; try congruence; repeat split; reflexivity.
Qed.

Lemma other_fixtures_are_unsupported_witness :
  channel_fixture.set_dac 0 (channel_fixture.make channel_fixture.DB02 3 0 0)
  = Throw error.internal_failure.
Proof.
  apply (other_fixtures_are_unsupported channel_fixture.DB02 3 0 0 0 "ADC_SWAP" true).
  discriminate.
Defined.

Definition is_db04 (fx : channel_fixture.t) : bool :=
  match fx with
  | channel_fixture.daughter_board_04 _ => true
  | channel_fixture.motherboard => false
  end.

Lemma settle_period_db04 (channels : list channel_fixture.t) :
  ∀ period,
    0 ≤ period ≤ 250 →
    forallb is_db04 channels = true →
    channel_fixture.settle_period channels period
    = Return (if bool_decide (channels = []) then period else 250).
Proof.
  induction channels as [|[|board] rest IH]; intros period Hp Hall;
    [reflexivity|discriminate|].
  cbn [channel_fixture.settle_period]. simpl in Hall.
  change (channel_fixture.get_int "DAC_SETTLE_PERIOD"
            (channel_fixture.daughter_board_04 board)) with (@Return Z 250).
  cbn [mbind outcome_bind]. rewrite IH by (assumption || lia).
  rewrite (bool_decide_eq_false_2 (_ :: _ = [])) by discriminate.
  destruct (bool_decide (rest = [])); f_equal; lia.
Qed.

Lemma settle_period_motherboard (channels : list channel_fixture.t) :
  ∀ period,
    forallb is_db04 channels = false →
    channel_fixture.settle_period channels period = Throw error.internal_failure.
Proof.
  induction channels as [|[|board] rest IH]; intros period Hall;
    [discriminate|reflexivity|].
  cbn [channel_fixture.settle_period]. simpl in Hall.
  change (channel_fixture.get_int "DAC_SETTLE_PERIOD"
            (channel_fixture.daughter_board_04 board)) with (@Return Z 250).
  cbn [mbind outcome_bind]. now apply IH.
Qed.

(** X10: [wait_dac_settle_period] waits 250000 microseconds when the
    module has channels and all of them are DB04 channels, does not wait
    for a module without channels, and fails with [internal_failure] as soon
    as one channel has the base fixture. *)
Theorem wait_dac_settle_period_cases (channels : list channel_fixture.t) :
  channel_fixture.wait_dac_settle_period channels
  = if forallb is_db04 channels
    then Return (if bool_decide (channels = []) then [] else [hw.wait 250000])
    else Throw error.internal_failure.
Proof.
  unfold channel_fixture.wait_dac_settle_period.
  destruct (forallb is_db04 channels) eqn:Hall.
  - rewrite settle_period_db04 by (assumption || lia).
    destruct (bool_decide (channels = [])); reflexivity.
  - now rewrite settle_period_motherboard.
Qed.

Lemma set_dacs_from (read_var : Z → outcome Z) (channels : list channel_fixture.t) :
  ∀ first : nat,
    (∀ events,
       channel_fixture.set_dacs read_var (Z.of_nat first) channels = Return events →
       length events = (3 * length channels)%nat)
    ∧ ((∃ events,
          channel_fixture.set_dacs read_var (Z.of_nat first) channels = Return events)
       ↔ ∀ (i : nat) channel,
           channels !! i = Some channel →
           is_db04 channel = true
           ∧ ∃ value, read_var (Z.of_nat (first + i)) = Return value
                      ∧ value ≤ 65535).
Proof.
  induction channels as [|channel rest IH]; intros first.
  - split; [intros events [= <-]; reflexivity|].
    split; [intros _ i channel Hi; discriminate|intros _; eexists; reflexivity].
  - destruct (IH (S first)) as [IHlen IHiff].
    replace (Z.of_nat (S first)) with (Z.of_nat first + 1) in IHlen, IHiff by lia.
    cbn [channel_fixture.set_dacs]. split.
    + intros events Hret.
      apply bind_Return_inv in Hret as (value & _ & Hret).
      apply bind_Return_inv in Hret as (ev & Hset & Hret).
      apply bind_Return_inv in Hret as (ev' & Hrest & Hret).
      injection Hret as <-. rewrite length_app, (IHlen ev' Hrest).
      destruct channel as [|board]; [discriminate|].
      cbn [channel_fixture.set_dac] in Hset. unfold db04.set_dac in Hset.
      destruct (65535 <? value); [discriminate|].
      injection Hset as <-. simpl. lia.
    + split.
      * intros [events Hret].
        apply bind_Return_inv in Hret as (value & Hread & Hret).
        apply bind_Return_inv in Hret as (ev & Hset & Hret).
        apply bind_Return_inv in Hret as (ev' & Hrest & _).
        intros [|i] ch Hi.
        -- injection Hi as <-. rewrite Nat.add_0_r.
           destruct channel as [|board]; [discriminate|].
           split; [reflexivity|]. exists value. split; [exact Hread|].
           cbn [channel_fixture.set_dac] in Hset. unfold db04.set_dac in Hset.
           destruct (Z.ltb_spec 65535 value); [discriminate|lia].
        -- rewrite lookup_cons_ne_0 in Hi by lia. cbn [Nat.pred] in Hi.
           replace (first + S i)%nat with (S first + i)%nat by lia.
           exact (proj1 IHiff (ex_intro _ ev' Hrest) i ch Hi).
      * intros Hall.
        destruct (Hall 0%nat channel eq_refl) as (Hdb & value & Hread & Hvalue).
        rewrite Nat.add_0_r in Hread. rewrite Hread. cbn [mbind outcome_bind].
        destruct channel as [|board]; [discriminate|].
        cbn [channel_fixture.set_dac]. unfold db04.set_dac.
        destruct (Z.ltb_spec 65535 value); [lia|].
        cbn [mbind outcome_bind mret outcome_ret].
        destruct (proj2 IHiff) as [ev' Hrest].
        { intros i ch Hi.
          replace (S first + i)%nat with (first + S i)%nat by lia.
          apply (Hall (S i) ch). exact Hi. }
        rewrite Hrest. cbn [mbind outcome_bind]. eexists. reflexivity.
Qed.

(** X11: [afe_dbs::set_dacs] returns exactly when, for every channel, the
    read of its [OffsetDAC] variable returns, the value read is at most
    65535, and the channel is a DB04 channel; it then has made three
    accesses per channel (port select, [CFG_DAC] write, wait). *)
Theorem set_dacs_returns_iff (read_var : Z → outcome Z)
  (channels : list channel_fixture.t) :
  (∀ events,
     channel_fixture.set_dacs read_var 0 channels = Return events →
     length events = (3 * length channels)%nat)
  ∧ ((∃ events, channel_fixture.set_dacs read_var 0 channels = Return events)
     ↔ ∀ (number : nat) channel,
         channels !! number = Some channel →
         is_db04 channel = true
         ∧ ∃ value, read_var (Z.of_nat number) = Return value ∧ value ≤ 65535).
Proof. exact (set_dacs_from read_var channels 0). Qed.

(** Two DB04 channels; the read of the second channel's variable follows
    the given outcome. *)
Definition second_read (second : outcome Z) (number : Z) : outcome Z :=
  if number =? 0 then Return 32768 else second.

Example set_dacs_examples :
  channel_fixture.set_dacs (second_read (Return 100)) 0
    [channel_fixture.daughter_board_04 db04_example;
     channel_fixture.daughter_board_04 db04_example]
  = Return [hw.select_port 1; hw.write_word hw.CFG_DAC 0x22318000; hw.wait 6000;
            hw.select_port 1; hw.write_word hw.CFG_DAC 0x22310064; hw.wait 6000]
  ∧ channel_fixture.set_dacs (second_read (Throw error.channel_number_invalid)) 0
      [channel_fixture.daughter_board_04 db04_example;
       channel_fixture.daughter_board_04 db04_example]
    = Throw error.channel_number_invalid
  ∧ channel_fixture.set_dacs (second_read (Return 65536)) 0
      [channel_fixture.daughter_board_04 db04_example;
       channel_fixture.daughter_board_04 db04_example]
    = Throw error.invalid_value.
Proof. repeat split; vm_compute; reflexivity. Qed.

(** X12: the swap state of a daughter board keeps the first report after
    a boot: a report on a board in the boot state is read back by
    [get("ADC_SWAP")], and every later report leaves the state as it
    is. *)
Theorem adc_swap_keeps_first_report (board : db.t) (first later : bool) :
  db.adc_state board = db.adc_boot_state →
  ∃ fx,
    channel_fixture.set_bool "ADC_SWAP" first (channel_fixture.daughter_board_04 board)
    = Return fx
    ∧ channel_fixture.get_bool "ADC_SWAP" fx = Return first
    ∧ channel_fixture.set_bool "ADC_SWAP" later fx = Return fx.
Proof.
  intros Hboot. eexists. split; [reflexivity|].
  unfold channel_fixture.get_bool, channel_fixture.set_bool. cbn [String.eqb].
  change (String.eqb "ADC_SWAP" "HAS_OFFSET_DAC") with false.
  change (String.eqb "ADC_SWAP" "ADC_SWAP") with true. cbv iota.
  unfold db.get_adc_swap, db.set_adc_swap. rewrite Hboot.
  destruct first; cbn [db.adc_state]; split; reflexivity.
Qed.

Lemma adc_swap_keeps_first_report_witness :
  ∃ fx,
    channel_fixture.set_bool "ADC_SWAP" true (channel_fixture.daughter_board_04 db04_example)
    = Return fx
    ∧ channel_fixture.get_bool "ADC_SWAP" fx = Return true
    ∧ channel_fixture.set_bool "ADC_SWAP" false fx = Return fx.
Proof. apply (adc_swap_keeps_first_report db04_example true false). reflexivity. Defined.

(** ** The baselines of a module *)

(** The three loops of [analyze_channel_baselines], from channel
    [number] on. *)
Definition phases (read_adc : Z → outcome (list Z)) (number : Z) (adc_bits : list Z)
  : outcome (list channel_baseline.t) :=
  baselines ← channel_baselines.start_all number adc_bits;
  baselines ← channel_baselines.update_all read_adc number baselines;
  channel_baselines.end_all baselines.

(** Every channel's own analysis, with the trace read for it, delivers
    the channel's baseline. *)
Definition analyzed_from (read_adc : Z → outcome (list Z)) (number : Z)
  (adc_bits : list Z) (baselines : list channel_baseline.t) : Prop :=
  length baselines = length adc_bits
  ∧ ∀ (i : nat) bits,
      adc_bits !! i = Some bits →
      ∃ trace bl,
        read_adc (number + Z.of_nat i) = Return trace
        ∧ baselines !! i = Some bl
        ∧ analyze_channel (number + Z.of_nat i) bits trace = Return bl.

Lemma phases_Return (read_adc : Z → outcome (list Z)) (adc_bits : list Z) :
  ∀ number baselines,
    phases read_adc number adc_bits = Return baselines
    ↔ analyzed_from read_adc number adc_bits baselines.
Proof.
  induction adc_bits as [|bits rest IH]; intros number baselines.
  - unfold phases, analyzed_from. cbn. split.
    + intros [= <-]. split; [reflexivity|]. intros i bits Hi. discriminate.
    + intros [Hlen _]. destruct baselines; [reflexivity|discriminate].
  - split.
    + unfold phases. cbn [channel_baselines.start_all]. intros Hret.
      apply bind_Return_inv in Hret as (starts & Hstarts & Hret).
      apply bind_Return_inv in Hstarts as (started & Hstart & Hstarts).
      apply bind_Return_inv in Hstarts as (starts' & Hstarts' & Hstarts).
      injection Hstarts as <-.
      apply bind_Return_inv in Hret as (updates & Hupdates & Hends).
      cbn [channel_baselines.update_all] in Hupdates.
      apply bind_Return_inv in Hupdates as (trace & Hread & Hupdates).
      apply bind_Return_inv in Hupdates as (updated & Hupdate & Hupdates).
      apply bind_Return_inv in Hupdates as (updates' & Hupdates' & Hupdates).
      injection Hupdates as <-.
      cbn [channel_baselines.end_all] in Hends.
      apply bind_Return_inv in Hends as (ended & Hend & Hends).
      apply bind_Return_inv in Hends as (ends' & Hends' & Hends).
      injection Hends as <-.
      assert (Hrest : phases read_adc (number + 1) rest = Return ends').
      { unfold phases. rewrite Hstarts'. cbn [mbind outcome_bind].
        rewrite Hupdates'. exact Hends'. }
      apply IH in Hrest as [Hlen Heach]. split; [simpl; lia|].
      intros [|i] bits' Hi.
      * injection Hi as <-. exists trace, ended. rewrite Z.add_0_r.
        split; [exact Hread|]. split; [reflexivity|].
        unfold analyze_channel. rewrite Hstart. cbn [mbind outcome_bind].
        rewrite Hupdate. exact Hend.
      * destruct (Heach i bits' Hi) as (trace' & bl' & Hread' & Hl & Ha).
        exists trace', bl'.
        replace (number + Z.of_nat (S i)) with (number + 1 + Z.of_nat i) by lia.
        auto.
    + intros [Hlen Heach].
      destruct baselines as [|ended ends']; [discriminate|].
      destruct (Heach 0%nat bits eq_refl) as (trace & bl & Hread & [= <-] & Ha).
      rewrite Z.add_0_r in Hread, Ha.
      unfold analyze_channel in Ha.
      apply bind_Return_inv in Ha as (started & Hstart & Ha).
      apply bind_Return_inv in Ha as (updated & Hupdate & Hend).
      assert (Hrest : phases read_adc (number + 1) rest = Return ends').
      { apply IH. split; [simpl in Hlen; lia|].
        intros i bits' Hi.
        destruct (Heach (S i) bits' Hi) as (trace' & bl' & Hread' & Hl & Ha').
        exists trace', bl'.
        replace (number + 1 + Z.of_nat i) with (number + Z.of_nat (S i)) by lia.
        auto. }
      unfold phases in Hrest.
      apply bind_Return_inv in Hrest as (starts' & Hstarts' & Hrest).
      apply bind_Return_inv in Hrest as (updates' & Hupdates' & Hends').
      unfold phases. cbn [channel_baselines.start_all].
      rewrite Hstart. cbn [mbind outcome_bind]. rewrite Hstarts'.
      cbn [mbind outcome_bind mret outcome_ret channel_baselines.update_all].
      rewrite Hread. cbn [mbind outcome_bind]. rewrite Hupdate.
      cbn [mbind outcome_bind]. rewrite Hupdates'.
      cbn [mbind outcome_bind mret outcome_ret channel_baselines.end_all].
      rewrite Hend. cbn [mbind outcome_bind]. rewrite Hends'. reflexivity.
Qed.

(** X13: [analyze_channel_baselines] runs [start] for all channels, takes
    the traces, runs [update] for all channels and then [end] for all.  It
    delivers baselines exactly when [get_traces] returns, the read of every
    channel's trace returns, and the analysis of every single channel with
    the trace read for it returns; a channel's baseline is then the one of
    its own analysis. *)
Theorem analyze_channel_by_channel (adc_bits : list Z) (get_traces : outcome unit)
  (read_adc : Z → outcome (list Z)) (baselines : list channel_baseline.t) :
  channel_baselines.analyze adc_bits get_traces read_adc = Return baselines
  ↔ get_traces = Return tt
    ∧ length baselines = length adc_bits
    ∧ ∀ (i : nat) bits,
        adc_bits !! i = Some bits →
        ∃ trace bl,
          read_adc (Z.of_nat i) = Return trace
          ∧ baselines !! i = Some bl
          ∧ analyze_channel (Z.of_nat i) bits trace = Return bl.
Proof.
  pose proof (phases_Return read_adc adc_bits 0 baselines) as Hphases.
  unfold analyzed_from in Hphases. cbn [Z.add] in Hphases.
  rewrite <- Hphases. unfold channel_baselines.analyze, phases.
  destruct (channel_baselines.start_all 0 adc_bits) as [starts|e|];
    cbn [mbind outcome_bind].
  - destruct get_traces as [[]|e|]; cbn [mbind outcome_bind].
    + tauto.
    + split; [discriminate|intros [? _]; discriminate].
    + split; [discriminate|intros [? _]; discriminate].
  - split; [discriminate|intros [_ ?]; discriminate].
  - split; [discriminate|intros [_ ?]; discriminate].
Qed.

(** Two 14 bit channels: the analysis delivers their baselines, and fails
    with the error of the read of the second channel when that read
    fails. *)
Example analyze_examples :
  channel_baseline.baseline
  <$> default []
        (match channel_baselines.analyze [14; 14] (Return tt)
                 (λ number, Return (if number =? 0 then [100; 100; 102]
                                    else [3000; 3000])) with
         | Return baselines => Some baselines
         | _ => None
         end)
  = [100; 3000]
  ∧ channel_baselines.analyze [14; 14] (Return tt)
      (λ number, if number =? 0 then Return [100; 100; 102]
                 else Throw error.internal_failure)
    = Throw error.internal_failure
  ∧ channel_baselines.analyze [14; 14] (Throw error.module_offline)
      (λ number, Return [100])
    = Throw error.module_offline.
Proof. repeat split; vm_compute; reflexivity. Qed.

(** ** The ADC swap loop of [afe_dbs::boot] *)

Lemma land_lor_same (a b : Z) : Z.land a (Z.lor a b) = a.
Proof.
  apply Z.bits_inj'. intros n Hn.
  rewrite Z.land_spec, Z.lor_spec. now destruct (Z.testbit a n).
Qed.

Definition adcctrl_write (ev : hw.event) : Prop :=
  ∃ chan_db word, ev = hw.fippi_write_adcctrl chan_db word ∧ 0 ≤ chan_db < afe_dbs.max_dbs.

Lemma boot_channel_sets_bits (chan : nat) (bl_same bl_moved : channel_baseline.t)
  (self self' : afe_dbs.t) (events : list hw.event) :
  afe_dbs.boot_channel chan bl_same bl_moved self = Return (self', events) →
  length (afe_dbs.adcctrl self') = length (afe_dbs.adcctrl self)
  ∧ length (afe_dbs.channels self') = length (afe_dbs.channels self)
  ∧ (∀ d old, afe_dbs.adcctrl self !! d = Some old →
              ∃ new, afe_dbs.adcctrl self' !! d = Some new ∧ Z.land old new = old)
  ∧ Forall adcctrl_write events
  ∧ (length events ≤ 1)%nat.
Proof.
  unfold afe_dbs.boot_channel. intros Hret.
  apply bind_Return_inv in Hret as (sw & _ & Hret).
  destruct (afe_dbs.channels self !! chan) as [fx|]; [|discriminate].
  destruct sw.
  - destruct (Z.leb_spec afe_dbs.max_dbs (db.number fx)) as [|Hmax]; [discriminate|].
    destruct (Z.ltb_spec (db.number fx) 0) as [|Hmin]; [discriminate|].
    cbn [afe_dbs.adcctrl afe_dbs.channels] in Hret.
    destruct (afe_dbs.adcctrl self !! Z.to_nat (db.number fx)) as [last|] eqn:Hlast;
      [|discriminate].
    apply bind_Return_inv in Hret as (bit & _ & Hret).
    injection Hret as <- <-. cbn [afe_dbs.adcctrl afe_dbs.channels].
    rewrite !length_insert. split; [reflexivity|]. split; [reflexivity|].
    split; [|split].
    + intros d old Hold.
      destruct (decide (d = Z.to_nat (db.number fx))) as [->|Hne].
      * rewrite list_lookup_insert_eq by (eapply lookup_lt_Some; eassumption).
        eexists. split; [reflexivity|].
        rewrite Hlast in Hold. injection Hold as <-. apply land_lor_same.
      * rewrite list_lookup_insert_ne by congruence.
        exists old. split; [exact Hold|apply Z.land_diag].
    + destruct (_ =? last); constructor; [|constructor].
      exists (db.number fx), (Z.lor last (cxx.as_uint32 bit)). split; [reflexivity|lia].
    + destruct (_ =? last); simpl; lia.
  - injection Hret as <- <-. cbn [afe_dbs.adcctrl afe_dbs.channels].
    rewrite length_insert. split; [reflexivity|]. split; [reflexivity|].
    split; [|split; [constructor|simpl; lia]].
    intros d old Hold. exists old. split; [exact Hold|apply Z.land_diag].
Qed.

(** X14: the ADC swap loop of [afe_dbs::boot] keeps the number of boards
    and channels, only ever sets bits of the [adcctrl] words (every bit
    that was set stays set), and what it sends to the module are FIPPI
    writes of [ADCCTRL] for boards 0 to 3, at most one per channel. *)
Theorem boot_swap_loop_only_sets_bits (n : nat) :
  ∀ (chan : nat) (bl_same bl_moved : list channel_baseline.t)
    (self self' : afe_dbs.t) (events : list hw.event),
    afe_dbs.boot_swap_loop n chan bl_same bl_moved self = Return (self', events) →
    length (afe_dbs.adcctrl self') = length (afe_dbs.adcctrl self)
    ∧ length (afe_dbs.channels self') = length (afe_dbs.channels self)
    ∧ (∀ d old, afe_dbs.adcctrl self !! d = Some old →
                ∃ new, afe_dbs.adcctrl self' !! d = Some new ∧ Z.land old new = old)
    ∧ Forall adcctrl_write events
    ∧ (length events ≤ n)%nat.
Proof.
  induction n as [|n IH]; intros chan bl_same bl_moved self self' events Hret.
  - injection Hret as <- <-. split; [reflexivity|]. split; [reflexivity|].
    split; [|split; [constructor|simpl; lia]].
    intros d old Hold. exists old. split; [exact Hold|apply Z.land_diag].
  - cbn [afe_dbs.boot_swap_loop] in Hret.
    destruct (bl_same !! chan) as [same|]; [|discriminate].
    destruct (bl_moved !! chan) as [moved|]; [|discriminate].
    apply bind_Return_inv in Hret as ([self1 events1] & Hstep & Hret).
    apply bind_Return_inv in Hret as ([self2 events2] & Hloop & Hret).
    injection Hret as <- <-.
    apply boot_channel_sets_bits in Hstep as (Ha1 & Hc1 & Hb1 & He1 & Hn1).
    apply IH in Hloop as (Ha2 & Hc2 & Hb2 & He2 & Hn2).
    split; [congruence|]. split; [congruence|]. split; [|split].
    + intros d old Hold.
      destruct (Hb1 d old Hold) as (mid & Hmid & Hland1).
      destruct (Hb2 d mid Hmid) as (new & Hnew & Hland2).
      exists new. split; [exact Hnew|].
      rewrite <- Hland1 at 1. rewrite <- Z.land_assoc, Hland2. exact Hland1.
    + apply Forall_app. auto.
    + rewrite length_app. lia.
Qed.

(** Channels 0 and 1 of board 0 with an initial [adcctrl] word of 4. *)
Definition swap_example : afe_dbs.t :=
  {| afe_dbs.adcctrl := [4; 0; 0; 0];
     afe_dbs.channels :=
       [ {| db.number := 0; db.base := 0; db.offset := 0;
            db.adc_state := db.adc_boot_state |};
         {| db.number := 0; db.base := 0; db.offset := 1;
            db.adc_state := db.adc_boot_state |} ] |}.

Lemma boot_swap_loop_only_sets_bits_witness :
  length (afe_dbs.adcctrl
            {| afe_dbs.adcctrl := [5; 0; 0; 0];
               afe_dbs.channels :=
                 [ {| db.number := 0; db.base := 0; db.offset := 0;
                      db.adc_state := db.adc_swapped |};
                   {| db.number := 0; db.base := 0; db.offset := 1;
                      db.adc_state := db.adc_swapped |} ] |})
  = length (afe_dbs.adcctrl swap_example)
  ∧ length (afe_dbs.channels
              {| afe_dbs.adcctrl := [5; 0; 0; 0];
                 afe_dbs.channels :=
                   [ {| db.number := 0; db.base := 0; db.offset := 0;
                        db.adc_state := db.adc_swapped |};
                     {| db.number := 0; db.base := 0; db.offset := 1;
                        db.adc_state := db.adc_swapped |} ] |})
    = length (afe_dbs.channels swap_example)
  ∧ (∀ d old, afe_dbs.adcctrl swap_example !! d = Some old →
              ∃ new, [5; 0; 0; 0] !! d = Some new ∧ Z.land old new = old)
  ∧ Forall adcctrl_write [hw.fippi_write_adcctrl 0 5]
  ∧ (length [hw.fippi_write_adcctrl 0 5] ≤ 2)%nat.
Proof.
  apply (boot_swap_loop_only_sets_bits 2 0
           [baseline_of 14 100; baseline_of 14 100]
           [baseline_of 14 100; baseline_of 14 3000] swap_example).
  vm_compute. reflexivity.
Defined.

(** ** The verification of the ADC swaps *)

Lemma verify_loop_spec (bl_same bl_verify : list channel_baseline.t) (n : nat) :
  ∀ chan failed result,
    afe_dbs_boot.verify_loop n chan bl_same bl_verify failed = Return result →
    (∀ i, (chan ≤ i < chan + n)%nat →
          ∃ same verify still_swapped,
            bl_same !! i = Some same ∧ bl_verify !! i = Some verify
            ∧ afe_dbs.swapped (Z.of_nat i) same verify = Return still_swapped
            ∧ (still_swapped = true → result = true))
    ∧ (failed = true → result = true)
    ∧ (result = true →
       failed = true
       ∨ ∃ i same verify,
           (chan ≤ i < chan + n)%nat
           ∧ bl_same !! i = Some same ∧ bl_verify !! i = Some verify
           ∧ afe_dbs.swapped (Z.of_nat i) same verify = Return true).
Proof.
  induction n as [|n IH]; intros chan failed result Hret.
  - injection Hret as <-. split; [intros i Hi; lia|]. split; [auto|]. auto.
  - cbn [afe_dbs_boot.verify_loop] in Hret.
    destruct (bl_same !! chan) as [same|] eqn:Hsame; [|discriminate].
    destruct (bl_verify !! chan) as [verify|] eqn:Hverify; [|discriminate].
    apply bind_Return_inv in Hret as (sw & Hsw & Hret).
    apply IH in Hret as (Heach & Hfailed & Htrue).
    split; [|split].
    + intros i Hi. destruct (decide (i = chan)) as [->|Hne].
      * exists same, verify, sw. repeat split; try assumption.
        intros ->. apply Hfailed. apply orb_true_r.
      * apply Heach. lia.
    + intros ->. apply Hfailed. reflexivity.
    + intros Hres. destruct (Htrue Hres) as [Hor|(i & s & v & Hi & Hs & Hv & Hsw')].
      * apply orb_true_iff in Hor as [Hf| ->]; [left; exact Hf|].
        right. exists chan, same, verify. repeat split; try assumption; lia.
      * right. exists i, s, v. repeat split; try assumption; lia.
Qed.

(** X15: [afe_dbs::boot] gets past its verification only when, in the
    baselines measured after the swap loop, no channel tests as swapped any
    more: an even channel then differs from its low rail baseline, an odd
    one is within the noise range of it.  What was sent is the [ADCCTRL]
    writes of the swap loop followed by the reset of the offsets. *)
Theorem boot_returns_only_when_verified (num_channels : nat)
  (bl_same bl_moved : list channel_baseline.t)
  (analyzed : list hw.event → outcome (list channel_baseline.t))
  (zero_offsets : outcome (list hw.event))
  (self self' : afe_dbs.t) (events : list hw.event) :
  afe_dbs_boot.swap_and_verify num_channels bl_same bl_moved analyzed zero_offsets self
  = Return (self', events) →
  ∃ swap_events bl_verify settle,
    afe_dbs.boot_swap_loop num_channels 0 bl_same bl_moved self
    = Return (self', swap_events)
    ∧ analyzed swap_events = Return bl_verify
    ∧ zero_offsets = Return settle
    ∧ events = swap_events ++ settle
    ∧ ∀ chan, (chan < num_channels)%nat →
        ∃ same verify,
          bl_same !! chan = Some same ∧ bl_verify !! chan = Some verify
          ∧ afe_dbs.swapped (Z.of_nat chan) same verify = Return false.
Proof.
  unfold afe_dbs_boot.swap_and_verify. intros Hret.
  apply bind_Return_inv in Hret as ([self1 events1] & Hswap & Hret).
  apply bind_Return_inv in Hret as (failed & Hverify & Hret).
  apply bind_Return_inv in Hret as (settle & Hzero & Hret).
  cbn [afe_dbs_boot.adc_swap_verify] in Hverify.
  change afe_dbs_boot.adc_swap_verify with true in Hverify. cbv iota in Hverify.
  apply bind_Return_inv in Hverify as (bl_verify & Hanalyzed & Hverify).
  destruct failed; [discriminate|]. injection Hret as <- <-.
  exists events1, bl_verify, settle.
  split; [exact Hswap|]. split; [exact Hanalyzed|]. split; [exact Hzero|].
  split; [reflexivity|].
  intros chan Hchan.
  destruct (verify_loop_spec _ _ _ _ _ _ Hverify) as (Heach & _ & _).
  destruct (Heach chan ltac:(lia)) as (same & verify & sw & Hs & Hv & Hsw & Himp).
  exists same, verify. split; [exact Hs|]. split; [exact Hv|].
  destruct sw; [|exact Hsw]. specialize (Himp eq_refl). discriminate.
Qed.

(** X16: when some channel still tests as swapped in the verification
    measurement, [afe_dbs::boot] throws [module_initialize_failure], after
    it has reset the offsets. *)
Theorem boot_fails_when_still_swapped (num_channels : nat)
  (bl_same bl_moved bl_verify : list channel_baseline.t)
  (analyzed : list hw.event → outcome (list channel_baseline.t))
  (settle swap_events : list hw.event)
  (self self' : afe_dbs.t) (chan : nat) (same verify : channel_baseline.t)
  (verified : bool) :
  afe_dbs.boot_swap_loop num_channels 0 bl_same bl_moved self
  = Return (self', swap_events) →
  analyzed swap_events = Return bl_verify →
  afe_dbs_boot.verify_loop num_channels 0 bl_same bl_verify false = Return verified →
  (chan < num_channels)%nat →
  bl_same !! chan = Some same →
  bl_verify !! chan = Some verify →
  afe_dbs.swapped (Z.of_nat chan) same verify = Return true →
  afe_dbs_boot.swap_and_verify num_channels bl_same bl_moved analyzed
    (Return settle) self
  = Throw error.module_initialize_failure.
Proof.
  intros Hswap Hanalyzed Hverify Hchan Hsame Hver Hsw.
  unfold afe_dbs_boot.swap_and_verify. rewrite Hswap. cbn [mbind outcome_bind].
  change afe_dbs_boot.adc_swap_verify with true. cbv iota.
  rewrite Hanalyzed. cbn [mbind outcome_bind]. rewrite Hverify.
  cbn [mbind outcome_bind].
  destruct (verify_loop_spec _ _ _ _ _ _ Hverify) as (Heach & _ & _).
  destruct (Heach chan ltac:(lia)) as (s & v & sw & Hs & Hv & Hsw' & Himp).
  rewrite Hsame in Hs. injection Hs as <-.
  rewrite Hver in Hv. injection Hv as <-.
  rewrite Hsw in Hsw'. injection Hsw' as <-.
  rewrite (Himp eq_refl). reflexivity.
Qed.

Lemma boot_returns_only_when_verified_witness :
  ∃ swap_events bl_verify settle,
    afe_dbs.boot_swap_loop 2 0 [baseline_of 14 100; baseline_of 14 100]
      [baseline_of 14 3000; baseline_of 14 100] swap_example
    = Return (afe_dbs.Build [4; 0; 0; 0]
                [db.set_adc_swap false
                   {| db.number := 0; db.base := 0; db.offset := 0;
                      db.adc_state := db.adc_boot_state |};
                 db.set_adc_swap false
                   {| db.number := 0; db.base := 0; db.offset := 1;
                      db.adc_state := db.adc_boot_state |}],
              swap_events)
    ∧ (λ _, Return [baseline_of 14 3000; baseline_of 14 100]) swap_events
      = Return bl_verify
    ∧ Return [hw.wait 250000] = Return settle
    ∧ [hw.wait 250000] = swap_events ++ settle
    ∧ ∀ chan, (chan < 2)%nat →
        ∃ same verify,
          [baseline_of 14 100; baseline_of 14 100] !! chan = Some same
          ∧ bl_verify !! chan = Some verify
          ∧ afe_dbs.swapped (Z.of_nat chan) same verify = Return false.
Proof.
  apply (boot_returns_only_when_verified 2
           [baseline_of 14 100; baseline_of 14 100]
           [baseline_of 14 3000; baseline_of 14 100]
           (λ _, Return [baseline_of 14 3000; baseline_of 14 100])
           (Return [hw.wait 250000]) swap_example).
  vm_compute. reflexivity.
Defined.

Lemma boot_fails_when_still_swapped_witness :
  afe_dbs_boot.swap_and_verify 2 [baseline_of 14 100; baseline_of 14 100]
    [baseline_of 14 100; baseline_of 14 3000]
    (λ _, Return [baseline_of 14 100; baseline_of 14 100])
    (Return [hw.wait 250000]) swap_example
  = Throw error.module_initialize_failure.
Proof.
  apply (boot_fails_when_still_swapped 2
           [baseline_of 14 100; baseline_of 14 100]
           [baseline_of 14 100; baseline_of 14 3000]
           [baseline_of 14 100; baseline_of 14 100]
           (λ _, Return [baseline_of 14 100; baseline_of 14 100])
           [hw.wait 250000] [hw.fippi_write_adcctrl 0 5] swap_example
           (afe_dbs.Build [5; 0; 0; 0]
              [db.set_adc_swap true
                 {| db.number := 0; db.base := 0; db.offset := 0;
                    db.adc_state := db.adc_boot_state |};
               db.set_adc_swap true
                 {| db.number := 0; db.base := 0; db.offset := 1;
                    db.adc_state := db.adc_boot_state |}])
           0%nat (baseline_of 14 100) (baseline_of 14 100) true).
  - vm_compute. reflexivity.
  - reflexivity.
  - vm_compute. reflexivity.
  - lia.
  - reflexivity.
  - reflexivity.
  - vm_compute. reflexivity.
Defined.

(** ** The runs of [afe_dbs::adjust_offsets] *)

(** What the channel step tells about a channel it leaves alone. *)
Definition on_target (has_offset_dac : bool) (bl : channel_baseline.t)
  (bl_percent : float) : Prop :=
  has_offset_dac = true →
  ∃ target, afe_dbs.adc_target bl bl_percent = Return target
            ∧ channel_baseline.operator_ne_int bl target = Return false.

Lemma adjust_channel_quiet (fx : db.t) (has : bool) (bl : channel_baseline.t)
  (pct : float) (bl_fit bl_fit' : linear_fit.t) (dac dac' : Z)
  (events : list hw.event) :
  afe_dbs.adjust_channel fx has bl pct bl_fit dac
  = Return (bl_fit', dac', events, false) →
  bl_fit' = bl_fit ∧ dac' = dac ∧ events = [] ∧ on_target has bl pct.
Proof.
  unfold afe_dbs.adjust_channel, on_target. intros Hret.
  destruct has.
  - apply bind_Return_inv in Hret as (target & Htarget & Hret).
    apply bind_Return_inv in Hret as (ne & Hne & Hret).
    destruct ne.
    + apply bind_Return_inv in Hret as (fit1 & _ & Hret).
      apply bind_Return_inv in Hret as ([fit2 dac2] & _ & Hret).
      apply bind_Return_inv in Hret as (ev & _ & Hret). discriminate.
    + injection Hret as <- <- <-. repeat split. intros _. eauto.
  - injection Hret as <- <- <-. repeat split. discriminate.
Qed.

Lemma adjust_channels_run_again (fixtures : list db.t) (has : list bool)
  (baselines : list channel_baseline.t) (bl_percents : list float) (n : nat) :
  ∀ chan st st',
    afe_dbs.adjust_channels n chan fixtures has baselines bl_percents st
    = Return st' →
    afe_dbs.run_again st = true → afe_dbs.run_again st' = true.
Proof.
  induction n as [|n IH]; intros chan st st' Hret Hagain.
  - injection Hret as <-. exact Hagain.
  - cbn [afe_dbs.adjust_channels] in Hret.
    destruct (fixtures !! chan) as [fx|]; [|discriminate].
    destruct (has !! chan) as [has_i|]; [|discriminate].
    destruct (baselines !! chan) as [bl|]; [|discriminate].
    destruct (bl_percents !! chan) as [pct|]; [|discriminate].
    destruct (afe_dbs.bl_fits st !! chan) as [fit|]; [|discriminate].
    destruct (afe_dbs.offsetdacs st !! chan) as [dac|]; [|discriminate].
    apply bind_Return_inv in Hret as ([[[fit' dac'] events] again] & _ & Hret).
    apply IH in Hret; [exact Hret|].
    cbn [afe_dbs.run_again]. rewrite Hagain. reflexivity.
Qed.

Lemma adjust_channels_quiet (fixtures : list db.t) (has : list bool)
  (baselines : list channel_baseline.t) (bl_percents : list float) (n : nat) :
  ∀ chan st st',
    afe_dbs.adjust_channels n chan fixtures has baselines bl_percents st
    = Return st' →
    afe_dbs.run_again st' = false →
    afe_dbs.sent st' = afe_dbs.sent st
    ∧ afe_dbs.offsetdacs st' = afe_dbs.offsetdacs st
    ∧ afe_dbs.bl_fits st' = afe_dbs.bl_fits st
    ∧ ∀ i, (chan ≤ i < chan + n)%nat →
           ∃ has_offset_dac bl pct,
             has !! i = Some has_offset_dac ∧ baselines !! i = Some bl
             ∧ bl_percents !! i = Some pct ∧ on_target has_offset_dac bl pct.
Proof.
  induction n as [|n IH]; intros chan st st' Hret Hquiet.
  - injection Hret as <-. repeat split. intros i Hi. lia.
  - cbn [afe_dbs.adjust_channels] in Hret.
    destruct (fixtures !! chan) as [fx|]; [|discriminate].
    destruct (has !! chan) as [has_i|] eqn:Hhas; [|discriminate].
    destruct (baselines !! chan) as [bl|] eqn:Hbl; [|discriminate].
    destruct (bl_percents !! chan) as [pct|] eqn:Hpct; [|discriminate].
    destruct (afe_dbs.bl_fits st !! chan) as [fit|] eqn:Hfit; [|discriminate].
    destruct (afe_dbs.offsetdacs st !! chan) as [dac|] eqn:Hdac; [|discriminate].
    apply bind_Return_inv in Hret as ([[[fit' dac'] events] again] & Hstep & Hret).
    destruct again.
    + apply adjust_channels_run_again in Hret; [congruence|].
      cbn [afe_dbs.run_again]. apply orb_true_r.
    + apply adjust_channel_quiet in Hstep as (-> & -> & -> & Hon).
      destruct (IH _ _ _ Hret Hquiet) as (Hsent & Hdacs & Hfits & Heach).
      cbn [afe_dbs.sent afe_dbs.offsetdacs afe_dbs.bl_fits] in Hsent, Hdacs, Hfits.
      rewrite app_nil_r in Hsent.
      rewrite list_insert_id in Hdacs by exact Hdac.
      rewrite list_insert_id in Hfits by exact Hfit.
      split; [exact Hsent|]. split; [exact Hdacs|]. split; [exact Hfits|].
      intros i Hi. destruct (decide (i = chan)) as [->|Hne].
      * exists has_i, bl, pct. auto.
      * apply Heach. lia.
Qed.

Section run_loop_facts.
Variable get_traces : Z → list hw.event → outcome unit.
Variable read_adc : Z → list hw.event → Z → outcome (list Z).
Variable adc_bits : list Z.
Variable boards : list db.t.
Variable bl_percents : list float.

Lemma run_loop_stopped (n : nat) (run : Z) (has : list bool)
  (st : afe_dbs.run_state) :
  afe_dbs.run_again st = false →
  adjust_offsets.run_loop get_traces read_adc adc_bits boards bl_percents n run has st
  = Return (st, run).
Proof. intros Hstop. destruct n; [reflexivity|]. simpl. now rewrite Hstop. Qed.

(** X17: the runs of [afe_dbs::adjust_offsets].  At least one and at most
    [n] measurements are made ([n] is 10); the loop gives up with
    [run_again] still set only after all of them; and when it stops with
    [run_again] clear, the last measurement, taken with everything that
    was sent to the DACs in effect, showed every channel with an offset
    DAC within the noise range of its target. *)
Theorem adjust_offsets_stops_on_target (n : nat) :
  ∀ (run : Z) (has : list bool) (st st' : afe_dbs.run_state) (run' : Z),
    adjust_offsets.run_loop get_traces read_adc adc_bits boards bl_percents n run has st
    = Return (st', run') →
    afe_dbs.run_again st = true →
    (0 < n)%nat →
    run < run' ≤ run + Z.of_nat n
    ∧ (afe_dbs.run_again st' = true → run' = run + Z.of_nat n)
    ∧ (afe_dbs.run_again st' = false →
       ∃ baselines,
         channel_baselines.analyze adc_bits
           (get_traces (run' - 1) (afe_dbs.sent st'))
           (read_adc (run' - 1) (afe_dbs.sent st'))
         = Return baselines
         ∧ ∀ chan, (chan < length boards)%nat →
             ∃ has_offset_dac bl pct,
               has !! chan = Some has_offset_dac ∧ baselines !! chan = Some bl
               ∧ bl_percents !! chan = Some pct
               ∧ on_target has_offset_dac bl pct).
Proof.
  induction n as [|n IH]; intros run has st st' run' Hret Hagain Hn; [lia|].
  cbn [adjust_offsets.run_loop] in Hret. rewrite Hagain in Hret.
  apply bind_Return_inv in Hret as (baselines & Hanalyze & Hret).
  apply bind_Return_inv in Hret as (st1 & Hchannels & Hret).
  apply bind_Return_inv in Hret as (events & Hwait & Hret).
  destruct (afe_dbs.run_again st1) eqn:Hagain1.
  - destruct n as [|n].
    + injection Hret as <- <-. split; [lia|]. split; [intros _; lia|].
      cbn [adjust_offsets.send afe_dbs.run_again]. congruence.
    + apply IH in Hret as (Hrun & Hall & Hstop); [|exact Hagain1|lia].
      split; [lia|]. split; [intros H; specialize (Hall H); lia|exact Hstop].
  - injection Hwait as <-.
    rewrite run_loop_stopped in Hret by exact Hagain1.
    injection Hret as <- <-. split; [lia|].
    cbn [adjust_offsets.send afe_dbs.run_again afe_dbs.sent].
    split; [congruence|]. intros _.
    destruct (adjust_channels_quiet _ _ _ _ _ _ _ _ Hchannels Hagain1)
      as (Hsent & _ & _ & Heach).
    cbn [adjust_offsets.clear_run_again afe_dbs.sent] in Hsent.
    exists baselines. rewrite app_nil_r, Hsent.
    replace (run + 1 - 1) with run by lia.
    split; [exact Hanalyze|]. intros chan Hchan. apply Heach. lia.
Qed.

End run_loop_facts.

(** A module with one DB04 channel that reads 3000 in the first run and
    1638, the target at 10 percent of 14 bits, afterwards. *)
Definition settling_module (run : Z) (sent : list hw.event) (number : Z)
  : outcome (list Z) :=
  Return (if run =? 0 then replicate 4 3000 else replicate 4 1638).

Definition traces_taken (run : Z) (sent : list hw.event) : outcome unit :=
  Return tt.

Definition adjust_start : afe_dbs.run_state :=
  {| afe_dbs.bl_fits := [linear_fit.new];
     afe_dbs.offsetdacs := [32768];
     afe_dbs.run_again := true;
     afe_dbs.sent := [] |}.

Definition adjust_settled : afe_dbs.run_state :=
  {| afe_dbs.bl_fits :=
       [ {| linear_fit.k := 0; linear_fit.c := 0;
            linear_fit.sum_x := 3000; linear_fit.sum_y := 32768;
            linear_fit.sum_xy := 98304000; linear_fit.sum_x_sq := 9000000;
            linear_fit.count := 1 |} ];
     afe_dbs.offsetdacs := [32968];
     afe_dbs.run_again := false;
     afe_dbs.sent :=
       [hw.select_port 1; hw.write_word hw.CFG_DAC 573669576; hw.wait 6000;
        hw.wait 250000] |}.

Lemma adjust_offsets_stops_on_target_witness :
  0 < 2 ≤ 0 + Z.of_nat 10
  ∧ (afe_dbs.run_again adjust_settled = true → 2 = 0 + Z.of_nat 10)
  ∧ (afe_dbs.run_again adjust_settled = false →
     ∃ baselines,
       channel_baselines.analyze [14]
         (traces_taken (2 - 1) (afe_dbs.sent adjust_settled))
         (settling_module (2 - 1) (afe_dbs.sent adjust_settled))
       = Return baselines
       ∧ ∀ chan,
           (chan < length [db04_example])%nat →
           ∃ has_offset_dac bl pct,
             [true] !! chan = Some has_offset_dac ∧ baselines !! chan = Some bl
             ∧ [10%float] !! chan = Some pct
             ∧ on_target has_offset_dac bl pct).
Proof.
  apply (adjust_offsets_stops_on_target traces_taken settling_module [14]
           [db04_example] [10%float] 10 0 [true] adjust_start adjust_settled 2).
  - vm_compute. reflexivity.
  - reflexivity.
  - lia.
Defined.

(** ** More of the crate *)

Section crate_more_facts.
Context `{crate.collaborators}.

Lemma all_modules_valid (mods : list module.t) :
  NoDup (Z.to_nat <$> seqZ 0 (Z.of_nat (length mods)))
  ∧ Forall (λ mod_num, (Z.to_nat mod_num < length mods)%nat)
      (seqZ 0 (Z.of_nat (length mods))).
Proof.
  split.
  - apply NoDup_fmap_2_strong; [|apply NoDup_seqZ].
    intros x y Hx Hy Heq. apply elem_of_seqZ in Hx, Hy. lia.
  - apply Forall_forall. intros x Hx. apply elem_of_seqZ in Hx. lia.
Qed.

Lemma online_targets (mods : list module.t) (i : nat) :
  i ∈ targets (λ m, negb (module.online m)) mods (seqZ 0 (Z.of_nat (length mods)))
  ↔ ∃ m, mods !! i = Some m ∧ module.online m = true.
Proof.
  unfold targets. rewrite list_elem_of_omap. split.
  - intros (mod_num & Hin & Hsome).
    destruct (mods !! Z.to_nat mod_num) as [m|] eqn:Hm; [|discriminate].
    cbn [mbind option_bind] in Hsome.
    destruct (module.online m) eqn:Hon; [|discriminate].
    injection Hsome as <-. eauto.
  - intros (m & Hm & Hon). exists (Z.of_nat i). split.
    + apply elem_of_seqZ. apply lookup_lt_Some in Hm. lia.
    + rewrite Nat2Z.id, Hm. cbn [mbind option_bind]. now rewrite Hon.
Qed.

(** X18: [initialize_afe] runs [sync_hw] on the online modules and on no
    other, each in a worker of its own, and joins them all: every online
    module is left as its [sync_hw] left it.  It throws the first code
    other than [success] that a worker reported, in module order, and
    returns when there is none. *)
Theorem initialize_afe_reports_first_error (self : crate.t) :
  crate.ready_ self = true →
  let workers :=
    targets (λ m, negb (module.online m)) (crate.modules self)
      (seqZ 0 (Z.of_nat (length (crate.modules self)))) in
  (∀ n m, n ∈ workers → crate.modules self !! n = Some m →
          snd (crate.module_sync_hw m) ≠ Fault) →
  let codes :=
    omap (λ n, (λ m, code_of (snd (crate.module_sync_hw m)))
                 <$> crate.modules self !! n) workers in
  let self' := fst (crate.initialize_afe self) in
  (∀ i, i ∈ workers
        ↔ ∃ m, crate.modules self !! i = Some m ∧ module.online m = true)
  ∧ (∀ i, crate.modules self' !! i
          = if bool_decide (i ∈ workers)
            then (λ m, fst (crate.module_sync_hw m)) <$> crate.modules self !! i
            else crate.modules self !! i)
  ∧ snd (crate.initialize_afe self)
    = match first_error codes with
      | Some e => Throw e
      | None => Return tt
      end.
Proof.
  intros Hready workers Hok codes self'.
  destruct (all_modules_valid (crate.modules self)) as [Hnd Hrange].
  assert (Hspawn : crate.spawn (λ m, negb (module.online m)) (crate.modules self)
                     (seqZ 0 (Z.of_nat (length (crate.modules self)))) []
                   = Some workers).
  { rewrite spawn_targets; [reflexivity|assumption..|].
    intros k _. apply not_elem_of_nil. }
  pose proof (run_workers_spec crate.module_sync_hw workers (crate.modules self)
                (targets_NoDup _ _ _ Hnd)) as [Hps Hmods].
  rewrite (promises_of_workers _ _ _ Hok) in Hps. fold codes in Hps.
  split; [intros i; apply online_targets|].
  unfold self', crate.initialize_afe, crate.ready. rewrite Hready.
  cbv zeta. rewrite Hspawn.
  destruct (crate.run_workers crate.module_sync_hw workers (crate.modules self))
    as [mods' futures].
  cbn [fst snd] in Hps, Hmods. subst futures.
  rewrite join_first_error.
  change (error.code_eqb error.success error.success) with true. cbv iota.
  destruct (first_error codes) as [e|] eqn:Hfirst; cbn [default]; unfold id.
  - apply first_error_not_success, code_eqb_neq in Hfirst. rewrite Hfirst.
    cbn [fst snd]. auto.
  - change (error.code_eqb error.success error.success) with true.
    cbn [fst snd]. auto.
Qed.

Lemma probe_all_returns (mods : list module.t) :
  ∀ online,
    Forall (λ m, snd (crate.module_probe m) = Return tt) mods →
    crate.probe_all mods online
    = ((λ m, fst (crate.module_probe m)) <$> mods,
       Return (online
               + Z.of_nat (length (filter (λ m, module.online m = true)
                                     ((λ m, fst (crate.module_probe m)) <$> mods))))).
Proof.
  induction mods as [|m mods IH]; intros online Hok.
  - simpl. now rewrite Z.add_0_r.
  - apply Forall_cons in Hok as [Hm Hok].
    cbn [crate.probe_all]. destruct (crate.module_probe m) as [m' r] eqn:Hp.
    cbn [snd] in Hm. subst r. rewrite IH by exact Hok.
    rewrite fmap_cons, Hp. cbn [fst]. f_equal. f_equal.
    rewrite filter_cons. destruct (module.online m') eqn:Hon.
    + rewrite decide_True by reflexivity. cbn [length]. lia.
    + rewrite decide_False by discriminate. reflexivity.
Qed.

Lemma filter_all_length {A} (P : A → Prop) `{∀ x, Decision (P x)} (l : list A) :
  length (filter P l) = length l ↔ Forall P l.
Proof.
  induction l as [|x l IH].
  - split; [constructor|reflexivity].
  - rewrite filter_cons. pose proof (length_filter P l) as Hle.
    destruct (decide (P x)) as [Hx|Hx].
    + cbn [length]. rewrite Forall_cons. split.
      * intros Hlen. split; [exact Hx|]. apply IH. lia.
      * intros [_ Hall]. f_equal. now apply IH.
    + cbn [length]. rewrite Forall_cons. split; [lia|tauto].
Qed.

(** X19: [probe] on a ready crate whose [num_modules] is the size of the
    online list, when every [module::probe] returns: all modules are
    probed, the backplane is reinitialised with the probed modules, and the
    result is [true] exactly when every module is online after its
    probe. *)
Theorem probe_true_iff_all_online (self : crate.t) :
  crate.ready_ self = true →
  crate.num_modules self = Z.of_nat (length (crate.modules self)) →
  Forall (λ m, snd (crate.module_probe m) = Return tt) (crate.modules self) →
  let probed := (λ m, fst (crate.module_probe m)) <$> crate.modules self in
  crate.modules (fst (crate.probe self)) = probed
  ∧ crate.the_backplane (fst (crate.probe self))
    = crate.backplane_reinit probed (crate.offline self) (crate.the_backplane self)
  ∧ ∃ result,
      snd (crate.probe self) = Return result
      ∧ (result = true ↔ Forall (λ m, module.online m = true) probed).
Proof.
  intros Hready Hnum Hok probed.
  unfold crate.probe, crate.ready. rewrite Hready.
  rewrite probe_all_returns by exact Hok. fold probed.
  cbn [fst snd crate.reinit_backplane crate.set_modules crate.modules
       crate.the_backplane crate.offline crate.num_modules].
  split; [reflexivity|]. split; [reflexivity|].
  eexists. split; [reflexivity|].
  pose proof (filter_all_length (λ m, module.online m = true) probed) as Hall.
  assert (Hlen : length probed = length (crate.modules self))
    by apply length_fmap.
  rewrite Z.eqb_eq, Hnum, <- Hall, Hlen. lia.
Qed.

(** X20: after [shutdown] the crate has no modules and is not ready, also
    when [shutdown] throws; [probe], [initialize_afe] and [boot] then throw
    [crate_not_ready].  [num_modules] keeps its value, so [operator[]] and
    the [module_handle] constructor still accept the old module numbers and
    read the emptied module list. *)
Theorem shutdown_closes_crate (self : crate.t) :
  Forall (λ m, snd (crate.module_close m) ≠ Fault) (crate.modules self) →
  crate.num_modules self < 2 ^ 64 →
  let self' := fst (crate.shutdown self) in
  crate.modules self' = []
  ∧ crate.ready_ self' = false
  ∧ crate.num_modules self' = crate.num_modules self
  ∧ snd (crate.probe self') = Throw error.crate_not_ready
  ∧ snd (crate.initialize_afe self') = Throw error.crate_not_ready
  ∧ snd (crate.boot crate.default_boot_params self') = Throw error.crate_not_ready
  ∧ ∀ number check,
      0 ≤ number < crate.num_modules self →
      crate_modules.index number self' = Fault
      ∧ snd (crate_modules.module_handle number check self') = Fault.
Proof.
  intros Hok Hsize self'.
  assert (Hself' : ∃ r, crate.shutdown self
                        = (crate.set_ready false (crate.set_modules [] self), r)).
  { unfold crate.shutdown.
    pose proof (close_all_keeps_last _ error.success Hok) as Hlast.
    destruct (crate.close_all (crate.modules self) error.success) as [mods' r].
    cbn [snd] in Hlast. subst r.
    destruct (error.code_eqb _ error.success); eauto. }
  destruct Hself' as [r Hshut]. unfold self'. rewrite Hshut. cbn [fst].
  set (closed := crate.set_ready false (crate.set_modules [] self)).
  assert (Hready : crate.ready_ closed = false) by reflexivity.
  destruct (entrypoints_check_ready closed Hready) as (Hprobe & Hafe & Hboot).
  split; [reflexivity|]. split; [reflexivity|]. split; [reflexivity|].
  split; [exact Hprobe|]. split; [exact Hafe|].
  split; [apply (Hboot crate.default_boot_params []); reflexivity|].
  intros number check Hnumber.
  assert (Hindex : crate_modules.index number closed = Fault).
  { unfold crate_modules.index. rewrite Z.mod_small by lia.
    change (crate.num_modules closed) with (crate.num_modules self).
    destruct (Z.leb_spec (crate.num_modules self) number); [lia|].
    reflexivity. }
  split; [exact Hindex|].
  unfold crate_modules.module_handle. now rewrite Hindex.
Qed.

(** X21: [module_handle] hands out a module only for a number below
    [num_modules], on a ready crate, and when the module passes the check
    asked for; the number is looked at before the ready flag.  The user
    count of the crate is one higher when a handle was made and unchanged
    when the constructor failed; nothing else of the crate changes. *)
Theorem module_handle_counts_users (number : Z) (check : crate_modules.checks)
  (self : crate.t) :
  let result := crate_modules.module_handle number check self in
  crate.modules (fst result) = crate.modules self
  ∧ crate.offline (fst result) = crate.offline self
  ∧ crate.num_modules (fst result) = crate.num_modules self
  ∧ crate.ready_ (fst result) = crate.ready_ self
  ∧ (crate.num_modules self ≤ number mod 2 ^ 64 →
     snd result = Throw error.module_number_invalid)
  ∧ match snd result with
    | Return handle =>
        crate.users_ (fst result) = crate.users_ self + 1
        ∧ number mod 2 ^ 64 < crate.num_modules self
        ∧ crate.modules self !! Z.to_nat (number mod 2 ^ 64) = Some handle
        ∧ crate.ready_ self = true
        ∧ match check with
          | crate_modules.online => module.online handle = true
          | crate_modules.present => module.present handle = true
          | crate_modules.none => True
          end
    | _ => crate.users_ (fst result) = crate.users_ self
    end.
Proof.
  unfold crate_modules.module_handle, crate_modules.index, crate.ready.
  cbv zeta.
  destruct (Z.leb_spec (crate.num_modules self) (number mod 2 ^ 64)) as [Hbig|Hok].
  - cbn [fst snd]. repeat split; auto.
  - destruct (crate.modules self !! Z.to_nat (number mod 2 ^ 64)) as [handle|] eqn:Hm.
    + cbn [crate_modules.set_users crate.ready_ crate.users_].
      destruct (crate.ready_ self) eqn:Hready.
      * destruct check.
        -- destruct (module.online handle) eqn:Hon; cbn [fst snd];
             cbn [crate_modules.set_users crate.modules crate.offline
                  crate.num_modules crate.ready_ crate.users_];
             repeat split; auto; lia.
        -- destruct (module.present handle) eqn:Hon; cbn [fst snd];
             cbn [crate_modules.set_users crate.modules crate.offline
                  crate.num_modules crate.ready_ crate.users_];
             repeat split; auto; lia.
        -- cbn [fst snd];
             cbn [crate_modules.set_users crate.modules crate.offline
                  crate.num_modules crate.ready_ crate.users_];
             repeat split; auto; lia.
      * cbn [fst snd];
          cbn [crate_modules.set_users crate.modules crate.offline
               crate.num_modules crate.ready_ crate.users_];
          repeat split; auto; lia.
    + cbn [fst snd]. repeat split; auto; lia.
Qed.

(** X22: [crate::find] delivers the first module with the slot in the
    online list followed by the offline list, and throws
    [module_number_invalid] exactly when no module of either list has
    the slot. *)
Theorem find_searches_online_first (slot_ : Z) (self : crate.t) :
  crate_modules.find slot_ self
  = match crate_modules.find_slot slot_ (crate.modules self ++ crate.offline self) with
    | Some m => Return m
    | None => Throw error.module_number_invalid
    end
  ∧ (∀ m, crate_modules.find slot_ self = Return m →
          module.slot m = slot_ ∧ m ∈ crate.modules self ++ crate.offline self)
  ∧ (crate_modules.find slot_ self = Throw error.module_number_invalid
     ↔ ∀ m, m ∈ crate.modules self ++ crate.offline self → module.slot m ≠ slot_).
Proof.
  assert (Happ : ∀ a b, crate_modules.find_slot slot_ (a ++ b)
                        = match crate_modules.find_slot slot_ a with
                          | Some m => Some m
                          | None => crate_modules.find_slot slot_ b
                          end).
  { intros a b. induction a as [|m a IH]; [reflexivity|].
    cbn [app crate_modules.find_slot]. now destruct (module.slot m =? slot_). }
  assert (Hsome : ∀ l m, crate_modules.find_slot slot_ l = Some m →
                         module.slot m = slot_ ∧ m ∈ l).
  { intros l m. induction l as [|m' l IH]; [discriminate|].
    cbn [crate_modules.find_slot].
    destruct (Z.eqb_spec (module.slot m') slot_) as [Heq|Hne].
    - intros [= <-]. split; [exact Heq|left].
    - intros Hf. destruct (IH Hf). split; [assumption|now right]. }
  assert (Hnone : ∀ l, crate_modules.find_slot slot_ l = None
                       ↔ ∀ m, m ∈ l → module.slot m ≠ slot_).
  { intros l. induction l as [|m' l IH].
    - split; [intros _ m Hm; now apply not_elem_of_nil in Hm|reflexivity].
    - cbn [crate_modules.find_slot].
      destruct (Z.eqb_spec (module.slot m') slot_) as [Heq|Hne].
      + split; [discriminate|]. intros Hall.
        destruct (Hall m' ltac:(left) Heq).
      + rewrite IH. split.
        * intros Hall m Hm. apply elem_of_cons in Hm as [->|Hm]; auto.
        * intros Hall m Hm. apply Hall. now right. }
  assert (Hfind : crate_modules.find slot_ self
                  = match crate_modules.find_slot slot_
                            (crate.modules self ++ crate.offline self) with
                    | Some m => Return m
                    | None => Throw error.module_number_invalid
                    end).
  { unfold crate_modules.find. rewrite Happ.
    now destruct (crate_modules.find_slot slot_ (crate.modules self)). }
  split; [exact Hfind|]. rewrite Hfind. split.
  - intros m.
    destruct (crate_modules.find_slot slot_ _) as [m'|] eqn:Hf; [|discriminate].
    intros [= <-]. now apply Hsome.
  - rewrite <- Hnone.
    destruct (crate_modules.find_slot slot_ _) as [m'|]; split;
      (discriminate || reflexivity).
Qed.

Section offline_facts.
Variable backplane_offline : module.t → crate.backplane → crate.backplane.

Definition onlines (mods : list module.t) : list module.t :=
  filter (λ m, module.online m = true) mods.

Definition offlines (mods : list module.t) : list module.t :=
  filter (λ m, module.online m = false) mods.

Lemma move_first_Some (mods rest : list module.t) (moved : module.t) :
  crate_modules.move_first mods = Some (moved, rest) →
  onlines rest = onlines mods ∧ offlines mods = moved :: offlines rest.
Proof.
  revert rest. induction mods as [|m mods IH]; intros rest; [discriminate|].
  cbn [crate_modules.move_first]. unfold onlines, offlines.
  rewrite !filter_cons. destruct (module.online m) eqn:Hon.
  - destruct (crate_modules.move_first mods) as [[moved' rest']|]; [|discriminate].
    intros [= <- <-]. destruct (IH rest' eq_refl) as [Hon' Hoff'].
    rewrite decide_True by reflexivity. rewrite decide_False by discriminate.
    unfold onlines, offlines in Hon', Hoff'.
    rewrite !filter_cons, Hon. rewrite decide_True by reflexivity.
    rewrite decide_False by discriminate. rewrite Hon'. auto.
  - intros [= <- <-]. rewrite decide_False by discriminate.
    rewrite decide_True by reflexivity. auto.
Qed.

Lemma move_first_None (mods : list module.t) :
  crate_modules.move_first mods = None →
  onlines mods = mods ∧ offlines mods = [].
Proof.
  induction mods as [|m mods IH]; [auto|].
  cbn [crate_modules.move_first]. unfold onlines, offlines.
  rewrite !filter_cons. destruct (module.online m) eqn:Hon; [|discriminate].
  destruct (crate_modules.move_first mods) as [[moved' rest']|]; [discriminate|].
  intros _. destruct (IH eq_refl) as [Hon' Hoff'].
  rewrite decide_True by reflexivity. rewrite decide_False by discriminate.
  unfold onlines, offlines in Hon', Hoff'. rewrite Hon', Hoff'. auto.
Qed.

(** The crate [move_offlines] leaves behind. *)
Definition moved_offline (self : crate.t) : crate.t :=
  {| crate.num_modules := Z.of_nat (length (onlines (crate.modules self)));
     crate.revision := crate.revision self;
     crate.the_backplane :=
       fold_left (λ bp m, backplane_offline m bp) (offlines (crate.modules self))
         (crate.the_backplane self);
     crate.modules := onlines (crate.modules self);
     crate.offline := crate.offline self ++ offlines (crate.modules self);
     crate.ready_ := crate.ready_ self;
     crate.users_ := crate.users_ self |}.

Lemma move_loop_spec (n : nat) :
  ∀ self,
    (length (offlines (crate.modules self)) < n)%nat →
    crate_modules.move_loop backplane_offline n self
    = Some {| crate.num_modules := crate.num_modules self;
              crate.revision := crate.revision self;
              crate.the_backplane := crate.the_backplane (moved_offline self);
              crate.modules := crate.modules (moved_offline self);
              crate.offline := crate.offline (moved_offline self);
              crate.ready_ := crate.ready_ self;
              crate.users_ := crate.users_ self |}.
Proof.
  induction n as [|n IH]; intros self Hn; [lia|].
  cbn [crate_modules.move_loop].
  destruct (crate_modules.move_first (crate.modules self)) as [[moved rest]|] eqn:Hf.
  - apply move_first_Some in Hf as [Hon Hoff].
    rewrite IH by (cbn [crate.modules]; rewrite Hoff in Hn; simpl in Hn; lia).
    cbn [moved_offline crate.modules crate.offline crate.the_backplane
         crate.num_modules crate.revision crate.ready_ crate.users_].
    rewrite Hon, Hoff. cbn [fold_left]. rewrite <- app_assoc. reflexivity.
  - apply move_first_None in Hf as [Hon Hoff].
    cbn [moved_offline crate.modules crate.offline crate.the_backplane].
    rewrite Hon, Hoff, app_nil_r. cbn [fold_left]. now destruct self.
Qed.

(** X23: [move_offlines] comes to an end, after one round of its outer
    loop per module that is not online and one more.  It leaves the
    modules that are online in the online list, in their order, appends the
    others to the offline list, in their order, reports each of them to
    the backplane, and sets [num_modules] to the size of the online
    list. *)
Theorem move_offlines_partitions (n : nat) (self : crate.t) :
  (length (offlines (crate.modules self)) < n)%nat →
  crate_modules.move_offlines backplane_offline n self = Some (moved_offline self).
Proof.
  intros Hn. unfold crate_modules.move_offlines.
  rewrite move_loop_spec by exact Hn. reflexivity.
Qed.

End offline_facts.

Section revision_facts.
Variable crate_revision : module.t → Z.

(** The first module that is present and reports a revision that is not
    negative. *)
Fixpoint first_revision (mods : list module.t) : option Z :=
  match mods with
  | [] => None
  | m :: rest =>
      if module.present m && (0 <=? crate_revision m)
      then Some (crate_revision m)
      else first_revision rest
  end.

(** The revisions of the modules that are present. *)
Definition present_revisions (mods : list module.t) : list Z :=
  crate_revision <$> filter (λ m, module.present m = true) mods.

Lemma check_revision_loop_set (mods : list module.t) (revision : Z) :
  0 ≤ revision →
  crate_modules.check_revision_loop crate_revision mods revision = revision.
Proof.
  intros Hrev. induction mods as [|m mods IH]; [reflexivity|].
  cbn [crate_modules.check_revision_loop].
  destruct (module.present m); [|exact IH].
  destruct (Z.ltb_spec revision 0); [lia|exact IH].
Qed.

Lemma check_revision_loop_unset (mods : list module.t) :
  ∀ revision,
    revision < 0 →
    crate_modules.check_revision_loop crate_revision mods revision
    = match first_revision mods with
      | Some found => found
      | None => default revision (last (present_revisions mods))
      end.
Proof.
  induction mods as [|m mods IH]; intros revision Hrev; [reflexivity|].
  cbn [crate_modules.check_revision_loop first_revision].
  unfold present_revisions. rewrite filter_cons.
  destruct (module.present m) eqn:Hp.
  - rewrite decide_True by reflexivity. rewrite fmap_cons.
    destruct (Z.ltb_spec revision 0); [|lia]. cbn [andb].
    destruct (Z.leb_spec 0 (crate_revision m)) as [Hpos|Hneg].
    + now apply check_revision_loop_set.
    + rewrite IH by exact Hneg. fold (present_revisions mods).
      destruct (first_revision mods); [reflexivity|].
      destruct (present_revisions mods) as [|r l] eqn:Hl; [reflexivity|].
      rewrite last_cons_cons.
      destruct (last (r :: l)) eqn:Hlast; [reflexivity|].
      apply last_None in Hlast. discriminate.
  - rewrite decide_False by discriminate. cbn [andb]. now apply IH.
Qed.

Lemma check_revision_loop_app (a b : list module.t) :
  ∀ revision,
    crate_modules.check_revision_loop crate_revision (a ++ b) revision
    = crate_modules.check_revision_loop crate_revision b
        (crate_modules.check_revision_loop crate_revision a revision).
Proof.
  induction a as [|m a IH]; intros revision; [reflexivity|].
  cbn [app crate_modules.check_revision_loop].
  destruct (module.present m); [|apply IH].
  destruct (revision <? 0); apply IH.
Qed.

(** X24: [check_revision] sets the crate revision to the revision of the
    first module, in the online list followed by the offline list, that is
    present and reports a revision that is not negative.  When there
    is no such module it is the revision of the last module that is
    present, and -1 when no module is present. *)
Theorem check_revision_first_present (self : crate.t) :
  crate_modules.check_revision crate_revision self
  = match first_revision (crate.modules self ++ crate.offline self) with
    | Some found => found
    | None =>
        default (-1)
          (last (present_revisions (crate.modules self ++ crate.offline self)))
    end.
Proof.
  unfold crate_modules.check_revision.
  rewrite <- check_revision_loop_app.
  apply check_revision_loop_unset. lia.
Qed.

End revision_facts.

End crate_more_facts.

(** A crate whose modules answer a probe or not, by slot, and whose
    [sync_hw] follows a script. *)
Definition scripted_afe (answers : Z → bool) (sync_ : Z → outcome unit)
  : crate.collaborators :=
  {| crate.backplane := list Z * list Z;
     crate.backplane_reinit := λ online offline _,
       (module.slot <$> online, module.slot <$> offline);
     crate.module_close := λ m, (set_online false m, Return tt);
     crate.module_probe := λ m, (set_online (answers (module.slot m)) m, Return tt);
     crate.module_boot := λ _ _ _ m, (set_online true m, Return tt);
     crate.module_sync_hw := λ m, (m, sync_ (module.slot m));
     crate.module_sync_vars := λ m, (m, Return tt);
     crate.module_config := Z;
     crate.module_export := λ m, (m, Return (module.slot m));
     crate.file_opens := λ _, true |}.

(** The modules in slots 7 and 9 fail to synchronise, and the one in slot
    5 would. *)
Definition sync_script (slot : Z) : outcome unit :=
  if slot =? 5 then Throw error.module_offline
  else if slot =? 7 then Throw error.device_hw_failure
  else if slot =? 9 then Throw error.internal_failure
  else Return tt.

Definition all_but_slot5 (slot : Z) : bool := negb (slot =? 5).

(** Modules in slots 2, 5, 7 and 9; the one in slot 5 is not online. *)
Definition afe_example : @crate.t (scripted_afe all_but_slot5 sync_script) :=
  @crate.Build (scripted_afe all_but_slot5 sync_script)
    4 0 ([2; 5; 7; 9], [])
    [set_online true (module_in_slot 2 0); module_in_slot 5 1;
     set_online true (module_in_slot 7 2); set_online true (module_in_slot 9 3)]
    [] true 0.

Lemma initialize_afe_reports_first_error_witness :
  snd (crate.initialize_afe afe_example) = Throw error.device_hw_failure.
Proof.
  pose proof (@initialize_afe_reports_first_error
                (scripted_afe all_but_slot5 sync_script) afe_example eq_refl)
    as Hafe.
  cbv zeta in Hafe.
  destruct Hafe as (_ & _ & Hresult).
  - intros n m Hn Hm.
    assert (Hcases : n = 0%nat ∨ n = 2%nat ∨ n = 3%nat).
    { vm_compute in Hn. apply elem_of_cons in Hn as [->|Hn]; [auto|].
      apply elem_of_cons in Hn as [->|Hn]; [auto|].
      apply list_elem_of_singleton in Hn as ->. auto. }
    destruct Hcases as [-> | [-> | ->]]; injection Hm as <-; discriminate.
  - exact Hresult.
Defined.

Lemma probe_true_iff_all_online_witness :
  crate.modules (fst (crate.probe afe_example))
  = [set_online true (module_in_slot 2 0); module_in_slot 5 1;
     set_online true (module_in_slot 7 2); set_online true (module_in_slot 9 3)]
  ∧ snd (crate.probe afe_example) = Return false.
Proof.
  destruct (@probe_true_iff_all_online (scripted_afe all_but_slot5 sync_script)
              afe_example eq_refl eq_refl)
    as (Hmods & _ & result & Hresult & Hiff).
  - repeat constructor.
  - split; [exact Hmods|]. rewrite Hresult. f_equal.
    destruct result; [|reflexivity].
    pose proof (proj1 Hiff eq_refl) as Hall.
    apply Forall_cons in Hall as [_ Hall].
    apply Forall_cons in Hall as [Hon _]. discriminate.
Defined.

Lemma shutdown_closes_crate_witness :
  crate_modules.index 3 (fst (crate.shutdown afe_example)) = Fault
  ∧ snd (crate.probe (fst (crate.shutdown afe_example)))
    = Throw error.crate_not_ready.
Proof.
  destruct (@shutdown_closes_crate (scripted_afe all_but_slot5 sync_script)
              afe_example)
    as (_ & _ & _ & Hprobe & _ & _ & Hindex).
  - repeat constructor; discriminate.
  - reflexivity.
  - split; [|exact Hprobe].
    apply (Hindex 3 crate_modules.none). split; [lia|reflexivity].
Defined.

(** A backplane that lists the slots reported to it as offline. *)
Definition note_offline (m : module.t) (bp : list Z * list Z) : list Z * list Z :=
  (fst bp, module.slot m :: snd bp).

Lemma move_offlines_partitions_witness :
  @crate_modules.move_offlines (scripted_afe all_but_slot5 sync_script)
    note_offline 2 afe_example
  = Some (@crate.Build (scripted_afe all_but_slot5 sync_script)
            3 0 ([2; 5; 7; 9], [5])
            [set_online true (module_in_slot 2 0);
             set_online true (module_in_slot 7 2);
             set_online true (module_in_slot 9 3)]
            [module_in_slot 5 1] true 0).
Proof.
  apply (@move_offlines_partitions (scripted_afe all_but_slot5 sync_script)
           note_offline 2 afe_example).
  vm_compute. lia.
Defined.

(** ** More on the channel variables of a configuration *)

(** What a [write_var] call of the import always satisfies. *)
Definition in_range (desc_size num_channels : Z) (w : write_var) : Prop :=
  0 ≤ wv_channel w < num_channels
  ∧ 0 ≤ wv_offset w < desc_size
  ∧ wv_io w = false
  ∧ 0 ≤ wv_value w < 2 ^ 32.

Lemma to_value_range (j : json) (x : Z) :
  to_value j = Return x → 0 ≤ x < 2 ^ 32.
Proof.
  destruct j as [|z|f|b| |]; cbn [to_value]; try discriminate.
  - intros [= <-]. unfold cxx.as_uint32. apply Z.mod_pos_bound. lia.
  - unfold uint32_of_double. destruct (Prim2SF f) as [s|s| |s m e];
      try discriminate; [intros [= <-]; lia|].
    set (z := if s then _ else _).
    destruct ((0 <=? z) && (z <? 2 ^ 32)) eqn:Hz; [|discriminate].
    intros [= <-]. apply andb_true_iff in Hz as [H0 H1].
    apply Z.leb_le in H0. apply Z.ltb_lt in H1. lia.
  - intros [= <-]. destruct b; lia.
Qed.

(** The outcome of the import is the end of its calls, with the calls when
    it returns. *)
Definition returned (calls : list write_var * outcome unit)
  : outcome (list write_var) :=
  calls.2 ≫= λ _, mret calls.1.

Lemma write_elements_calls (value : list json) (channel vbase : Z) (n : nat) :
  ∀ v,
    let calls := config_calls.write_elements n v value channel vbase in
    write_elements n v value channel vbase = returned calls
    ∧ (length calls.1 ≤ n)%nat
    ∧ Forall (λ w, wv_channel w = channel ∧ v ≤ wv_offset w < v + Z.of_nat n
                   ∧ wv_io w = false ∧ 0 ≤ wv_value w < 2 ^ 32) calls.1.
Proof.
  induction n as [|n IH]; intros v.
  - cbn. split; [reflexivity|]. split; [lia|constructor].
  - cbn [write_elements config_calls.write_elements].
    destruct (value !! Z.to_nat (vbase + v)) as [j|];
      [|cbn; split; [reflexivity|]; split; [lia|constructor]].
    destruct (to_value j) as [x|e|] eqn:Hx;
      try (cbn; split; [reflexivity|]; split; [lia|constructor]).
    destruct (IH (v + 1)) as (Heq & Hlen & Hall).
    cbn [mbind outcome_bind]. rewrite Heq. cbn zeta. unfold returned.
    cbn [fst snd]. split; [|split].
    + destruct (config_calls.write_elements n (v + 1) value channel vbase).2
        as [[]|e|]; reflexivity.
    + cbn [length]. lia.
    + constructor.
      * cbn [wv_channel wv_offset wv_io wv_value].
        pose proof (to_value_range _ _ Hx). repeat split; lia.
      * eapply Forall_impl; [exact Hall|].
        intros w (Hc & Ho & Hio & Hv). repeat split; auto; lia.
Qed.

Lemma write_channels_calls (desc_size num_channels vchannels : Z)
  (value : list json) (n : nat) :
  ∀ channel,
    0 ≤ channel →
    let calls :=
      config_calls.write_channels n channel desc_size num_channels vchannels value in
    write_channels n channel desc_size num_channels vchannels value = returned calls
    ∧ Forall (λ w, channel ≤ wv_channel w ∧ in_range desc_size num_channels w) calls.1
    ∧ Z.of_nat (length calls.1) ≤ Z.of_nat n * Z.max 0 desc_size.
Proof.
  induction n as [|n IH]; intros channel Hpos.
  - cbn. split; [reflexivity|]. split; [constructor|lia].
  - cbn [write_channels config_calls.write_channels].
    destruct ((channel <? num_channels) && (channel <? vchannels)
              && (channel * desc_size <? Z.of_nat (length value))) eqn:Hcond;
      [|cbn; split; [reflexivity|]; split; [constructor|lia]].
    apply andb_true_iff in Hcond as [Hcond _].
    apply andb_true_iff in Hcond as [Hnc _]. apply Z.ltb_lt in Hnc.
    destruct (write_elements_calls value channel (channel * desc_size)
                (Z.to_nat desc_size) 0) as (Heq1 & Hlen1 & Hall1).
    destruct (IH (channel + 1) ltac:(lia)) as (Heq & Hall & Hlen).
    rewrite Heq1, Heq. cbn zeta.
    assert (Hfirst : Forall (λ w, channel ≤ wv_channel w
                                  ∧ in_range desc_size num_channels w)
                       (config_calls.write_elements (Z.to_nat desc_size) 0 value
                          channel (channel * desc_size)).1).
    { eapply Forall_impl; [exact Hall1|].
      intros w (Hc & Ho & Hio & Hv). unfold in_range.
      repeat split; try lia; assumption. }
    unfold returned.
    destruct (config_calls.write_elements (Z.to_nat desc_size) 0 value channel
                (channel * desc_size)) as [ws1 end1].
    cbn [fst snd] in *.
    destruct end1 as [[]|e|]; cbn [mbind outcome_bind fst snd].
    + split; [|split].
      * destruct (config_calls.write_channels n (channel + 1) desc_size
                    num_channels vchannels value).2 as [[]|e|]; reflexivity.
      * apply Forall_app. split; [exact Hfirst|].
        eapply Forall_impl; [exact Hall|].
        intros w (Hc & Hr). split; [lia|exact Hr].
      * rewrite length_app. lia.
    + split; [reflexivity|]. split; [exact Hfirst|lia].
    + split; [reflexivity|]. split; [exact Hfirst|lia].
Qed.

(** X25: whatever its array holds and however the import of a channel
    variable ends, every [write_var] call it makes names a channel of the
    module and an offset inside the variable, carries a 32 bit value and
    leaves [io] off; there are at most [num_channels * desc_size] calls;
    and the import returns its calls exactly when the loops end without an
    error. *)
Theorem import_channel_var_writes_in_range (writeable : bool)
  (desc_size num_channels : Z) (value : list json) :
  let calls :=
    config_calls.import_channel_var writeable desc_size num_channels value in
  Forall (in_range desc_size num_channels) calls.1
  ∧ Z.of_nat (length calls.1) ≤ Z.max 0 num_channels * Z.max 0 desc_size
  ∧ import_channel_var writeable desc_size num_channels value = returned calls.
Proof.
  unfold import_channel_var, config_calls.import_channel_var.
  assert (Hnil : ∀ end_ : outcome unit,
            Forall (in_range desc_size num_channels) (@nil write_var, end_).1
            ∧ Z.of_nat (length (@nil write_var, end_).1)
              ≤ Z.max 0 num_channels * Z.max 0 desc_size).
  { intros end_. split; [constructor|simpl; lia]. }
  destruct writeable; [|split; [apply Hnil|split; [apply Hnil|reflexivity]]].
  destruct (desc_size =? 0);
    [split; [apply Hnil|split; [apply Hnil|reflexivity]]|].
  destruct (negb _); [split; [apply Hnil|split; [apply Hnil|reflexivity]]|].
  cbn zeta.
  match goal with
  | |- context [config_calls.write_channels ?n ?ch ?d ?nc ?vc ?val] =>
      destruct (write_channels_calls d nc vc val n ch ltac:(lia))
        as (Heq & Hall & Hlen)
  end.
  split; [|split].
  - eapply Forall_impl; [exact Hall|]. intros w [_ Hr]. exact Hr.
  - lia.
  - exact Heq.
Qed.

(** An array whose second element is a string: the call for the first
    element is made, and the import throws [config_json_error]. *)
Lemma import_channel_var_writes_in_range_witness :
  let calls := config_calls.import_channel_var true 2 1 [jboolean true; jstring] in
  calls
  = ([ {| wv_value := 1; wv_channel := 0; wv_offset := 0; wv_io := false |} ],
     Throw error.config_json_error)
  ∧ Forall (in_range 2 1) calls.1
  ∧ Z.of_nat (length calls.1) ≤ Z.max 0 1 * Z.max 0 2
  ∧ import_channel_var true 2 1 [jboolean true; jstring] = returned calls.
Proof.
  split; [vm_compute; reflexivity|].
  exact (import_channel_var_writes_in_range true 2 1 [jboolean true; jstring]).
Defined.

(** The calls for the values of one channel, from offset [v]. *)
Fixpoint element_writes (channel v : Z) (zs : list Z) : list write_var :=
  match zs with
  | [] => []
  | z :: rest =>
      {| wv_value := cxx.as_uint32 z; wv_channel := channel; wv_offset := v;
         wv_io := false |} :: element_writes channel (v + 1) rest
  end.

(** The calls for an array that holds [desc_size] values per channel,
    [n] channels from [channel]. *)
Fixpoint channel_writes (n : nat) (channel : Z) (desc_size : nat) (zs : list Z)
  : list write_var :=
  match n with
  | O => []
  | S n' =>
      element_writes channel 0 (take desc_size zs)
      ++ channel_writes n' (channel + 1) desc_size (drop desc_size zs)
  end.

Lemma write_elements_numbers (zs : list Z) (channel : Z) (n : nat) :
  ∀ (v vbase : nat),
    (vbase + v + n ≤ length zs)%nat →
    write_elements n (Z.of_nat v) (jnumber <$> zs) channel (Z.of_nat vbase)
    = Return (element_writes channel (Z.of_nat v) (take n (drop (vbase + v) zs))).
Proof.
  induction n as [|n IH]; intros v vbase Hlen; [reflexivity|].
  cbn [write_elements].
  replace (Z.to_nat (Z.of_nat vbase + Z.of_nat v)) with (vbase + v)%nat by lia.
  destruct (lookup_lt_is_Some_2 zs (vbase + v) ltac:(lia)) as [z Hz].
  rewrite list_lookup_fmap, Hz. cbn [fmap option_fmap option_map to_value].
  cbn [mbind outcome_bind].
  replace (Z.of_nat v + 1) with (Z.of_nat (S v)) by lia.
  rewrite IH by lia. cbn [mbind outcome_bind mret outcome_ret].
  rewrite (drop_S zs z (vbase + v) Hz). cbn [take element_writes].
  replace (Z.of_nat v + 1) with (Z.of_nat (S v)) by lia.
  replace (vbase + S v)%nat with (S (vbase + v)) by lia. reflexivity.
Qed.

Lemma write_channels_numbers (desc_size : nat) (num_channels vchannels : Z)
  (zs : list Z) (n : nat) :
  ∀ channel : nat,
    (0 < desc_size)%nat →
    Z.of_nat channel + Z.of_nat n ≤ num_channels →
    Z.of_nat channel + Z.of_nat n ≤ vchannels →
    ((channel + n) * desc_size ≤ length zs)%nat →
    write_channels n (Z.of_nat channel) (Z.of_nat desc_size) num_channels vchannels
      (jnumber <$> zs)
    = Return (channel_writes n (Z.of_nat channel) desc_size
                (drop (channel * desc_size) zs)).
Proof.
  induction n as [|n IH]; intros channel Hsize Hnc Hvc Hlen; [reflexivity|].
  cbn [write_channels]. rewrite length_fmap.
  assert (Hcond : (Z.of_nat channel <? num_channels)
                  && (Z.of_nat channel <? vchannels)
                  && (Z.of_nat channel * Z.of_nat desc_size <? Z.of_nat (length zs))
                  = true).
  { rewrite !andb_true_iff, !Z.ltb_lt. nia. }
  rewrite Hcond. rewrite Nat2Z.id.
  replace (Z.of_nat channel * Z.of_nat desc_size)
    with (Z.of_nat (channel * desc_size)) by lia.
  pose proof (write_elements_numbers zs (Z.of_nat channel) desc_size 0
                (channel * desc_size) ltac:(nia)) as Helements.
  change (Z.of_nat 0) with 0 in Helements. rewrite Helements.
  cbn [mbind outcome_bind].
  replace (Z.of_nat channel + 1) with (Z.of_nat (S channel)) by lia.
  rewrite IH by (lia || nia). cbn [mbind outcome_bind mret outcome_ret].
  cbn [channel_writes]. rewrite Nat.add_0_r, drop_drop.
  replace (Z.of_nat channel + 1) with (Z.of_nat (S channel)) by lia.
  replace (S channel * desc_size)%nat with (channel * desc_size + desc_size)%nat
    by lia.
  reflexivity.
Qed.

Lemma import_full_array (desc_size num_channels : nat) (zs : list Z) :
  (0 < desc_size)%nat →
  (num_channels * desc_size ≤ length zs)%nat →
  (length zs `mod` desc_size = 0)%nat →
  import_channel_var true (Z.of_nat desc_size) (Z.of_nat num_channels)
    (jnumber <$> zs)
  = Return (channel_writes num_channels 0 desc_size zs).
Proof.
  intros Hsize Hlen Hmod. unfold import_channel_var.
  destruct (Z.eqb_spec (Z.of_nat desc_size) 0) as [|_]; [lia|].
  rewrite length_fmap.
  assert (Hm : Z.of_nat (length zs) mod Z.of_nat desc_size = 0).
  { rewrite <- Nat2Z.inj_mod. lia. }
  rewrite Hm. change (negb (0 =? 0)) with false. cbv iota.
  assert (Hvc : Z.of_nat num_channels ≤ Z.of_nat (length zs) / Z.of_nat desc_size).
  { apply Z.div_le_lower_bound; lia. }
  destruct (Z.ltb_spec (Z.of_nat (length zs) / Z.of_nat desc_size)
              (Z.of_nat num_channels)) as [|_]; [lia|].
  rewrite Nat2Z.id.
  pose proof (write_channels_numbers desc_size (Z.of_nat num_channels)
                (Z.of_nat (length zs) / Z.of_nat desc_size) zs num_channels 0)
    as Hloop.
  change (Z.of_nat 0) with 0 in Hloop. rewrite Hloop; [|lia..].
  rewrite drop_0. reflexivity.
Qed.

(** X26: an array of numbers with [desc_size] values for each of the
    module's channels is written in full: value [c * desc_size + v] of the
    array goes to channel [c] at offset [v], converted to 32 bits, channel
    by channel and in the order of the array.  A longer array is cut
    after the last channel. *)
Theorem import_channel_var_full_array (desc_size num_channels : nat) (zs : list Z) :
  (0 < desc_size)%nat →
  (num_channels * desc_size ≤ length zs)%nat →
  (length zs `mod` desc_size = 0)%nat →
  import_channel_var true (Z.of_nat desc_size) (Z.of_nat num_channels)
    (jnumber <$> zs)
  = Return (channel_writes num_channels 0 desc_size zs).
Proof. exact (import_full_array desc_size num_channels zs). Qed.

Lemma import_channel_var_full_array_witness :
  import_channel_var true (Z.of_nat 2) (Z.of_nat 2)
    (jnumber <$> [1; 2; 3; 4; 5; 6])
  = Return [ {| wv_value := 1; wv_channel := 0; wv_offset := 0; wv_io := false |};
             {| wv_value := 2; wv_channel := 0; wv_offset := 1; wv_io := false |};
             {| wv_value := 3; wv_channel := 1; wv_offset := 0; wv_io := false |};
             {| wv_value := 4; wv_channel := 1; wv_offset := 1; wv_io := false |} ].
Proof.
  apply (import_channel_var_full_array 2 2 [1; 2; 3; 4; 5; 6]).
  - lia.
  - simpl. lia.
  - reflexivity.
Defined.

Lemma writes_from_lookup (zs : list Z) :
  ∀ (c : Z) (i : nat),
    writes_from c zs !! i
    = (λ z, {| wv_value := cxx.as_uint32 z; wv_channel := c + Z.of_nat i;
               wv_offset := 0; wv_io := false |}) <$> zs !! i.
Proof.
  induction zs as [|z zs IH]; intros c i; [reflexivity|].
  destruct i as [|i]; cbn [writes_from].
  - cbn. now rewrite Z.add_0_r.
  - rewrite !lookup_cons_ne_0 by lia. cbn [Nat.pred].
    rewrite IH. destruct (zs !! i); cbn [fmap option_fmap option_map];
      [|reflexivity].
    do 2 f_equal. lia.
Qed.

(** X27: a channel variable of size 1 with a non-empty array of numbers:
    every channel of the module is written once, in order, at offset 0;
    channel [c] gets element [c] of the array and, when the array is
    shorter, element 0. *)
Theorem import_channel_var_single_values (num_channels : nat) (z0 : Z) (zs : list Z) :
  import_channel_var true 1 (Z.of_nat num_channels) (jnumber <$> z0 :: zs)
  = Return ((λ c : nat,
               {| wv_value := cxx.as_uint32 (default z0 ((z0 :: zs) !! c));
                  wv_channel := Z.of_nat c; wv_offset := 0; wv_io := false |})
              <$> seq 0 num_channels).
Proof.
  rewrite import_channel_var_size_one by lia. f_equal.
  rewrite Nat2Z.id. apply list_eq. intros i.
  rewrite writes_from_lookup, list_lookup_fmap.
  destruct (decide (i < num_channels)%nat) as [Hi|Hi].
  - rewrite lookup_take_lt by exact Hi.
    rewrite lookup_seq_lt by exact Hi.
    cbn [fmap option_fmap option_map]. rewrite Z.add_0_l, Nat.add_0_l.
    destruct (decide (i < length (z0 :: zs))%nat) as [Hshort|Hlong].
    + rewrite lookup_app_l by exact Hshort.
      destruct (lookup_lt_is_Some_2 _ _ Hshort) as [z Hz]. rewrite Hz.
      reflexivity.
    + rewrite lookup_app_r by lia.
      rewrite lookup_replicate_2 by lia.
      rewrite (lookup_ge_None_2 (z0 :: zs) i) by lia. reflexivity.
  - rewrite lookup_take_ge by lia.
    rewrite lookup_seq_ge by lia. reflexivity.
Qed.

Import config_export.

(** One call per value, channel after channel from [channel]. *)
Fixpoint var_writes (channel : Z) (vars : list (list Z)) : list write_var :=
  match vars with
  | [] => []
  | values :: rest =>
      element_writes channel 0 values ++ var_writes (channel + 1) rest
  end.

Lemma channel_writes_concat (desc_size : nat) (vars : list (list Z)) :
  ∀ channel,
    Forall (λ values, length values = desc_size) vars →
    channel_writes (length vars) channel desc_size (concat vars)
    = var_writes channel vars.
Proof.
  induction vars as [|values vars IH]; intros channel Hsize; [reflexivity|].
  apply Forall_cons in Hsize as [Hlen Hsize].
  cbn [length channel_writes concat var_writes].
  rewrite take_app_length' by (symmetry; exact Hlen).
  rewrite drop_app_length' by (symmetry; exact Hlen).
  now rewrite IH.
Qed.

Lemma element_writes_values (channel : Z) (values : list Z) :
  ∀ v (i : nat) x,
    values !! i = Some x →
    element_writes channel v values !! i
    = Some {| wv_value := cxx.as_uint32 x; wv_channel := channel;
              wv_offset := v + Z.of_nat i; wv_io := false |}.
Proof.
  induction values as [|z values IH]; intros v i x Hx; [discriminate|].
  destruct i as [|i]; cbn [element_writes].
  - injection Hx as <-. cbn. now rewrite Z.add_0_r.
  - rewrite lookup_cons_ne_0 in Hx by lia. rewrite lookup_cons_ne_0 by lia.
    cbn [Nat.pred] in *. rewrite (IH (v + 1) i x Hx). do 2 f_equal. lia.
Qed.

Lemma element_writes_length (channel : Z) (values : list Z) :
  ∀ v, length (element_writes channel v values) = length values.
Proof.
  induction values as [|z values IH]; intros v; [reflexivity|].
  cbn [element_writes length]. now rewrite IH.
Qed.

Lemma var_writes_values (desc_size : nat) (vars : list (list Z)) :
  ∀ channel (c v : nat) values x,
    Forall (λ values, length values = desc_size) vars →
    vars !! c = Some values →
    values !! v = Some x →
    var_writes channel vars !! (c * desc_size + v)%nat
    = Some {| wv_value := cxx.as_uint32 x; wv_channel := channel + Z.of_nat c;
              wv_offset := Z.of_nat v; wv_io := false |}.
Proof.
  induction vars as [|values' vars IH]; intros channel c v values x Hsize Hc Hv;
    [discriminate|].
  apply Forall_cons in Hsize as [Hlen Hsize]. cbn [var_writes].
  destruct c as [|c].
  - injection Hc as ->. rewrite Nat.mul_0_l, Nat.add_0_l.
    rewrite lookup_app_l
      by (rewrite element_writes_length; eapply lookup_lt_Some; eassumption).
    rewrite (element_writes_values channel values 0 v x Hv).
    do 2 f_equal. lia.
  - rewrite lookup_cons_ne_0 in Hc by lia. cbn [Nat.pred] in Hc.
    rewrite lookup_app_r by (rewrite element_writes_length; lia).
    rewrite element_writes_length, Hlen.
    replace (S c * desc_size + v - desc_size)%nat with (c * desc_size + v)%nat
      by lia.
    rewrite (IH (channel + 1) c v values x Hsize Hc Hv). do 2 f_equal. lia.
Qed.

(** X28: the import reads back what the export wrote.  [export_json]
    writes the values of a channel variable channel after channel; for a
    variable with [desc_size] values in each of the module's channels the
    import of that array makes one call per value, in the same order, and
    the call at position [c * desc_size + v] writes the value that channel
    [c] had at offset [v], to channel [c] at offset [v]. *)
Theorem import_reads_back_export (desc_size : nat) (vars : list (list Z)) :
  (0 < desc_size)%nat →
  Forall (λ values, length values = desc_size) vars →
  Forall (Forall (λ x, 0 ≤ x < 2 ^ 32)) vars →
  ∃ ws,
    import_channel_var true (Z.of_nat desc_size) (Z.of_nat (length vars))
      (export_channel_var vars)
    = Return ws
    ∧ length ws = (length vars * desc_size)%nat
    ∧ ∀ (c v : nat) values x,
        vars !! c = Some values →
        values !! v = Some x →
        ws !! (c * desc_size + v)%nat
        = Some {| wv_value := x; wv_channel := Z.of_nat c;
                  wv_offset := Z.of_nat v; wv_io := false |}.
Proof.
  intros Hsize Hlens Hrange.
  assert (Hlen : length (concat vars) = (length vars * desc_size)%nat).
  { clear Hrange. induction vars as [|values vars IH]; [reflexivity|].
    apply Forall_cons in Hlens as [Hv Hlens].
    cbn [concat length]. rewrite length_app, IH by exact Hlens. lia. }
  exists (var_writes 0 vars). split; [|split].
  - unfold export_channel_var.
    rewrite import_full_array.
    + now rewrite channel_writes_concat.
    + exact Hsize.
    + lia.
    + rewrite Hlen. apply Nat.Div0.mod_mul.
  - clear Hrange Hlen. generalize 0.
    induction vars as [|values vars IH]; intros channel; [reflexivity|].
    apply Forall_cons in Hlens as [Hv Hlens].
    cbn [var_writes length]. rewrite length_app, element_writes_length, IH, Hv
      by exact Hlens.
    lia.
  - intros c v values x Hc Hv.
    rewrite (var_writes_values desc_size vars 0 c v values x Hlens Hc Hv).
    rewrite Z.add_0_l. do 2 f_equal.
    unfold cxx.as_uint32. apply Z.mod_small.
    rewrite Forall_forall in Hrange.
    pose proof (Hrange values (list_elem_of_lookup_2 _ _ _ Hc)) as Hvalues.
    rewrite Forall_forall in Hvalues.
    exact (Hvalues x (list_elem_of_lookup_2 _ _ _ Hv)).
Qed.

Lemma import_reads_back_export_witness :
  ∃ ws,
    import_channel_var true (Z.of_nat 2) (Z.of_nat (length [[1; 2]; [3; 4]]))
      (export_channel_var [[1; 2]; [3; 4]])
    = Return ws
    ∧ length ws = (length [[1; 2]; [3; 4]] * 2)%nat
    ∧ ∀ (c v : nat) values x,
        [[1; 2]; [3; 4]] !! c = Some values →
        values !! v = Some x →
        ws !! (c * 2 + v)%nat
        = Some {| wv_value := x; wv_channel := Z.of_nat c;
                  wv_offset := Z.of_nat v; wv_io := false |}.
Proof.
  apply (import_reads_back_export 2 [[1; 2]; [3; 4]]).
  - lia.
  - repeat constructor.
  - repeat constructor; lia.
Defined.

(** ** The simulated module *)

(** A call on a simulated module. *)
Inductive sim_call : Type :=
| call_open (device_number : Z)
| call_close
| call_probe (init : outcome unit)
| call_boot (boot_comms boot_fippi boot_dsp : bool) (init : outcome unit).

(** The module after a call, whether the call returned or not. *)
Definition sim_step (mod_defs : list sim.module_def) (self : sim.t) (call : sim_call)
  : sim.t :=
  match call with
  | call_open device_number => fst (sim.open mod_defs device_number self)
  | call_close => sim.close self
  | call_probe init => fst (sim.probe init self)
  | call_boot boot_comms boot_fippi boot_dsp init =>
      fst (sim.boot boot_comms boot_fippi boot_dsp init self)
  end.

Definition sim_consistent (self : sim.t) : Prop :=
  (sim.online_ self = true →
   sim.comms_fpga self = true ∧ sim.fippi_fpga self = true
   ∧ sim.dsp_online self = true)
  ∧ sim.present_ self = sim.mapped self.

Lemma sim_step_consistent (mod_defs : list sim.module_def) (self : sim.t)
  (call : sim_call) :
  sim_consistent self → sim_consistent (sim_step mod_defs self call).
Proof.
  intros [Honline Hpresent]. destruct call as [device| |init|c f d init].
  - cbn [sim_step]. unfold sim.open, sim_consistent.
    destruct (sim.mapped self) eqn:Hmapped; cbn [fst];
      [rewrite Hmapped; split; assumption|].
    destruct (sim.find_def device mod_defs) as [mod_def|]; cbn [fst];
      [|rewrite Hmapped; split; assumption].
    destruct (sim.def_adc_clk_div mod_def =? 0); cbn [fst];
      [rewrite Hmapped; split; assumption|].
    split; [exact Honline|reflexivity].
  - split; [exact Honline|reflexivity].
  - cbn [sim_step]. unfold sim.probe.
    destruct init; cbn [fst]; (split; [|exact Hpresent]);
      cbn [sim.set_flags sim.online_ sim.comms_fpga sim.fippi_fpga sim.dsp_online];
      auto; discriminate.
  - cbn [sim_step]. unfold sim.boot.
    destruct init; cbn [fst]; (split; [|exact Hpresent]);
      cbn [sim.set_flags sim.online_ sim.comms_fpga sim.fippi_fpga sim.dsp_online];
      try discriminate.
    intros Hall. apply andb_true_iff in Hall as [Hall Hdsp].
    apply andb_true_iff in Hall as [Hcomms Hfippi]. auto.
Qed.

(** X29: whatever calls of [open], [close], [probe] and [boot] are made
    on a simulated module, and whether they return or fail, a module that
    says it is online has its COMM FPGA, its FIPPI FPGA and its DSP
    loaded, and it is present exactly while it is open. *)
Theorem sim_online_means_loaded (mod_defs : list sim.module_def)
  (calls : list sim_call) (self : sim.t) :
  sim_consistent self →
  sim_consistent (fold_left (sim_step mod_defs) calls self).
Proof.
  revert self. induction calls as [|call calls IH]; intros self Hself;
    [exact Hself|].
  cbn [fold_left]. apply IH. now apply sim_step_consistent.
Qed.

(** The parameters of the [boot] calls of a sequence. *)
Definition boots_of (boots : list (bool * bool * bool)) : list sim_call :=
  (λ b, call_boot b.1.1 b.1.2 b.2 (Return tt)) <$> boots.

Lemma boots_flags (mod_defs : list sim.module_def) (boots : list (bool * bool * bool)) :
  ∀ self,
    let self' := fold_left (sim_step mod_defs) (boots_of boots) self in
    sim.comms_fpga self' = sim.comms_fpga self || existsb (λ b, b.1.1) boots
    ∧ sim.fippi_fpga self' = sim.fippi_fpga self || existsb (λ b, b.1.2) boots
    ∧ sim.dsp_online self' = sim.dsp_online self || existsb (λ b, b.2) boots
    ∧ (boots ≠ [] →
       sim.online_ self'
       = sim.comms_fpga self' && sim.fippi_fpga self' && sim.dsp_online self').
Proof.
  induction boots as [|[[c f] d] boots IH]; intros self.
  - cbn. rewrite !orb_false_r. repeat split. congruence.
  - cbv zeta. cbn [boots_of fmap list_fmap fold_left sim_step fst snd existsb].
    fold (boots_of boots).
    set (self1 := fst (sim.boot c f d (Return tt) self)).
    destruct (IH self1) as (Hc & Hf & Hd & Hon). cbv zeta in Hc, Hf, Hd, Hon.
    assert (H1 : sim.comms_fpga self1 = sim.comms_fpga self || c
                 ∧ sim.fippi_fpga self1 = sim.fippi_fpga self || f
                 ∧ sim.dsp_online self1 = sim.dsp_online self || d
                 ∧ sim.online_ self1
                   = sim.comms_fpga self1 && sim.fippi_fpga self1
                     && sim.dsp_online self1).
    { unfold self1, sim.boot. cbn.
      destruct c, f, d, (sim.comms_fpga self), (sim.fippi_fpga self),
        (sim.dsp_online self); auto. }
    destruct H1 as (Hc1 & Hf1 & Hd1 & Hon1).
    rewrite Hc, Hf, Hd, Hc1, Hf1, Hd1, <- !orb_assoc.
    split; [reflexivity|]. split; [reflexivity|]. split; [reflexivity|].
    intros _. destruct boots as [|b boots].
    + cbn [boots_of fmap list_fmap fold_left existsb].
      rewrite Hon1, Hc1, Hf1, Hd1, !orb_false_r. reflexivity.
    + rewrite Hon by discriminate. rewrite Hc, Hf, Hd, Hc1, Hf1, Hd1, <- !orb_assoc.
      reflexivity.
Qed.

(** X30: the parts of a simulated module stay loaded from one [boot] to
    the next.  After a sequence of [boot] calls that all return, a part is
    loaded exactly when it was loaded before or one of the calls asked for
    it, and the module is online exactly when all three parts are
    loaded. *)
Theorem sim_boot_accumulates (mod_defs : list sim.module_def)
  (boots : list (bool * bool * bool)) (self : sim.t) :
  boots ≠ [] →
  let self' := fold_left (sim_step mod_defs) (boots_of boots) self in
  sim.comms_fpga self' = sim.comms_fpga self || existsb (λ b, b.1.1) boots
  ∧ sim.fippi_fpga self' = sim.fippi_fpga self || existsb (λ b, b.1.2) boots
  ∧ sim.dsp_online self' = sim.dsp_online self || existsb (λ b, b.2) boots
  ∧ sim.online_ self'
    = sim.comms_fpga self' && sim.fippi_fpga self' && sim.dsp_online self'.
Proof.
  intros Hboots. destruct (boots_flags mod_defs boots self) as (Hc & Hf & Hd & Hon).
  cbv zeta in *. auto.
Qed.

(** A module straight from its constructor, with nothing loaded. *)
Definition sim_fresh : sim.t :=
  {| sim.mapped := false; sim.present_ := false; sim.online_ := false;
     sim.comms_fpga := false; sim.fippi_fpga := false; sim.dsp_online := false;
     sim.slot := 0; sim.revision := 0; sim.eeprom_format := 0;
     sim.serial_num := 0; sim.num_channels := 0; sim.configs := [];
     sim.var_defaults := "" |}.

(** A revision F module with 16 channels in slot 2, as device 0. *)
Definition sim_def : sim.module_def :=
  {| sim.def_device_number := 0; sim.def_slot := 2; sim.def_revision := 15;
     sim.def_eeprom_format := 1; sim.def_serial_num := 1034;
     sim.def_num_channels := 16; sim.def_adc_bits := 14;
     sim.def_adc_msps := 250; sim.def_adc_clk_div := 2;
     sim.def_var_defaults := "" |}.

Lemma sim_online_means_loaded_witness :
  sim_consistent
    (fold_left (sim_step [sim_def])
       [call_open 0; call_boot true true false (Return tt);
        call_probe (Throw error.file_read_failure); call_close;
        call_boot false false true (Return tt)]
       sim_fresh).
Proof.
  apply (sim_online_means_loaded [sim_def]
           [call_open 0; call_boot true true false (Return tt);
            call_probe (Throw error.file_read_failure); call_close;
            call_boot false false true (Return tt)] sim_fresh).
  split; [discriminate|reflexivity].
Defined.

Lemma sim_boot_accumulates_witness :
  let self' :=
    fold_left (sim_step [sim_def])
      (boots_of [(true, false, false); (false, true, false); (false, false, true)])
      sim_fresh in
  sim.comms_fpga self' = true ∧ sim.online_ self' = true.
Proof.
  destruct (sim_boot_accumulates [sim_def]
              [(true, false, false); (false, true, false); (false, false, true)]
              sim_fresh ltac:(discriminate))
    as (Hc & _ & _ & Hon).
  cbv zeta. split; [exact Hc|].
  rewrite Hon. reflexivity.
Defined.
